(** * XYZulu multi-provider core: a shallow embedding and its properties

    The development follows the TypeScript sources:
    - [src/providers/types.ts]       normalized data model and error taxonomy
    - [src/providers/index.ts]       [ProviderRegistry]
    - [src/config/ConfigManager.ts]  [ConfigManager]
    - [src/providers/resolver.ts]    [resolveProvider]
    - [src/providers/qwen/QwenProvider.ts]  the one full provider
    - [src/providers/openai/OpenAIProvider.ts],
      [src/providers/anthropic/AnthropicProvider.ts]  the two skeletons
    - [src/cli.ts]                   [parseArgs], [validateProviderModel]
    - [src/index.ts]                 [main] and the command handlers

    Conventions of the embedding.
    - A JavaScript string is a [string]; its characters stand for UTF-16 code
      units below 256, so whitespace and case mapping are those of that range.
    - An optional value [T | undefined] is an [option T]; the truthiness test
      [if (x)] on an optional string is [truthy].
    - A function that may throw returns a [Completion]: [Return v] or
      [Throw e].  State (registry, configuration, file) is passed explicitly.
    - A JavaScript [Map] whose iteration order is observable is an
      insertion-ordered association list ([JsMap]); a [Map] or an object
      that is only looked up by key is a [gmap] on its own keys.
    - Values have their TypeScript types: a field declared [string] holds a
      string.  The [metadata] of an error, a diagnostic payload that nothing
      reads, is left out.
    - The platform ([fetch], [JSON.parse], [JSON.stringify], [Object.entries],
      the file at the configuration path) is a parameter of the functions
      that use it.
    - A handler that writes to the console and may end the process returns
      the lines written and how it ended. *)

From stdpp Require Import gmap strings list fin_maps.
From Stdlib Require Import Ascii String DecimalString.

Local Open Scope string_scope.
Local Open Scope list_scope.

(** ** JavaScript values: completions and strings *)

(** The subclasses of [LLMError] ([types.ts]) and what an instance carries. *)
Inductive ErrorClass : Type :=
  | AuthenticationErrorClass
  | RateLimitErrorClass
  | NetworkErrorClass
  | ValidationErrorClass
  | ProviderErrorClass.

Record LLMError : Type := mkLLMError {
  err_class : ErrorClass;
  err_message : string;
  err_provider : string;
  err_code : string;
  err_statusCode : option nat
}.

(** A thrown JavaScript value: an [Error] of the platform with its [name]
    and [message], a value that is no [Error] at all, or an [LLMError]. *)
Inductive Thrown : Type :=
  | JsError (name message : string)
  | JsOther
  | LLMErr (e : LLMError).

(** [new Error(message)]. *)
Definition Error (message : string) : Thrown := JsError "Error" message.

Inductive Completion (A : Type) : Type :=
  | Return (a : A)
  | Throw (e : Thrown).
Arguments Return {A} a.
Arguments Throw {A} e.

Definition bindC {A B : Type} (c : Completion A) (k : A -> Completion B)
  : Completion B :=
  match c with
  | Return a => k a
  | Throw e => Throw e
  end.

#[global] Instance Completion_ret : MRet Completion := @Return.
#[global] Instance Completion_bind : MBind Completion :=
  fun A B k c => bindC c k.
#[global] Instance Completion_fmap : FMap Completion :=
  fun A B f c => bindC c (fun a => Return (f a)).

(** The constructors of the error classes ([types.ts]): each subclass fixes
    its machine code. *)
Definition AuthenticationError (message provider : string)
    (statusCode : option nat) : LLMError :=
  mkLLMError AuthenticationErrorClass message provider
             "AUTHENTICATION_ERROR" statusCode.

Definition RateLimitError (message provider : string)
    (statusCode : option nat) : LLMError :=
  mkLLMError RateLimitErrorClass message provider "RATE_LIMIT_ERROR" statusCode.

Definition NetworkError (message provider : string)
    (statusCode : option nat) : LLMError :=
  mkLLMError NetworkErrorClass message provider "NETWORK_ERROR" statusCode.

Definition ValidationError (message provider : string)
    (statusCode : option nat) : LLMError :=
  mkLLMError ValidationErrorClass message provider "VALIDATION_ERROR" statusCode.

Definition ProviderError (message provider code : string)
    (statusCode : option nat) : LLMError :=
  mkLLMError ProviderErrorClass message provider code statusCode.

Module Js.

(** [if (s)] on a [string | undefined]: present and not the empty string. *)
Definition truthy (s : option string) : bool :=
  match s with
  | Some (String _ _) => true
  | _ => false
  end.

Definition nonempty (s : string) : bool := truthy (Some s).

(** [a || b] on optional strings with a string default. *)
Definition or_default (s : option string) (d : string) : string :=
  match s with
  | Some (String c r) => String c r
  | _ => d
  end.

Definition dquote : string := String (ascii_of_nat 34) EmptyString.
Definition backtick : ascii := ascii_of_nat 96.
Definition newline : ascii := ascii_of_nat 10.
Definition nl : string := String newline EmptyString.
Definition fence : string :=
  String backtick (String backtick (String backtick EmptyString)).

(** White space of [String.prototype.trim] among code units below 256:
    TAB, LF, VT, FF, CR, SP and NBSP. *)
Definition is_whitespace (c : ascii) : bool :=
  let n := nat_of_ascii c in
  (((9 <=? n) && (n <=? 13)) || (n =? 32) || (n =? 160))%nat.

Fixpoint trimStart (s : string) : string :=
  match s with
  | EmptyString => EmptyString
  | String c r => if is_whitespace c then trimStart r else s
  end.

Fixpoint trimEnd (s : string) : string :=
  match s with
  | EmptyString => EmptyString
  | String c r =>
      match trimEnd r with
      | EmptyString => if is_whitespace c then EmptyString
                       else String c EmptyString
      | r' => String c r'
      end
  end.

Definition trim (s : string) : string := trimEnd (trimStart s).

(** The regular-expression class [\w]. *)
Definition is_word (c : ascii) : bool :=
  let n := nat_of_ascii c in
  (((48 <=? n) && (n <=? 57)) || ((65 <=? n) && (n <=? 90))
   || ((97 <=? n) && (n <=? 122)) || (n =? 95))%nat.

(** [toLowerCase] on code units below 256: A-Z and the Latin-1 capitals. *)
Definition lower_char (c : ascii) : ascii :=
  let n := nat_of_ascii c in
  if (((65 <=? n) && (n <=? 90))
      || ((192 <=? n) && (n <=? 222) && negb (n =? 215)))%nat
  then ascii_of_nat (n + 32) else c.

Fixpoint toLowerCase (s : string) : string :=
  match s with
  | EmptyString => EmptyString
  | String c r => String (lower_char c) (toLowerCase r)
  end.

Definition startsWith (s p : string) : bool := String.prefix p s.

(** [s.slice(n)] for [0 <= n]. *)
Fixpoint slice (n : nat) (s : string) : string :=
  match n, s with
  | O, _ => s
  | S n', String _ r => slice n' r
  | S _, EmptyString => EmptyString
  end.

(** [s.includes(p)]. *)
Fixpoint includes (s p : string) : bool :=
  String.prefix p s
  || match s with
     | EmptyString => false
     | String _ r => includes r p
     end.

(** [s.split(sep)] for a one-character separator: never the empty list. *)
Fixpoint split (sep : ascii) (s : string) : list string :=
  match s with
  | EmptyString => [EmptyString]
  | String c r =>
      if Ascii.eqb c sep then EmptyString :: split sep r
      else match split sep r with
           | h :: t => String c h :: t
           | [] => [String c EmptyString]
           end
  end.

(** [lines.pop() || ''] after a split: the segment after the last
    separator. *)
Definition lastSegment (sep : ascii) (s : string) : string :=
  or_default (last (split sep s)) EmptyString.

(** [a.join(sep)]. *)
Fixpoint join (sep : string) (l : list string) : string :=
  match l with
  | [] => EmptyString
  | [x] => x
  | x :: t => x +:+ sep +:+ join sep t
  end.

(** [s.substring(0, n)]. *)
Fixpoint substringTo (n : nat) (s : string) : string :=
  match n, s with
  | S n', String c r => String c (substringTo n' r)
  | _, _ => EmptyString
  end.

(** [String(n)] for a non-negative integer. *)
Definition of_nat (n : nat) : string :=
  NilEmpty.string_of_uint (Nat.to_uint n).

End Js.

(** ** An insertion-ordered [Map<string, V>] *)

Module JsMap.
Section Ops.
Context {V : Type}.

Definition t : Type := list (string * V).

Fixpoint get (k : string) (m : t) : option V :=
  match m with
  | [] => None
  | (k', v) :: r => if String.eqb k k' then Some v else get k r
  end.

Definition has (k : string) (m : t) : bool :=
  match get k m with Some _ => true | None => false end.

(** [set] keeps the position of a key that is already present. *)
Fixpoint set (k : string) (v : V) (m : t) : t :=
  match m with
  | [] => [(k, v)]
  | (k', v') :: r =>
      if String.eqb k k' then (k, v) :: r else (k', v') :: set k v r
  end.

Fixpoint delete (k : string) (m : t) : t :=
  match m with
  | [] => []
  | (k', v') :: r =>
      if String.eqb k k' then r else (k', v') :: delete k r
  end.

Definition keys (m : t) : list string := map fst m.
End Ops.
Arguments t V : clear implicits.
End JsMap.

(** ** The normalized data model ([types.ts]) *)

(** A JavaScript number that is only carried around (temperature, top-p):
    [mantissa * 10 ^ exponent]. *)
Record Decimal : Type := mkDecimal { mantissa : Z; exponent : Z }.

Record GenerationOptions : Type := mkGenerationOptions {
  opt_model : option string;
  opt_temperature : option Decimal;
  opt_maxTokens : option nat;
  opt_topP : option Decimal;
  opt_stream : option bool;
  opt_stopSequences : option (list string)
}.

Record TokenUsage : Type := mkTokenUsage {
  tok_prompt : nat;
  tok_completion : nat;
  tok_total : nat
}.

(** The metadata object [parseResponse] builds: [{request_id, code}]. *)
Record ResponseMetadata : Type := mkResponseMetadata {
  meta_request_id : option string;
  meta_code : option string
}.

Record LLMResponse : Type := mkLLMResponse {
  content : string;
  provider : string;
  model : string;
  tokensUsed : option TokenUsage;
  finishReason : option string;
  metadata : option ResponseMetadata
}.

Record CodeContext : Type := mkCodeContext {
  filePath : option string;
  language : option string;
  existingCode : option string;
  projectStructure : option (list string);
  requirements : option string
}.

Inductive Operation : Type := create | modify | delete_.

Record FileChange : Type := mkFileChange {
  path : string;
  operation : Operation;
  fc_content : string;
  diff : option string
}.

Record CodeGenerationResult : Type := mkCodeGenerationResult {
  code : string;
  explanation : option string;
  changes : option (list FileChange);
  response : LLMResponse
}.

Record ProviderConfig : Type := mkProviderConfig {
  apiKey : string;
  baseUrl : option string;
  timeout : option nat;
  maxRetries : option nat;
  customHeaders : option (list (string * string))
}.

Record MultiProviderConfig : Type := mkMultiProviderConfig {
  providers : gmap string ProviderConfig;
  defaultProvider : option string;
  defaultModel : option string
}.

(** The synchronous part of the [LLMProvider] interface: what the registry
    and the resolver call on any provider. *)
Class LLMProvider (P : Type) : Type := {
  getName : P -> string;
  getSupportedModels : P -> list string;
  validateConfig : P -> ProviderConfig -> bool;
  isAvailable : P -> bool
}.

(** ** [ProviderRegistry] ([src/providers/index.ts]) *)

Module ProviderRegistry.
Section Registry.
Context {P : Type} `{LLMProvider P}.

Record t : Type := mk {
  reg_providers : JsMap.t P;
  modelToProvider : gmap string string;
  defaultProviderName : option string
}.

(** [new ProviderRegistry()]. *)
Definition empty : t := mk [] ∅ None.

(** The guard [!name || name.trim().length === 0] of [register]. *)
Definition blank (name : string) : bool :=
  negb (Js.nonempty name) || (String.length (Js.trim name) =? 0)%nat.

Definition register (provider : option P) (name : string) (r : t)
  : Completion t :=
  match provider with
  | None => Throw (Error "Provider cannot be null or undefined")
  | Some p =>
      if blank name then Throw (Error "Provider name cannot be empty")
      else
        Return (mk (JsMap.set name p (reg_providers r))
                   (foldl (fun idx model => <[model := name]> idx)
                          (modelToProvider r) (getSupportedModels p))
                   (defaultProviderName r))
  end.

Definition get (name : string) (r : t) : option P :=
  JsMap.get name (reg_providers r).

Definition getByModel (modelId : string) (r : t) : option P :=
  match modelToProvider r !! modelId with
  | Some providerName =>
      if Js.nonempty providerName
      then JsMap.get providerName (reg_providers r)
      else None
  | None => None
  end.

Definition list (r : t) : Datatypes.list string :=
  JsMap.keys (reg_providers r).

Definition getDefault (r : t) : option P :=
  match defaultProviderName r with
  | Some name =>
      if Js.nonempty name then JsMap.get name (reg_providers r) else None
  | None => None
  end.

Definition has (name : string) (r : t) : bool :=
  JsMap.has name (reg_providers r).

Definition setDefault (name : string) (r : t) : Completion t :=
  if negb (has name r)
  then Throw (Error ("Provider " +:+ Js.dquote +:+ name +:+ Js.dquote
                       +:+ " is not registered"))
  else Return (mk (reg_providers r) (modelToProvider r) (Some name)).

Definition unregister (name : string) (r : t) : bool * t :=
  match JsMap.get name (reg_providers r) with
  | None => (false, r)
  | Some p =>
      (true,
       mk (JsMap.delete name (reg_providers r))
          (foldl (fun idx model =>
                    if bool_decide (idx !! model = Some name)
                    then base.delete model idx else idx)
                 (modelToProvider r) (getSupportedModels p))
          (if bool_decide (defaultProviderName r = Some name)
           then None else defaultProviderName r))
  end.

Definition clear (_ : t) : t := mk [] ∅ None.

(** The mutating calls a client can make, and the registry after a sequence
    of them; a call that throws does so before it changes anything. *)
Inductive Op : Type :=
  | OpRegister (provider : option P) (name : string)
  | OpUnregister (name : string)
  | OpSetDefault (name : string)
  | OpClear.

Definition step (r : t) (op : Op) : t :=
  match op with
  | OpRegister p name =>
      match register p name r with Return r' => r' | Throw _ => r end
  | OpUnregister name => snd (unregister name r)
  | OpSetDefault name =>
      match setDefault name r with Return r' => r' | Throw _ => r end
  | OpClear => clear r
  end.

Definition run (ops : Datatypes.list Op) (r : t) : t := foldl step r ops.

(** The invariant of the default pointer: when set, it names a registered
    provider. *)
Definition default_registered (r : t) : Prop :=
  ∀ name, defaultProviderName r = Some name → has name r = true.

End Registry.
Arguments t P : clear implicits.
Arguments Op P : clear implicits.
End ProviderRegistry.

(** The key pattern [/^[a-zA-Z0-9_-]+$/] shared by [ConfigManager] and
    [QwenProvider]. *)
Definition is_key_char (c : ascii) : bool :=
  let n := nat_of_ascii c in
  (((48 <=? n) && (n <=? 57)) || ((65 <=? n) && (n <=? 90))
   || ((97 <=? n) && (n <=? 122)) || (n =? 95) || (n =? 45))%nat.

Fixpoint all_key_chars (s : string) : bool :=
  match s with
  | EmptyString => true
  | String c r => is_key_char c && all_key_chars r
  end.

Definition keyPattern_test (key : string) : bool :=
  Js.nonempty key && all_key_chars key.

(** ** [ConfigManager] ([src/config/ConfigManager.ts]) *)

Module ConfigManager.

(** The configuration file at [configPath], as [fs] presents it: absent,
    present but failing to be read, or present with a text; [writeError] is
    the message of the error a write would raise, if any. *)
Inductive FileState : Type :=
  | Missing
  | Unreadable (error : Thrown)
  | Contents (text : string).

Record FileSystem : Type := mkFileSystem {
  file : FileState;
  writeError : option string
}.

(** The value [JSON.parse] returns, read through the cast
    [MultiProviderConfig | OldConfig]: an optional field is [Some] exactly
    when the key is [in] the object.  A value that is not an object makes the
    [in] operator throw. *)
Record ParsedObject : Type := mkParsedObject {
  doc_apiKey : option string;
  doc_providers : option (gmap string ProviderConfig);
  doc_defaultProvider : option string;
  doc_defaultModel : option string
}.

Inductive Parsed : Type :=
  | ParsedPrimitive
  | ParsedObj (o : ParsedObject).

Record t : Type := mk {
  config : MultiProviderConfig;
  configPath : string
}.

Definition emptyConfig : MultiProviderConfig :=
  mkMultiProviderConfig ∅ None None.

(** The object literal [{ apiKey: key }]. *)
Definition keyOnly (key : string) : ProviderConfig :=
  mkProviderConfig key None None None None.

Section Manager.
(** [JSON.parse] (it throws on a text that is not JSON), [JSON.stringify]
    with its two-space indentation, and the default path [CONFIG_FILE]. *)
Variable JSON_parse : string -> Completion Parsed.
Variable JSON_stringify : MultiProviderConfig -> string.
Variable CONFIG_FILE : string.

Definition saveConfig (config : MultiProviderConfig) (fs : FileSystem)
  : Completion FileSystem :=
  match writeError fs with
  | None => Return (mkFileSystem (Contents (JSON_stringify config)) None)
  | Some msg => Throw (Error ("Failed to save configuration: " +:+ msg))
  end.

Definition migrateOldConfig (oldConfig : ParsedObject) (fs : FileSystem)
  : Completion (MultiProviderConfig * FileSystem) :=
  match doc_apiKey oldConfig with
  | Some (String c k) =>
      let newConfig :=
        mkMultiProviderConfig
          {[ "qwen" := keyOnly (String c k) ]}
          (Some "qwen")
          (if Js.truthy (doc_defaultModel oldConfig)
           then doc_defaultModel oldConfig else None) in
      fs' ← saveConfig newConfig fs;
      Return (newConfig, fs')
  | _ => Return (emptyConfig, fs)
  end.

(** The body of the [try] block of [loadConfig]. *)
Definition loadConfig_try (fs : FileSystem)
  : Completion (MultiProviderConfig * FileSystem) :=
  match file fs with
  | Missing => Return (emptyConfig, fs)
  | Unreadable error => Throw error
  | Contents fileContent =>
      match JSON_parse fileContent with
      | Throw error => Throw error
      | Return ParsedPrimitive =>
          Throw (JsError "TypeError" "Cannot use 'in' operator")
      | Return (ParsedObj parsed) =>
          if bool_decide (is_Some (doc_apiKey parsed))
             && negb (bool_decide (is_Some (doc_providers parsed)))
          then migrateOldConfig parsed fs
          else
            match doc_providers parsed with
            | None => Return (emptyConfig, fs)
            | Some ps =>
                Return (mkMultiProviderConfig ps (doc_defaultProvider parsed)
                                              (doc_defaultModel parsed), fs)
            end
      end
  end.

(** [loadConfig]: any exception of the body yields the empty
    configuration; a failed write has not changed the file. *)
Definition loadConfig (fs : FileSystem) : MultiProviderConfig * FileSystem :=
  match loadConfig_try fs with
  | Return r => r
  | Throw _ => (emptyConfig, fs)
  end.

(** [new ConfigManager(configPath)]. *)
Definition new (path : option string) (fs : FileSystem) : t * FileSystem :=
  let '(c, fs') := loadConfig fs in
  (mk c (Js.or_default path CONFIG_FILE), fs').

Definition getProviderKey (provider : string) (m : t) : option string :=
  apiKey <$> (providers (config m) !! provider).

(** [setProviderKey] updates the configuration in memory and then saves it:
    the new manager state stands even when the save throws. *)
Definition setProviderKey (provider key : string) (m : t) (fs : FileSystem)
  : t * Completion FileSystem :=
  let c := config m in
  let ps :=
    match providers c !! provider with
    | None => <[provider := keyOnly key]> (providers c)
    | Some pc =>
        <[provider := mkProviderConfig key (baseUrl pc) (timeout pc)
                        (maxRetries pc) (customHeaders pc)]> (providers c)
    end in
  let c' := mkMultiProviderConfig ps (defaultProvider c) (defaultModel c) in
  (mk c' (configPath m), saveConfig c' fs).

Definition getDefaultProvider (m : t) : option string :=
  defaultProvider (config m).

Definition setDefaultProvider (provider : string) (m : t) (fs : FileSystem)
  : Completion (t * Completion FileSystem) :=
  match providers (config m) !! provider with
  | None =>
      Throw (Error ("Provider " +:+ Js.dquote +:+ provider +:+ Js.dquote
                      +:+ " is not configured. Please set its API key first."))
  | Some _ =>
      let c' := mkMultiProviderConfig (providers (config m)) (Some provider)
                                      (defaultModel (config m)) in
      Return (mk c' (configPath m), saveConfig c' fs)
  end.


(** [setProviderConfig] stores the object it is given.  Nothing in the
    repository calls it, so no object is shared between two names and the
    entries are values. *)
Definition setProviderConfig (provider : string) (pc : ProviderConfig)
    (m : t) (fs : FileSystem) : t * Completion FileSystem :=
  let c' := mkMultiProviderConfig (<[provider := pc]> (providers (config m)))
              (defaultProvider (config m)) (defaultModel (config m)) in
  (mk c' (configPath m), saveConfig c' fs).

Definition getDefaultModel (m : t) : option string := defaultModel (config m).

Definition getAllProviders (m : t) : MultiProviderConfig := config m.


Definition removeProvider (provider : string) (m : t) (fs : FileSystem)
  : t * Completion FileSystem :=
  let c := config m in
  let c' := mkMultiProviderConfig (base.delete provider (providers c))
              (if bool_decide (defaultProvider c = Some provider)
               then None else defaultProvider c)
              (defaultModel c) in
  (mk c' (configPath m), saveConfig c' fs).

Definition setDefaultModel (model : string) (m : t) (fs : FileSystem)
  : t * Completion FileSystem :=
  let c' := mkMultiProviderConfig (providers (config m))
              (defaultProvider (config m)) (Some model) in
  (mk c' (configPath m), saveConfig c' fs).

(** The mutating calls of a client.  A call whose save throws has changed
    the manager and not the file; [setDefaultProvider] on a name without an
    entry throws before it changes anything. *)
Inductive Op : Type :=
  | OpSetProviderKey (provider key : string)
  | OpSetDefaultProvider (provider : string)
  | OpSetProviderConfig (provider : string) (pc : ProviderConfig)
  | OpSetDefaultModel (model : string)
  | OpRemoveProvider (provider : string).

Definition settle (fs : FileSystem) (r : t * Completion FileSystem)
  : t * FileSystem :=
  match r.2 with
  | Return fs' => (r.1, fs')
  | Throw _ => (r.1, fs)
  end.

Definition step (s : t * FileSystem) (op : Op) : t * FileSystem :=
  match op with
  | OpSetProviderKey provider key =>
      settle s.2 (setProviderKey provider key s.1 s.2)
  | OpSetDefaultProvider provider =>
      match setDefaultProvider provider s.1 s.2 with
      | Return r => settle s.2 r
      | Throw _ => s
      end
  | OpSetProviderConfig provider pc =>
      settle s.2 (setProviderConfig provider pc s.1 s.2)
  | OpSetDefaultModel model => settle s.2 (setDefaultModel model s.1 s.2)
  | OpRemoveProvider provider => settle s.2 (removeProvider provider s.1 s.2)
  end.

Definition run (ops : list Op) (s : t * FileSystem) : t * FileSystem :=
  foldl step s ops.

End Manager.


(** [validateProviderKey] reads no state of the manager. *)
Definition validateProviderKey (provider key : string) : bool :=
  if negb (Js.nonempty key) || (String.length (Js.trim key) =? 0)%nat
  then false
  else
    let p := Js.toLowerCase provider in
    if String.eqb p "qwen" then keyPattern_test key
    else if String.eqb p "openai"
    then Js.startsWith key "sk-" && (10 <? String.length key)%nat
    else if String.eqb p "anthropic"
    then Js.startsWith key "sk-ant-" && (15 <? String.length key)%nat
    else (5 <? String.length key)%nat.

End ConfigManager.

(** ** The provider classes: construction and the synchronous methods *)

(** The check all three [validateConfig] methods start with. *)
Definition missingKey (config : ProviderConfig) : bool :=
  negb (Js.nonempty (apiKey config))
  || (String.length (Js.trim (apiKey config)) =? 0)%nat.

Module OpenAIProvider.

Record t : Type := mk { config : ProviderConfig }.

Definition new (config : ProviderConfig) : t := mk config.

Definition supportedModels : list string :=
  ["gpt-4o"; "gpt-4-turbo"; "gpt-4"; "gpt-3.5-turbo"].

Definition validateConfig (config : ProviderConfig) : bool :=
  if missingKey config then false
  else Js.startsWith (apiKey config) "sk-"
       && (10 <? String.length (apiKey config))%nat.

(** The skeleton [sendMessage]: it throws whatever it is given. *)
Definition sendMessage (p : t) (prompt : string) (options : GenerationOptions)
  : Completion LLMResponse :=
  Throw (LLMErr (ProviderError
                   "OpenAI provider is not yet fully implemented. This is a skeleton."
                   "openai" "NOT_IMPLEMENTED" None)).

End OpenAIProvider.

Module AnthropicProvider.

Record t : Type := mk { config : ProviderConfig }.

Definition new (config : ProviderConfig) : t := mk config.

Definition supportedModels : list string :=
  ["claude-3-opus"; "claude-3-5-sonnet"; "claude-3-sonnet"; "claude-3-haiku"].

Definition validateConfig (config : ProviderConfig) : bool :=
  if missingKey config then false
  else Js.startsWith (apiKey config) "sk-ant-"
       && (15 <? String.length (apiKey config))%nat.

(** The skeleton [sendMessage]: it throws whatever it is given. *)
Definition sendMessage (p : t) (prompt : string) (options : GenerationOptions)
  : Completion LLMResponse :=
  Throw (LLMErr (ProviderError
                   "Anthropic provider is not yet fully implemented. This is a skeleton."
                   "anthropic" "NOT_IMPLEMENTED" None)).

End AnthropicProvider.

#[global] Instance OpenAIProvider_LLMProvider : LLMProvider OpenAIProvider.t := {
  getName _ := "openai";
  getSupportedModels _ := OpenAIProvider.supportedModels;
  validateConfig _ := OpenAIProvider.validateConfig;
  isAvailable p := OpenAIProvider.validateConfig (OpenAIProvider.config p)
}.

#[global] Instance AnthropicProvider_LLMProvider
  : LLMProvider AnthropicProvider.t := {
  getName _ := "anthropic";
  getSupportedModels _ := AnthropicProvider.supportedModels;
  validateConfig _ := AnthropicProvider.validateConfig;
  isAvailable p := AnthropicProvider.validateConfig (AnthropicProvider.config p)
}.

(** ** [QwenProvider] ([src/providers/qwen/QwenProvider.ts]) *)

Module QwenProvider.

Record Message : Type := mkMessage { msg_content : option string }.

Record Choice : Type := mkChoice {
  message : option Message;
  finish_reason : option string
}.

Record Usage : Type := mkUsage {
  input_tokens : option nat;
  output_tokens : option nat;
  total_tokens : option nat
}.

Record Output : Type := mkOutput {
  choices : option (list Choice);
  usage : option Usage
}.

Record DashScopeResponse : Type := mkDashScopeResponse {
  output : option Output;
  ds_code : option string;
  ds_message : option string;
  request_id : option string
}.

Record RequestParameters : Type := mkRequestParameters {
  temperature : option Decimal;
  max_tokens : option nat;
  top_p : option Decimal;
  stop : option (list string)
}.

Record RequestMessage : Type := mkRequestMessage {
  role : string;
  rm_content : string
}.

(** [{ model, input: { messages }, parameters? }]. *)
Record DashScopeRequest : Type := mkDashScopeRequest {
  req_model : string;
  input_messages : list RequestMessage;
  parameters : option RequestParameters
}.

(** What the provider reads of a fetch [Response]: the status, the result of
    [json()], and the body as the results of the successive [read()] calls of
    its reader, decoded to text ([None]: the body is [null]). *)
Record Response : Type := mkResponse {
  status : nat;
  json : Completion DashScopeResponse;
  body : option (list (Completion string))
}.

Definition ok (r : Response) : bool :=
  ((200 <=? status r) && (status r <=? 299))%nat.

Record t : Type := mk {
  config : ProviderConfig;
  baseUrl_ : string
}.

Definition DEFAULT_BASE_URL : string :=
  "https://dashscope.aliyuncs.com/api/v1/services/aigc/text-generation/generation".

Definition new (config : ProviderConfig) : t :=
  mk config (Js.or_default (baseUrl config) DEFAULT_BASE_URL).

Definition getName : string := "qwen".

Definition supportedModels : list string :=
  ["qwen-turbo"; "qwen-plus"; "qwen-max"; "qwen-max-longcontext"].

Definition validateConfig (config : ProviderConfig) : bool :=
  if missingKey config then false else keyPattern_test (apiKey config).

(** [authenticate]: [Headers.set] stores names in lower case. *)
Definition authenticate (p : t) : JsMap.t string :=
  let headers :=
    JsMap.set "content-type" "application/json"
      (JsMap.set "authorization" ("Bearer " +:+ apiKey (config p)) []) in
  match customHeaders (config p) with
  | Some hs =>
      foldl (fun h kv => JsMap.set (Js.toLowerCase (fst kv)) (snd kv) h)
            headers hs
  | None => headers
  end.

Definition formatRequest (prompt : string) (options : GenerationOptions)
  : DashScopeRequest :=
  mkDashScopeRequest
    (Js.or_default (opt_model options) "qwen-turbo")
    [mkRequestMessage "user" prompt]
    (if bool_decide (is_Some (opt_temperature options))
        || bool_decide (is_Some (opt_maxTokens options))
        || bool_decide (is_Some (opt_topP options))
        || bool_decide (is_Some (opt_stopSequences options))
     then Some (mkRequestParameters
                  (opt_temperature options)
                  (opt_maxTokens options)
                  (opt_topP options)
                  (match opt_stopSequences options with
                   | Some (x :: l) => Some (x :: l)
                   | _ => None
                   end))
     else None).

Definition parseResponse (response : DashScopeResponse) (model : string)
  : Completion LLMResponse :=
  let choices_ :=
    match output response with
    | Some o => match choices o with Some cs => cs | None => [] end
    | None => []
    end in
  match choices_ with
  | {| message := Some m; finish_reason := fr |} :: _ =>
      Return (mkLLMResponse
                (Js.or_default (msg_content m) "")
                getName
                model
                (match output response with
                 | Some {| usage := Some u |} =>
                     Some (mkTokenUsage (default 0 (input_tokens u))
                                        (default 0 (output_tokens u))
                                        (default 0 (total_tokens u)))
                 | _ => None
                 end)
                fr
                (Some (mkResponseMetadata (request_id response)
                                          (ds_code response))))
  | _ =>
      Throw (LLMErr (ProviderError "Invalid response format from DashScope API"
                                   getName "INVALID_RESPONSE" None))
  end.

Definition handleError (error : Thrown) : LLMError :=
  match error with
  | LLMErr e => e
  | JsError _ msg =>
      if Js.includes msg "fetch" || Js.includes msg "network"
      then NetworkError ("Network error: " +:+ msg) getName None
      else ProviderError msg getName "UNKNOWN_ERROR" None
  | JsOther => ProviderError "Unknown error occurred" getName "UNKNOWN_ERROR" None
  end.

(** [handleHttpError]: the [switch] on the status of a response that is not
    [ok]; the error data read from the body goes to the metadata only. *)
Definition handleHttpError (status : nat) : LLMError :=
  if ((status =? 401) || (status =? 403))%nat then
    AuthenticationError "Invalid or missing API key" getName (Some status)
  else if (status =? 429)%nat then
    RateLimitError "Rate limit exceeded" getName (Some status)
  else if (status =? 400)%nat then
    ValidationError "Invalid request parameters" getName (Some status)
  else if ((status =? 500) || (status =? 502) || (status =? 503)
           || (status =? 504))%nat then
    NetworkError ("Server error: " +:+ Js.of_nat status) getName (Some status)
  else
    ProviderError ("HTTP error: " +:+ Js.of_nat status) getName
                  ("HTTP_" +:+ Js.of_nat status) (Some status).

Section Network.
(** [fetch(url, { method: 'POST', headers, body })] under the abort timer:
    a response, or a thrown error (an [AbortError] when the timer fired);
    and [JSON.parse] on one stream payload. *)
Variable fetch : string -> JsMap.t string -> DashScopeRequest
                 -> Completion Response.
Variable JSON_parse : string -> Completion DashScopeResponse.

Definition makeRequest (p : t) (request : DashScopeRequest) (stream : bool)
  : Completion Response :=
  let headers := authenticate p in
  let headers :=
    if stream then JsMap.set "accept" "text/event-stream" headers
    else headers in
  match fetch (baseUrl_ p) headers request with
  | Return response => Return response
  | Throw (JsError name msg) =>
      if String.eqb name "AbortError"
      then Throw (LLMErr (NetworkError "Request timeout" getName None))
      else Throw (JsError name msg)
  | Throw error => Throw error
  end.

(** [try { ... } catch (error) { throw this.handleError(error) }]. *)
Definition normalized {A : Type} (c : Completion A) : Completion A :=
  match c with
  | Return a => Return a
  | Throw error => Throw (LLMErr (handleError error))
  end.

Definition sendMessage (p : t) (prompt : string) (options : GenerationOptions)
  : Completion LLMResponse :=
  normalized (
    let request := formatRequest prompt options in
    response ← makeRequest p request false;
    if negb (ok response)
    then Throw (LLMErr (handleHttpError (status response)))
    else
      data ← json response;
      parseResponse data (Js.or_default (opt_model options) "qwen-turbo")).

(** One pass of the inner [for] loop of [streamResponse] over the complete
    lines of the buffer: the responses yielded, and whether the generator
    returned on the end sentinel. *)
Fixpoint processLines (model : string) (lines : list string)
  : list LLMResponse * bool :=
  match lines with
  | [] => ([], false)
  | line :: rest =>
      if String.eqb (Js.trim line) "" || negb (Js.startsWith line "data: ")
      then processLines model rest
      else
        let data := Js.slice 6 line in
        if String.eqb data "[DONE]" then ([], true)
        else
          match parsed ← JSON_parse data; parseResponse parsed model with
          | Return r =>
              let '(ys, stop) := processLines model rest in (r :: ys, stop)
          | Throw _ => processLines model rest
          end
  end.

(** The [while (true)] loop over [reader.read()]: the responses yielded and
    how the generator ends. *)
Fixpoint readLoop (model : string) (reads : list (Completion string))
    (buffer : string) : list LLMResponse * Completion unit :=
  match reads with
  | [] => ([], Return tt)
  | Throw error :: _ => ([], Throw error)
  | Return value :: rest =>
      let buffer := buffer +:+ value in
      let lines := Js.split Js.newline buffer in
      let buffer := Js.or_default (last lines) "" in
      let lines := removelast lines in
      match processLines model lines with
      | (ys, true) => (ys, Return tt)
      | (ys, false) =>
          let '(zs, e) := readLoop model rest buffer in (ys ++ zs, e)
      end
  end.

(** [{ ...options, stream: true }]. *)
Definition withStream (options : GenerationOptions) : GenerationOptions :=
  mkGenerationOptions (opt_model options) (opt_temperature options)
    (opt_maxTokens options) (opt_topP options) (Some true)
    (opt_stopSequences options).

(** [streamResponse] as the list of values the generator yields when it is
    run to its end, and its completion. *)
Definition streamResponse (p : t) (prompt : string)
    (options : GenerationOptions) : list LLMResponse * Completion unit :=
  let request := formatRequest prompt (withStream options) in
  match makeRequest p request true with
  | Throw error => ([], Throw (LLMErr (handleError error)))
  | Return response =>
      if negb (ok response)
      then ([], Throw (LLMErr (handleError
                         (LLMErr (handleHttpError (status response))))))
      else
        match body response with
        | None =>
            ([], Throw (LLMErr (handleError (LLMErr
                   (NetworkError "Response body is null" getName None)))))
        | Some reads =>
            let '(ys, e) :=
              readLoop (Js.or_default (opt_model options) "qwen-turbo")
                       reads "" in
            (ys, normalized e)
        end
  end.

(** The regular expression of [extractCodeFromResponse], three backticks,
    an optional run of word characters, a line feed, a lazy capture and
    three backticks again, matched at the start of [s]: the capture. *)
Fixpoint skipWord (s : string) : string :=
  match s with
  | String c r => if Js.is_word c then skipWord r else s
  | EmptyString => s
  end.

Fixpoint untilFence (s : string) : option string :=
  if String.prefix Js.fence s then Some EmptyString
  else match s with
       | EmptyString => None
       | String c r => String c <$> untilFence r
       end.

Definition matchAt (s : string) : option string :=
  if String.prefix Js.fence s then
    match skipWord (Js.slice 3 s) with
    | String c r => if Ascii.eqb c Js.newline then untilFence r else None
    | EmptyString => None
    end
  else None.

(** [Array.from(content.matchAll(codeBlockRegex))[0][1]], if any. *)
Fixpoint firstMatch (s : string) : option string :=
  match matchAt s with
  | Some block => Some block
  | None =>
      match s with
      | EmptyString => None
      | String _ r => firstMatch r
      end
  end.

(** The line scan of the [if (language)] branch. *)
Fixpoint scanLines (inCode : bool) (lines : list string) : list string :=
  match lines with
  | [] => []
  | line :: rest =>
      if Js.startsWith (Js.trim line) Js.fence
      then scanLines (negb inCode) rest
      else if inCode then line :: scanLines inCode rest
           else scanLines inCode rest
  end.

Definition extractCodeFromResponse (content : string)
    (language : option string) : string :=
  match firstMatch content with
  | Some block => Js.trim block
  | None =>
      let codeLines :=
        if Js.truthy language
        then scanLines false (Js.split Js.newline content)
        else [] in
      match codeLines with
      | _ :: _ => Js.trim (Js.join Js.nl codeLines)
      | [] => Js.trim content
      end
  end.

(** The prompt [generateCode] sends. *)
Definition enhancedPrompt (prompt : string) (context : CodeContext) : string :=
  let p := prompt in
  let p :=
    match filePath context with
    | Some (String c r) => "File: " +:+ String c r +:+ Js.nl +:+ Js.nl +:+ p
    | _ => p
    end in
  let p :=
    match language context with
    | Some (String c r) =>
        "Language: " +:+ String c r +:+ Js.nl +:+ Js.nl +:+ p
    | _ => p
    end in
  let p :=
    match existingCode context with
    | Some (String c r) =>
        "Existing code:" +:+ Js.nl +:+ Js.fence
        +:+ Js.or_default (language context) "" +:+ Js.nl
        +:+ String c r +:+ Js.nl +:+ Js.fence +:+ Js.nl +:+ Js.nl +:+ p
    | _ => p
    end in
  match requirements context with
  | Some (String c r) =>
      "Requirements: " +:+ String c r +:+ Js.nl +:+ Js.nl +:+ p
  | _ => p
  end.

(** [{ model: 'qwen-turbo', temperature: 0.2 }]. *)
Definition codeGenerationOptions : GenerationOptions :=
  mkGenerationOptions (Some "qwen-turbo") (Some (mkDecimal 2 (-1)))
                      None None None None.

Definition generateCode (p : t) (prompt : string) (context : CodeContext)
  : Completion CodeGenerationResult :=
  normalized (
    response ← sendMessage p (enhancedPrompt prompt context)
                           codeGenerationOptions;
    let code := extractCodeFromResponse (content response)
                                        (language context) in
    Return (mkCodeGenerationResult
              code
              None
              (match filePath context with
               | Some (String c r) =>
                   Some [mkFileChange (String c r)
                           (if Js.truthy (existingCode context)
                            then modify else create)
                           code None]
               | _ => None
               end)
              response)).

End Network.

End QwenProvider.

#[global] Instance QwenProvider_LLMProvider : LLMProvider QwenProvider.t := {
  getName _ := QwenProvider.getName;
  getSupportedModels _ := QwenProvider.supportedModels;
  validateConfig _ := QwenProvider.validateConfig;
  isAvailable p := QwenProvider.validateConfig (QwenProvider.config p)
}.

(** ** What the stream is specified to yield

    Definitions after the words of the specification, to compare
    [streamResponse] and [extractCodeFromResponse] with. *)

Module StreamSpec.
Section Spec.
Variable JSON_parse : string → Completion QwenProvider.DashScopeResponse.

(** The text received: all chunks in order. *)
Definition received (chunks : list string) : string :=
  foldr String.append EmptyString chunks.

(** The lines that have been terminated by a line feed. *)
Definition completeLines (text : string) : list string :=
  removelast (Js.split Js.newline text).

(** A data line is a non-blank line that starts with [data: ]; its payload
    is what follows. *)
Definition isDataLine (line : string) : bool :=
  negb (String.eqb (Js.trim line) EmptyString)
  && Js.startsWith line "data: ".

Definition payloads (lines : list string) : list string :=
  Js.slice 6 <$> filter (fun line => isDataLine line = true) lines.

(** The payloads before the end sentinel. *)
Fixpoint beforeDone (ds : list string) : list string :=
  match ds with
  | [] => []
  | d :: rest => if String.eqb d "[DONE]" then [] else d :: beforeDone rest
  end.

(** A payload is well formed when it parses and holds a first choice with a
    message; its normalized response. *)
Definition wellFormed (model : string) (d : string) : option LLMResponse :=
  match parsed ← JSON_parse d; QwenProvider.parseResponse parsed model with
  | Return r => Some r
  | Throw _ => None
  end.

Definition expectedYields (model : string) (chunks : list string)
  : list LLMResponse :=
  omap (wellFormed model)
       (beforeDone (payloads (completeLines (received chunks)))).

End Spec.
End StreamSpec.

(** A fenced block in the sense of the regular expression of
    [extractCodeFromResponse]. *)
Module FenceSpec.

Fixpoint all_word (w : string) : bool :=
  match w with
  | EmptyString => true
  | String c r => Js.is_word c && all_word r
  end.

(** The capture [b] is lazy: no fence starts inside it. *)
Definition lazy_capture (b rest : string) : Prop :=
  ∀ b1 b2, b = b1 +:+ b2 → b2 ≠ EmptyString →
           String.prefix Js.fence (b2 +:+ Js.fence +:+ rest) = false.

(** [s] starts with a block: a fence, word characters, a line feed, the
    capture [b], and the next fence. *)
Definition fenced_at (s b : string) : Prop :=
  ∃ w rest,
    s = Js.fence +:+ w +:+ Js.nl +:+ b +:+ Js.fence +:+ rest
    ∧ all_word w = true
    ∧ lazy_capture b rest.

(** [b] is the capture of the leftmost block of [s]. *)
Definition first_fenced (s b : string) : Prop :=
  ∃ pre suf,
    s = pre +:+ suf
    ∧ fenced_at suf b
    ∧ ∀ p1 p2, pre = p1 +:+ p2 → p2 ≠ EmptyString →
               ∀ b', ¬ fenced_at (p2 +:+ suf) b'.

Definition no_fenced (s : string) : Prop :=
  ∀ pre suf b, s = pre +:+ suf → ¬ fenced_at suf b.

End FenceSpec.

(** ** The resolver ([src/providers/resolver.ts]) *)

(** The provider objects the resolver creates. *)
Inductive Provider : Type :=
  | Qwen (p : QwenProvider.t)
  | OpenAI (p : OpenAIProvider.t)
  | Anthropic (p : AnthropicProvider.t).

#[global] Instance Provider_LLMProvider : LLMProvider Provider := {
  getName p :=
    match p with
    | Qwen q => getName q
    | OpenAI o => getName o
    | Anthropic a => getName a
    end;
  getSupportedModels p :=
    match p with
    | Qwen q => getSupportedModels q
    | OpenAI o => getSupportedModels o
    | Anthropic a => getSupportedModels a
    end;
  validateConfig p :=
    match p with
    | Qwen q => validateConfig q
    | OpenAI o => validateConfig o
    | Anthropic a => validateConfig a
    end;
  isAvailable p :=
    match p with
    | Qwen q => isAvailable q
    | OpenAI o => isAvailable o
    | Anthropic a => isAvailable a
    end
}.

Module Resolver.

Abbreviation Registry := (ProviderRegistry.t Provider).

(** The table [MODEL_TO_PROVIDER], looked up on its own keys. *)
Definition MODEL_TO_PROVIDER : gmap string string :=
  list_to_map
    [ ("qwen-turbo", "qwen"); ("qwen-plus", "qwen"); ("qwen-max", "qwen");
      ("qwen-max-longcontext", "qwen");
      ("gpt-4o", "openai"); ("gpt-4-turbo", "openai"); ("gpt-4", "openai");
      ("gpt-3.5-turbo", "openai");
      ("claude-3-opus", "anthropic"); ("claude-3-sonnet", "anthropic");
      ("claude-3-haiku", "anthropic"); ("claude-3-5-sonnet", "anthropic") ].

Definition resolveProviderName (modelOrProvider : option string)
    (providerRegistry : Registry) : option string :=
  match modelOrProvider with
  | Some (String c r) =>
      let hint := String c r in
      if ProviderRegistry.has hint providerRegistry then Some hint
      else
        match MODEL_TO_PROVIDER !! Js.toLowerCase hint with
        | Some provider =>
            if Js.nonempty provider then Some provider else None
        | None => None
        end
  | _ => None
  end.

Definition createProviderInstance (providerName : string)
    (config : ProviderConfig) : Completion Provider :=
  let n := Js.toLowerCase providerName in
  if String.eqb n "qwen" then Return (Qwen (QwenProvider.new config))
  else if String.eqb n "openai" then Return (OpenAI (OpenAIProvider.new config))
  else if String.eqb n "anthropic"
  then Return (Anthropic (AnthropicProvider.new config))
  else Throw (Error ("Unknown provider: " +:+ providerName)).

(** The errors [resolveProvider] throws. *)
Definition unknownModelOrProvider (modelOrProvider : string)
    (providerRegistry : Registry) : Thrown :=
  Error ("Unknown model or provider: " +:+ Js.dquote +:+ modelOrProvider
         +:+ Js.dquote +:+ ". " +:+ "Available providers: "
         +:+ Js.join ", " (ProviderRegistry.list providerRegistry)).

Definition noProviderConfigured : LLMError :=
  AuthenticationError
    "No provider configured. Please set an API key for at least one provider."
    "unknown" None.

Definition apiKeyNotConfigured (providerName : string) : LLMError :=
  AuthenticationError
    ("API key not configured for provider " +:+ Js.dquote +:+ providerName
     +:+ Js.dquote +:+ ". " +:+ "Please set it with: xyzulu config set "
     +:+ providerName +:+ ".apiKey <key>")
    providerName None.

Definition invalidKeyFormat (providerName : string) : LLMError :=
  AuthenticationError
    ("Invalid API key format for provider " +:+ Js.dquote +:+ providerName
     +:+ Js.dquote)
    providerName None.

(** The first half of [resolveProvider]: the three priorities that choose
    the provider name. *)
Definition chooseProviderName (modelOrProvider : option string)
    (effectiveConfig : MultiProviderConfig) (providerRegistry : Registry)
  : Completion string :=
  (* Priority 1: CLI flag *)
  providerName ←
    match modelOrProvider with
    | Some (String c r) =>
        let providerName :=
          resolveProviderName modelOrProvider providerRegistry in
        if negb (Js.truthy providerName)
        then Throw (unknownModelOrProvider (String c r) providerRegistry)
        else Return providerName
    | _ => Return None
    end;
  (* Priority 2: configuration default *)
  let providerName :=
    if negb (Js.truthy providerName)
       && Js.truthy (defaultProvider effectiveConfig)
    then defaultProvider effectiveConfig else providerName in
  (* Priority 3: Qwen fallback *)
  let providerName :=
    if negb (Js.truthy providerName)
       && Js.truthy (apiKey <$> (providers effectiveConfig !! "qwen"))
    then Some "qwen" else providerName in
  match providerName with
  | Some (String c r) => Return (String c r)
  | _ =>
      Throw (LLMErr noProviderConfigured)
  end.

(** The second half: credentials, key format, registry. *)
Definition instantiate (providerName : string)
    (effectiveConfig : MultiProviderConfig) (providerRegistry : Registry)
  : Completion (Provider * Registry) :=
  match providers effectiveConfig !! providerName with
  | Some providerConfig =>
      if negb (Js.nonempty (apiKey providerConfig)) then
        Throw (LLMErr (apiKeyNotConfigured providerName))
      else if negb (ConfigManager.validateProviderKey providerName
                      (apiKey providerConfig)) then
        Throw (LLMErr (invalidKeyFormat providerName))
      else
        match ProviderRegistry.get providerName providerRegistry with
        | Some provider => Return (provider, providerRegistry)
        | None =>
            provider ← createProviderInstance providerName providerConfig;
            registry' ← ProviderRegistry.register (Some provider) providerName
                          providerRegistry;
            Return (provider, registry')
        end
  | None =>
      Throw (LLMErr (apiKeyNotConfigured providerName))
  end.

(** [config || effectiveManager.getAllProviders()]. *)
Definition effectiveConfigOf (config : option MultiProviderConfig)
    (manager : ConfigManager.t) : MultiProviderConfig :=
  match config with
  | Some c => c
  | None => ConfigManager.getAllProviders manager
  end.

(** [resolveProvider(modelOrProvider?, config?, manager)], on the shared
    registry: the provider and the registry afterwards. *)
Definition resolveProvider (modelOrProvider : option string)
    (config : option MultiProviderConfig) (manager : ConfigManager.t)
    (providerRegistry : Registry) : Completion (Provider * Registry) :=
  let effectiveConfig := effectiveConfigOf config manager in
  providerName ←
    chooseProviderName modelOrProvider effectiveConfig providerRegistry;
  instantiate providerName effectiveConfig providerRegistry.

(** A registry filled by the resolver alone: what is registered under a name
    is a provider of the class [createProviderInstance] builds for that
    name. *)
Definition resolver_managed (providerRegistry : Registry) : Prop :=
  ∀ name p, ProviderRegistry.get name providerRegistry = Some p →
            getName p = Js.toLowerCase name.

(** [getProviderByModel(modelId)]: the table is read at the lower-cased
    identifier, the registry index at the identifier as given. *)
Definition getProviderByModel (modelId : string) (providerRegistry : Registry)
  : option Provider :=
  match MODEL_TO_PROVIDER !! Js.toLowerCase modelId with
  | Some providerName =>
      if negb (Js.nonempty providerName) then None
      else
        match ProviderRegistry.getByModel modelId providerRegistry with
        | Some p => Some p
        | None => ProviderRegistry.get providerName providerRegistry
        end
  | None => None
  end.

(** [error instanceof Error && error.message.includes('not yet implemented')]. *)
Definition notYetImplemented (error : Thrown) : bool :=
  match error with
  | JsError _ msg => Js.includes msg "not yet implemented"
  | LLMErr e => Js.includes (err_message e) "not yet implemented"
  | JsOther => false
  end.

Section Startup.
(** [Object.entries] on the [providers] object: its entries in the order of
    the platform. *)
Variable Object_entries
  : gmap string ProviderConfig -> list (string * ProviderConfig).

(** The [for] loop of [registerConfiguredProviders] on the shared registry:
    the registry when the loop ends, and how it ends. *)
Fixpoint registerEntries (entries : list (string * ProviderConfig))
    (providerRegistry : Registry) : Registry * Completion unit :=
  match entries with
  | [] => (providerRegistry, Return tt)
  | (providerName, providerConfig) :: rest =>
      if Js.nonempty (apiKey providerConfig) then
        match provider ← createProviderInstance providerName providerConfig;
              ProviderRegistry.register (Some provider) providerName
                providerRegistry
        with
        | Return registry' => registerEntries rest registry'
        | Throw error =>
            if notYetImplemented error
            then registerEntries rest providerRegistry
            else (providerRegistry, Throw error)
        end
      else registerEntries rest providerRegistry
  end.

(** [providerRegistry.setDefault(name)] as a statement. *)
Definition setDefaultIn (name : string) (providerRegistry : Registry)
  : Registry * Completion unit :=
  match ProviderRegistry.setDefault name providerRegistry with
  | Return registry' => (registry', Return tt)
  | Throw error => (providerRegistry, Throw error)
  end.

Definition registerConfiguredProviders (manager : ConfigManager.t)
    (providerRegistry : Registry) : Registry * Completion unit :=
  let config := ConfigManager.getAllProviders manager in
  match registerEntries (Object_entries (providers config)) providerRegistry
  with
  | (registry', Throw error) => (registry', Throw error)
  | (registry', Return _) =>
      match defaultProvider config with
      | Some (String c d) =>
          if ProviderRegistry.has (String c d) registry'
          then setDefaultIn (String c d) registry'
          else if ProviderRegistry.has "qwen" registry'
          then setDefaultIn "qwen" registry'
          else (registry', Return tt)
      | _ =>
          if ProviderRegistry.has "qwen" registry'
          then setDefaultIn "qwen" registry'
          else (registry', Return tt)
      end
  end.

End Startup.

End Resolver.

(** ** The command line ([src/cli.ts]) *)

Module CLI.

Record CLIOptions : Type := mkCLIOptions {
  model : option string;
  provider : option string;
  command : option string;
  args : list string;
  help : option bool
}.

(** The [for] loop of [parseArgs] from index [i] on, [rest] being
    [args.slice(i)]. *)
Fixpoint parseLoop (rest : list string) (options : CLIOptions)
  : Completion CLIOptions :=
  match rest with
  | [] => Return options
  | arg :: rest' =>
      if String.eqb arg "--model" || String.eqb arg "-m" then
        match rest' with
        | value :: rest'' =>
            parseLoop rest''
              (mkCLIOptions (Some value) (provider options) (command options)
                            (args options) (help options))
        | [] =>
            Throw (Error "--model requires a value (e.g., --model gpt-4o)")
        end
      else if String.eqb arg "--provider" || String.eqb arg "-p" then
        match rest' with
        | value :: rest'' =>
            parseLoop rest''
              (mkCLIOptions (model options) (Some value) (command options)
                            (args options) (help options))
        | [] =>
            Throw (Error
                     "--provider requires a value (e.g., --provider openai)")
        end
      else if String.eqb arg "--help" || String.eqb arg "-h" then
        parseLoop rest'
          (mkCLIOptions (model options) (provider options) (command options)
                        (args options) (Some true))
      else if Js.startsWith arg "--" then
        Throw (Error ("Unknown option: " +:+ arg
                      +:+ ". Use --help for usage information."))
      else if negb (Js.truthy (command options)) then
        parseLoop rest'
          (mkCLIOptions (model options) (provider options) (Some arg)
                        (args options) (help options))
      else
        parseLoop rest'
          (mkCLIOptions (model options) (provider options) (command options)
                        (args options ++ [arg]) (help options))
  end.

Definition parseArgs (argv : option (list string)) : Completion CLIOptions :=
  let args :=
    match argv with
    | Some argv => argv
    | None => []
    end in
  parseLoop args (mkCLIOptions None None None [] None).

Record Validation : Type := mkValidation {
  valid : bool;
  error : option string
}.

(** The table of [validateProviderModel], looked up on its own keys. *)
Definition modelToProvider : gmap string string :=
  list_to_map
    [ ("qwen-turbo", "qwen"); ("qwen-plus", "qwen"); ("qwen-max", "qwen");
      ("gpt-4o", "openai"); ("gpt-4-turbo", "openai"); ("gpt-4", "openai");
      ("claude-3-opus", "anthropic"); ("claude-3-sonnet", "anthropic") ].

Definition validateProviderModel (model provider : option string)
  : Validation :=
  match model, provider with
  | Some (String c m), Some (String d p) =>
      match modelToProvider !! Js.toLowerCase (String c m) with
      | Some expectedProvider =>
          if Js.nonempty expectedProvider
             && negb (String.eqb expectedProvider
                        (Js.toLowerCase (String d p)))
          then mkValidation false
                 (Some ("Model " +:+ Js.dquote +:+ String c m +:+ Js.dquote
                        +:+ " belongs to provider " +:+ Js.dquote
                        +:+ expectedProvider +:+ Js.dquote +:+ ", not "
                        +:+ Js.dquote +:+ String d p +:+ Js.dquote))
          else mkValidation true None
      | None => mkValidation true None
      end
  | _, _ => mkValidation true None
  end.

(** [getHelpText()]: the template starts and ends with a line feed. *)
Definition getHelpText : string :=
  Js.join Js.nl
    [ "";
      "Xyzulu - Multi-Provider Agentic CLI";
      "";
      "Usage:";
      "  xyzulu [options] <command> [args...]";
      "";
      "Options:";
      "  --model, -m <model>      Specify model to use (e.g., gpt-4o, qwen-turbo, claude-3-opus)";
      "  --provider, -p <name>    Specify provider to use (e.g., openai, qwen, anthropic)";
      "  --help, -h               Show this help message";
      "";
      "Examples:";
      "  xyzulu generate " +:+ Js.dquote +:+ "Create a function" +:+ Js.dquote;
      "  xyzulu --model gpt-4o generate " +:+ Js.dquote +:+ "Create a function"
        +:+ Js.dquote;
      "  xyzulu --provider openai generate " +:+ Js.dquote
        +:+ "Create a function" +:+ Js.dquote;
      "  xyzulu --model qwen-turbo generate " +:+ Js.dquote
        +:+ "Create a function" +:+ Js.dquote;
      "";
      "Configuration:";
      "  Set API keys: xyzulu config set <provider>.apiKey <key>";
      "  Set default: xyzulu config set defaultProvider <provider>";
      "" ].

End CLI.

(** ** The entry point ([src/index.ts]): the [config] command *)

Module Main.

(** A line written with [console.log] or with [console.error]. *)
Inductive ConsoleLine : Type :=
  | Log (text : string)
  | ErrorLine (text : string).

(** How a handler ends: it returns, it ends the process with
    [process.exit(code)], or it throws. *)
Inductive Ending : Type :=
  | Returns
  | Exits (code : nat)
  | Throws (error : Thrown).

Record Outcome : Type := mkOutcome {
  manager : ConfigManager.t;
  files : ConfigManager.FileSystem;
  console : list ConsoleLine;
  ending : Ending
}.

(** [options.model || options.provider] of [main]. *)
Definition modelOrProvider (options : CLI.CLIOptions) : option string :=
  if Js.truthy (CLI.model options) then CLI.model options
  else CLI.provider options.

(** [apiKey.substring(0, 8) + '...' + apiKey.substring(apiKey.length - 4)];
    a negative start is the start of the string. *)
Definition masked (apiKey : string) : string :=
  Js.substringTo 8 apiKey +:+ "..."
  +:+ Js.slice (String.length apiKey - 4) apiKey.

Definition unknownConfigKey (key : string) : list ConsoleLine * Ending :=
  ([ErrorLine ("Unknown config key: " +:+ key)], Exits 1).

Definition handleConfigGet (key : string) (m : ConfigManager.t)
  : list ConsoleLine * Ending :=
  if Js.includes key "." then
    match Js.split "." key with
    | provider :: subkey :: _ =>
        if String.eqb subkey "apiKey" then
          match ConfigManager.getProviderKey provider m with
          | Some (String c k) => ([Log (masked (String c k))], Returns)
          | _ => ([Log "(not set)"], Returns)
          end
        else unknownConfigKey key
    | _ => unknownConfigKey key
    end
  else if String.eqb key "defaultProvider" then
    ([Log (Js.or_default (ConfigManager.getDefaultProvider m) "(not set)")],
     Returns)
  else if String.eqb key "defaultModel" then
    ([Log (Js.or_default (ConfigManager.getDefaultModel m) "(not set)")],
     Returns)
  else unknownConfigKey key.

Section Handlers.
Variable JSON_stringify : MultiProviderConfig -> string.

(** The end of a setter call followed by one [console.log]: when the save
    has thrown, the exception leaves the handler and nothing is logged. *)
Definition saved (r : ConfigManager.t * Completion ConfigManager.FileSystem)
    (fs : ConfigManager.FileSystem) (line : string) : Outcome :=
  match r.2 with
  | Return fs' => mkOutcome r.1 fs' [Log line] Returns
  | Throw error => mkOutcome r.1 fs [] (Throws error)
  end.

Definition handleConfigSet (key value : string) (m : ConfigManager.t)
    (fs : ConfigManager.FileSystem) : Outcome :=
  let unknown :=
    mkOutcome m fs (unknownConfigKey key).1 (unknownConfigKey key).2 in
  if Js.includes key "." then
    match Js.split "." key with
    | provider :: subkey :: _ =>
        if String.eqb subkey "apiKey" then
          if negb (ConfigManager.validateProviderKey provider value) then
            mkOutcome m fs
              [ErrorLine ("Invalid API key format for provider "
                          +:+ Js.dquote +:+ provider +:+ Js.dquote)]
              (Exits 1)
          else
            saved (ConfigManager.setProviderKey JSON_stringify provider value
                     m fs)
                  fs ("Set " +:+ provider +:+ ".apiKey")
        else unknown
    | _ => unknown
    end
  else if String.eqb key "defaultProvider" then
    match ConfigManager.setDefaultProvider JSON_stringify value m fs with
    | Return (m', Return fs') =>
        mkOutcome m' fs' [Log ("Set defaultProvider to " +:+ value)] Returns
    | Return (m', Throw (JsError _ msg)) =>
        mkOutcome m' fs [ErrorLine ("Error: " +:+ msg)] (Exits 1)
    | Return (m', Throw (LLMErr e)) =>
        mkOutcome m' fs [ErrorLine ("Error: " +:+ err_message e)] (Exits 1)
    | Return (m', Throw JsOther) => mkOutcome m' fs [] Returns
    | Throw (JsError _ msg) =>
        mkOutcome m fs [ErrorLine ("Error: " +:+ msg)] (Exits 1)
    | Throw (LLMErr e) =>
        mkOutcome m fs [ErrorLine ("Error: " +:+ err_message e)] (Exits 1)
    | Throw JsOther => mkOutcome m fs [] Returns
    end
  else if String.eqb key "defaultModel" then
    saved (ConfigManager.setDefaultModel JSON_stringify value m fs)
          fs ("Set defaultModel to " +:+ value)
  else unknown.

Definition usage : ConsoleLine :=
  Log "Usage: xyzulu config <get|set> <key> [value]".

Definition handleConfigCommand (args : list string) (m : ConfigManager.t)
    (fs : ConfigManager.FileSystem) : Outcome :=
  match args with
  | [] =>
      mkOutcome m fs
        [ErrorLine "Error: config command requires arguments"; usage]
        (Exits 1)
  | subcommand :: rest =>
      if String.eqb subcommand "get" then
        match rest with
        | key :: _ =>
            mkOutcome m fs (handleConfigGet key m).1 (handleConfigGet key m).2
        | [] =>
            mkOutcome m fs [ErrorLine "Error: config get requires a key"]
                      (Exits 1)
        end
      else if String.eqb subcommand "set" then
        match rest with
        | key :: value :: more =>
            handleConfigSet key (Js.join " " (value :: more)) m fs
        | _ =>
            mkOutcome m fs
              [ErrorLine "Error: config set requires a key and value"]
              (Exits 1)
        end
      else
        mkOutcome m fs
          [ErrorLine ("Unknown config subcommand: " +:+ subcommand); usage]
          (Exits 1)
  end.

End Handlers.

Section Program.
Variable fetch : string -> JsMap.t string -> QwenProvider.DashScopeRequest
                 -> Completion QwenProvider.Response.
Variable JSON_stringify : MultiProviderConfig -> string.
Variable Object_entries
  : gmap string ProviderConfig -> list (string * ProviderConfig).

(** [provider.sendMessage(prompt, options)] on a provider of the resolver. *)
Definition sendMessage (provider : Provider) (prompt : string)
    (options : GenerationOptions) : Completion LLMResponse :=
  match provider with
  | Qwen q => QwenProvider.sendMessage fetch q prompt options
  | OpenAI o => OpenAIProvider.sendMessage o prompt options
  | Anthropic a => AnthropicProvider.sendMessage a prompt options
  end.

Definition tokensLine (t : TokenUsage) : string :=
  Js.nl +:+ "Tokens used: " +:+ Js.of_nat (tok_total t) +:+ " (prompt: "
  +:+ Js.of_nat (tok_prompt t) +:+ ", completion: "
  +:+ Js.of_nat (tok_completion t) +:+ ")".

Definition handleGenerateCommand (args : list string) (provider : Provider)
    (m : ConfigManager.t) : list ConsoleLine * Ending :=
  match args with
  | [] => ([ErrorLine "Error: generate command requires a prompt"], Exits 1)
  | _ :: _ =>
      let prompt := Js.join " " args in
      let started :=
        [Log ("Using provider: " +:+ getName provider);
         Log ("Generating response for: " +:+ Js.dquote +:+ prompt
              +:+ Js.dquote +:+ Js.nl)] in
      match sendMessage provider prompt
              (mkGenerationOptions (ConfigManager.getDefaultModel m)
                                   None None None None None) with
      | Return response =>
          (started ++ [Log (content response)]
           ++ match tokensUsed response with
              | Some t => [Log (tokensLine t)]
              | None => []
              end,
           Returns)
      | Throw (JsError _ msg) =>
          (started ++ [ErrorLine ("Error generating response: " +:+ msg)],
           Exits 1)
      | Throw (LLMErr e) =>
          (started
           ++ [ErrorLine ("Error generating response: " +:+ err_message e)],
           Exits 1)
      | Throw JsOther =>
          (started ++ [ErrorLine "Unknown error during generation"], Exits 1)
      end
  end.

Definition executeCommand (command : string) (args : list string)
    (provider : Provider) (m : ConfigManager.t)
    (fs : ConfigManager.FileSystem) : Outcome :=
  if String.eqb command "generate" || String.eqb command "gen" then
    mkOutcome m fs (handleGenerateCommand args provider m).1
                   (handleGenerateCommand args provider m).2
  else if String.eqb command "config" then
    handleConfigCommand JSON_stringify args m fs
  else
    mkOutcome m fs
      [ErrorLine ("Unknown command: " +:+ command
                  +:+ ". Use --help for usage information.")]
      (Exits 1).

(** The [catch] block of [main]: an error line, then [process.exit(1)]. *)
Definition caught (error : Thrown) (m : ConfigManager.t)
    (fs : ConfigManager.FileSystem) (lines : list ConsoleLine) : Outcome :=
  mkOutcome m fs
    (lines ++ [ErrorLine
                 match error with
                 | JsError _ msg => "Error: " +:+ msg
                 | LLMErr e => "Error: " +:+ err_message e
                 | JsOther => "Unknown error occurred"
                 end])
    (Exits 1).

(** [main()] on the arguments [process.argv.slice(2)], the manager and the
    registry of the process: how it ends, and the registry then. *)
Definition main (nodeArgs : list string) (m : ConfigManager.t)
    (fs : ConfigManager.FileSystem) (providerRegistry : Resolver.Registry)
  : Outcome * Resolver.Registry :=
  match CLI.parseArgs (Some nodeArgs) with
  | Throw error => (caught error m fs [], providerRegistry)
  | Return options =>
      match CLI.help options with
      | Some true =>
          (mkOutcome m fs [Log CLI.getHelpText] (Exits 0), providerRegistry)
      | _ =>
          let validation :=
            CLI.validateProviderModel (CLI.model options)
                                      (CLI.provider options) in
          if negb (CLI.valid validation) then
            (mkOutcome m fs
               [ErrorLine ("Error: " +:+ default "undefined"
                                           (CLI.error validation))]
               (Exits 1),
             providerRegistry)
          else
            match Resolver.registerConfiguredProviders Object_entries m
                    providerRegistry with
            | (registry1, Throw error) => (caught error m fs [], registry1)
            | (registry1, Return _) =>
                match Resolver.resolveProvider (modelOrProvider options) None
                        m registry1 with
                | Throw error => (caught error m fs [], registry1)
                | Return (provider, registry2) =>
                    match CLI.command options with
                    | Some (String c r) =>
                        let o := executeCommand (String c r)
                                   (CLI.args options) provider m fs in
                        match ending o with
                        | Throws error =>
                            (caught error (manager o) (files o) (console o),
                             registry2)
                        | _ => (o, registry2)
                        end
                    | _ =>
                        (mkOutcome m fs
                           [ErrorLine
                              "Error: No command specified. Use --help for usage information."]
                           (Exits 1),
                         registry2)
                    end
                end
            end
      end
  end.

End Program.

End Main.

(** The [MockProvider] of the registry tests
    ([src/providers/__tests__/ProviderRegistry.test.ts]). *)
Record MockProvider : Type := mkMockProvider {
  mock_name : string;
  mock_models : list string;
  mock_available : bool
}.

#[global] Instance MockProvider_LLMProvider : LLMProvider MockProvider := {
  getName := mock_name;
  getSupportedModels := mock_models;
  validateConfig p _ := mock_available p;
  isAvailable := mock_available
}.

(** ** Invariants of reachable states

    Predicates on the registry and on the configuration that the operations
    keep; the further properties are stated with them. *)

(** The names of a registry built by its operations: no name twice, none
    blank. *)
Definition registry_names_wf {P : Type} (r : ProviderRegistry.t P) : Prop :=
  NoDup (JsMap.keys (ProviderRegistry.reg_providers r))
  ∧ ∀ name, JsMap.has name (ProviderRegistry.reg_providers r) = true →
            ProviderRegistry.blank name = false.


(** A text that consists of white space only (the empty text included). *)
Definition all_whitespace (s : string) : Prop :=
  Forall (fun c => Js.is_whitespace c = true) (list_ascii_of_string s).

(** [name] has the entry [pc] in the configuration, with a key that is not
    empty. *)
Definition keyed (c : MultiProviderConfig) (name : string)
    (pc : ProviderConfig) : Prop :=
  providers c !! name = Some pc ∧ apiKey pc ≠ "".

(** The names [createProviderInstance] has a class for. *)
Definition knownProvider (name : string) : Prop :=
  Js.toLowerCase name ∈ ["qwen"; "openai"; "anthropic"].

(** An argument that [parseArgs] takes as a word: it is none of the short
    flags and does not start with two dashes. *)
Definition positional (w : string) : Prop :=
  Js.startsWith w "--" = false ∧ w ∉ ["-m"; "-p"; "-h"].

(** [v] follows one of [flags] in [argv]. *)
Definition valueFlagged (flags argv : list string) (v : string) : Prop :=
  ∃ pre post flag, flag ∈ flags ∧ argv = pre ++ flag :: v :: post.

(** The model index of a registry in the resolver's hands points every
    model at a name of the provider that the table gives for the model. *)
Definition index_consistent (r : Resolver.Registry) : Prop :=
  ∀ M n, ProviderRegistry.modelToProvider r !! M = Some n →
         Resolver.MODEL_TO_PROVIDER !! M = Some (Js.toLowerCase n).


(** ** Sample documents for the examples

    Stand-ins for [JSON.parse] and [JSON.stringify] that know the documents
    the examples load and print a configuration compactly. *)

Module Sample.

Definition q (s : string) : string := Js.dquote +:+ s +:+ Js.dquote.

(** The legacy document of the migration test, with key [sk-old]. *)
Definition legacyText : string :=
  "{" +:+ q "apiKey" +:+ ":" +:+ q "sk-old" +:+ ","
  +:+ q "defaultModel" +:+ ":" +:+ q "qwen-turbo" +:+ "}".

(** A legacy document whose key is the empty string. *)
Definition emptyKeyText : string :=
  "{" +:+ q "apiKey" +:+ ":" +:+ q "" +:+ "}".

Definition JSON_parse (text : string) : Completion ConfigManager.Parsed :=
  if String.eqb text legacyText then
    Return (ConfigManager.ParsedObj
              (ConfigManager.mkParsedObject (Some "sk-old") None None
                                            (Some "qwen-turbo")))
  else if String.eqb text emptyKeyText then
    Return (ConfigManager.ParsedObj
              (ConfigManager.mkParsedObject (Some "") None None None))
  else Throw (JsError "SyntaxError" "Unexpected token").

Definition field (k : string) (v : option string) : list string :=
  match v with
  | Some x => [q k +:+ ":" +:+ q x]
  | None => []
  end.

Definition JSON_stringify (c : MultiProviderConfig) : string :=
  "{" +:+ Js.join ","
    ((q "providers" +:+ ":{"
      +:+ Js.join ","
            (map (fun kv => q (fst kv) +:+ ":{" +:+ q "apiKey" +:+ ":"
                            +:+ q (apiKey (snd kv)) +:+ "}")
                 (map_to_list (providers c)))
      +:+ "}")
     :: field "defaultProvider" (defaultProvider c)
     ++ field "defaultModel" (defaultModel c))
  +:+ "}".

Definition CONFIG_FILE : string := "/home/user/.xyzulu/config.json".



(** A registry where [x] was registered listing the models [a] and [b] and
    then again, by another provider, listing [b] only. *)
Definition reRegistered : ProviderRegistry.t MockProvider :=
  ProviderRegistry.run
    [ProviderRegistry.OpRegister
       (Some (mkMockProvider "first" ["a"; "b"] true)) "x";
     ProviderRegistry.OpRegister
       (Some (mkMockProvider "second" ["b"] true)) "x"]
    ProviderRegistry.empty.

(** A manager created without a file, and the configuration of the resolver
    tests: a [qwen] key, and [qwen] as default provider. *)
Definition manager : ConfigManager.t :=
  ConfigManager.mk ConfigManager.emptyConfig CONFIG_FILE.

Definition qwenDefault : MultiProviderConfig :=
  mkMultiProviderConfig {[ "qwen" := ConfigManager.keyOnly "sk-qwen-key" ]}
                        (Some "qwen") None.

(** A vendor answer with one choice whose content is [text]. *)
Definition answer (text : string) : QwenProvider.DashScopeResponse :=
  QwenProvider.mkDashScopeResponse
    (Some (QwenProvider.mkOutput
             (Some [QwenProvider.mkChoice
                      (Some (QwenProvider.mkMessage (Some text)))
                      (Some "stop")])
             None))
    None None (Some "req-1").

(** A fenced answer: fence, [ts], line feed, one line of code, line feed,
    fence. *)
Definition fencedText : string :=
  Js.fence +:+ "ts" +:+ Js.nl +:+ "const x = 1;" +:+ Js.nl +:+ Js.fence.

(** A network that answers every request with status 200 and [fencedText]. *)
Definition fetch (_ : string) (_ : JsMap.t string)
    (_ : QwenProvider.DashScopeRequest) : Completion QwenProvider.Response :=
  Return (QwenProvider.mkResponse 200 (Return (answer fencedText)) None).

Definition provider : QwenProvider.t :=
  QwenProvider.new (ConfigManager.keyOnly "sk-test-key").

(** Three fence lines, each a fence followed by a space, around the lines
    [foo], [bar] and [baz]. *)
Definition spacedFences : string :=
  Js.fence +:+ " " +:+ Js.nl +:+ "foo" +:+ Js.nl
  +:+ Js.fence +:+ " " +:+ Js.nl +:+ "bar" +:+ Js.nl
  +:+ Js.fence +:+ " " +:+ Js.nl +:+ "baz".

(** A fence that is never closed, followed by the line [abc]. *)
Definition openFence : string := Js.fence +:+ Js.nl +:+ "abc".

(** A stream parser that knows the payloads [A], [B] and [C] and rejects
    everything else, and a network whose stream carries, in two reads that
    cut a line in two: [A], a corrupt payload, [B], the end sentinel,
    and [C]. *)
Definition parseChunk (data : string)
  : Completion QwenProvider.DashScopeResponse :=
  if String.eqb data "A" then Return (answer "a")
  else if String.eqb data "B" then Return (answer "b")
  else if String.eqb data "C" then Return (answer "c")
  else Throw (JsError "SyntaxError" "Unexpected token").

Definition streamChunks : list string :=
  [ "data: A" +:+ Js.nl +:+ "da";
    "ta: {corrupt" +:+ Js.nl +:+ "data: B" +:+ Js.nl
    +:+ "data: [DONE]" +:+ Js.nl +:+ "data: C" +:+ Js.nl ].

Definition streamFetch (_ : string) (_ : JsMap.t string)
    (_ : QwenProvider.DashScopeRequest) : Completion QwenProvider.Response :=
  Return (QwenProvider.mkResponse 200
            (Throw (JsError "SyntaxError" "Unexpected token"))
            (Some (Return <$> streamChunks))).

Definition chunkResponse (text : string) : LLMResponse :=
  mkLLMResponse text "qwen" "qwen-turbo" None (Some "stop")
                (Some (mkResponseMetadata (Some "req-1") None)).

(** An [Object.entries] that lists the entries in the order of the keys,
    and a manager with the configuration of the resolver tests. *)
Definition Object_entries (ps : gmap string ProviderConfig)
  : list (string * ProviderConfig) := map_to_list ps.

Definition qwenManager : ConfigManager.t :=
  ConfigManager.mk qwenDefault CONFIG_FILE.

(** A network whose stream fails at its second read, after a first read
    that carries the payload [A]. *)
Definition brokenStreamFetch (_ : string) (_ : JsMap.t string)
    (_ : QwenProvider.DashScopeRequest) : Completion QwenProvider.Response :=
  Return (QwenProvider.mkResponse 200
            (Throw (JsError "SyntaxError" "Unexpected token"))
            (Some ((Return <$> ["data: A" +:+ Js.nl])
                   ++ [Throw (JsError "TypeError" "network error")]))).

(** A file system without a configuration file, writable. *)
Definition noFile : ConfigManager.FileSystem :=
  ConfigManager.mkFileSystem ConfigManager.Missing None.

End Sample.

(** * Properties *)

(** Unfold one monadic bind of [Completion] on a known result. *)
Ltac step_bind := unfold mbind, Completion_bind, bindC; cbv beta iota.

(** ** Insertion-ordered maps *)

Section JsMapFacts.
Context {V : Type}.
Implicit Types (m : JsMap.t V) (k : string) (v : V).

Lemma JsMap_get_set_eq m k v : JsMap.get k (JsMap.set k v m) = Some v.
Proof.
  induction m as [|[k' v'] m IH]; simpl.
  - by rewrite String.eqb_refl.
  - destruct (String.eqb_spec k k') as [->|Hne]; simpl.
    + by rewrite String.eqb_refl.
    + destruct (String.eqb_spec k k'); [done|exact IH].
Qed.

Lemma JsMap_get_set_ne m k k' v :
  k ≠ k' → JsMap.get k' (JsMap.set k v m) = JsMap.get k' m.
Proof.
  intros Hne. induction m as [|[k0 v0] m IH]; simpl.
  - destruct (String.eqb_spec k' k); [congruence|done].
  - destruct (String.eqb_spec k k0) as [->|Hk]; simpl.
    + destruct (String.eqb_spec k' k0); [congruence|done].
    + destruct (String.eqb_spec k' k0); [done|exact IH].
Qed.

Lemma JsMap_get_delete_ne m k k' :
  k ≠ k' → JsMap.get k' (JsMap.delete k m) = JsMap.get k' m.
Proof.
  intros Hne. induction m as [|[k0 v0] m IH]; simpl; [done|].
  destruct (String.eqb_spec k k0) as [->|Hk]; simpl.
  - destruct (String.eqb_spec k' k0); [congruence|done].
  - destruct (String.eqb_spec k' k0); [done|exact IH].
Qed.

Lemma JsMap_has_get m k : JsMap.has k m = true ↔ is_Some (JsMap.get k m).
Proof.
  unfold JsMap.has. destruct (JsMap.get k m); split; intros Hx;
    try done; try (by eexists); by destruct Hx.
Qed.

End JsMapFacts.

(** ** The registry *)

Section RegistryFacts.
Context {P : Type} `{LLMProvider P}.
Implicit Types (r : ProviderRegistry.t P) (p : P) (name : string).

Lemma index_models_elem (idx : gmap string string) name (models : list string) M :
  M ∈ models →
  foldl (fun i model => <[model := name]> i) idx models !! M = Some name.
Proof.
  revert idx. induction models as [|x l IH]; intros idx Hin; simpl.
  - by apply not_elem_of_nil in Hin.
  - destruct (decide (M ∈ l)) as [Hl|Hl]; [by apply IH|].
    apply elem_of_cons in Hin as [->|Hin]; [|done].
    clear IH. revert idx. induction l as [|y l IH]; intros idx; simpl.
    + by rewrite lookup_insert_eq.
    + apply not_elem_of_cons in Hl as [Hy Hl].
      rewrite insert_insert_ne by done. by apply IH.
Qed.

Lemma index_models_not_elem (idx : gmap string string) name
    (models : list string) M :
  M ∉ models →
  foldl (fun i model => <[model := name]> i) idx models !! M = idx !! M.
Proof.
  revert idx. induction models as [|x l IH]; intros idx Hin; simpl; [done|].
  apply not_elem_of_cons in Hin as [Hx Hl].
  rewrite IH by done. by rewrite lookup_insert_ne.
Qed.

Lemma blank_false_nonempty name :
  ProviderRegistry.blank name = false → Js.nonempty name = true.
Proof.
  unfold ProviderRegistry.blank. intros Hb.
  apply orb_false_iff in Hb as [Hb _]. by apply negb_false_iff in Hb.
Qed.

Lemma register_return r p name :
  ProviderRegistry.blank name = false →
  ProviderRegistry.register (Some p) name r
  = Return (ProviderRegistry.mk
              (JsMap.set name p (ProviderRegistry.reg_providers r))
              (foldl (fun i model => <[model := name]> i)
                     (ProviderRegistry.modelToProvider r)
                     (getSupportedModels p))
              (ProviderRegistry.defaultProviderName r)).
Proof. intros Hb. unfold ProviderRegistry.register. by rewrite Hb. Qed.

Lemma register_get r r' p name :
  ProviderRegistry.register (Some p) name r = Return r' →
  ProviderRegistry.get name r' = Some p.
Proof.
  unfold ProviderRegistry.register.
  destruct (ProviderRegistry.blank name); [done|].
  intros [= <-]. apply JsMap_get_set_eq.
Qed.

Lemma register_get_ne r r' p name name' :
  ProviderRegistry.register (Some p) name r = Return r' →
  name ≠ name' →
  ProviderRegistry.get name' r' = ProviderRegistry.get name' r.
Proof.
  unfold ProviderRegistry.register.
  destruct (ProviderRegistry.blank name); [done|].
  intros [= <-] Hne. by apply JsMap_get_set_ne.
Qed.

Lemma register_getByModel r r' p name M :
  ProviderRegistry.register (Some p) name r = Return r' →
  M ∈ getSupportedModels p →
  ProviderRegistry.getByModel M r' = Some p.
Proof.
  unfold ProviderRegistry.register.
  destruct (ProviderRegistry.blank name) eqn:Hb; [done|].
  intros [= <-] Hin. unfold ProviderRegistry.getByModel; simpl.
  rewrite index_models_elem by done.
  rewrite (blank_false_nonempty _ Hb). apply JsMap_get_set_eq.
Qed.

Lemma register_getByModel_other r r' p name M :
  ProviderRegistry.register (Some p) name r = Return r' →
  M ∉ getSupportedModels p →
  ProviderRegistry.modelToProvider r' !! M
  = ProviderRegistry.modelToProvider r !! M.
Proof.
  unfold ProviderRegistry.register.
  destruct (ProviderRegistry.blank name) eqn:Hb; [done|].
  intros [= <-] Hin. simpl. by apply index_models_not_elem.
Qed.

(** Whatever the registry holds, a lookup by model or of the default goes
    through the current name map. *)
Lemma getByModel_registered r M p :
  ProviderRegistry.getByModel M r = Some p →
  ∃ name, ProviderRegistry.modelToProvider r !! M = Some name
          ∧ ProviderRegistry.get name r = Some p.
Proof.
  unfold ProviderRegistry.getByModel, ProviderRegistry.get.
  destruct (ProviderRegistry.modelToProvider r !! M) as [name|]; [|done].
  destruct (Js.nonempty name); [|done]. intros Hg. by exists name.
Qed.

Lemma getDefault_registered r p :
  ProviderRegistry.getDefault r = Some p →
  ∃ name, ProviderRegistry.defaultProviderName r = Some name
          ∧ ProviderRegistry.get name r = Some p.
Proof.
  unfold ProviderRegistry.getDefault, ProviderRegistry.get.
  destruct (ProviderRegistry.defaultProviderName r) as [name|]; [|done].
  destruct (Js.nonempty name); [|done]. intros Hg. by exists name.
Qed.

Lemma step_default_registered r op :
  ProviderRegistry.default_registered r →
  ProviderRegistry.default_registered (ProviderRegistry.step r op).
Proof.
  intros Hinv. destruct op as [[p|] name|name|name|]; simpl.
  - unfold ProviderRegistry.register.
    destruct (ProviderRegistry.blank name); [done|].
    intros d Hd; simpl in *. specialize (Hinv d Hd).
    unfold ProviderRegistry.has in *; simpl.
    apply JsMap_has_get. apply JsMap_has_get in Hinv.
    destruct (decide (name = d)) as [->|Hne].
    + rewrite JsMap_get_set_eq. by eexists.
    + by rewrite JsMap_get_set_ne.
  - done.
  - unfold ProviderRegistry.unregister.
    destruct (JsMap.get name (ProviderRegistry.reg_providers r)); [|done].
    intros d; simpl. case_bool_decide as Hd; [done|]. intros Hd'.
    specialize (Hinv d Hd'). unfold ProviderRegistry.has in *; simpl.
    apply JsMap_has_get. apply JsMap_has_get in Hinv.
    rewrite JsMap_get_delete_ne; [done|]. intros ->. by rewrite Hd' in Hd.
  - unfold ProviderRegistry.setDefault.
    destruct (ProviderRegistry.has name r) eqn:Hh; simpl; [|done].
    intros d [= <-]. exact Hh.
  - intros d Hd. discriminate Hd.
Qed.

Lemma run_default_registered ops r :
  ProviderRegistry.default_registered r →
  ProviderRegistry.default_registered (ProviderRegistry.run ops r).
Proof.
  revert r. induction ops as [|op ops IH]; intros r Hinv; [done|].
  simpl. apply IH. by apply step_default_registered.
Qed.

End RegistryFacts.

Section RegistryClaims.
Context {P : Type} `{LLMProvider P}.

(** C4.  Registering [p1] under a non-blank name [n1] in any registry, and
    then [p2] under [n2], both succeed (a model collision raises nothing).
    After the first registration every model of [p1] is looked up to [p1];
    after the second every model of [p2] is looked up to [p2], also a model
    that [p1] claimed, so the last registration wins; [n2] now names [p2],
    which for [n1 = n2] is a re-registration that overwrites [p1]; and under
    distinct names a model that only [p1] claims still yields [p1]. *)
Theorem register_getByModel_last_wins
    (r : ProviderRegistry.t P) (p1 p2 : P) (n1 n2 : string) :
  ProviderRegistry.blank n1 = false →
  ProviderRegistry.blank n2 = false →
  ∃ r1 r2,
    ProviderRegistry.register (Some p1) n1 r = Return r1
    ∧ ProviderRegistry.register (Some p2) n2 r1 = Return r2
    ∧ ProviderRegistry.get n1 r1 = Some p1
    ∧ (∀ M, M ∈ getSupportedModels p1 →
            ProviderRegistry.getByModel M r1 = Some p1)
    ∧ ProviderRegistry.get n2 r2 = Some p2
    ∧ (∀ M, M ∈ getSupportedModels p2 →
            ProviderRegistry.getByModel M r2 = Some p2)
    ∧ (n1 ≠ n2 →
       ∀ M, M ∈ getSupportedModels p1 → M ∉ getSupportedModels p2 →
            ProviderRegistry.getByModel M r2 = Some p1).
Proof.
  intros Hb1 Hb2.
  pose proof (register_return r p1 n1 Hb1) as Hr1.
  set (r1 := ProviderRegistry.mk _ _ _) in Hr1.
  pose proof (register_return r1 p2 n2 Hb2) as Hr2.
  set (r2 := ProviderRegistry.mk _ _ _) in Hr2.
  exists r1, r2. split; [exact Hr1|]. split; [exact Hr2|].
  split; [exact (register_get _ _ _ _ Hr1)|].
  split; [intros M HM; exact (register_getByModel _ _ _ _ M Hr1 HM)|].
  split; [exact (register_get _ _ _ _ Hr2)|].
  split; [intros M HM; exact (register_getByModel _ _ _ _ M Hr2 HM)|].
  intros Hne M HM1 HM2.
  pose proof (register_getByModel _ _ _ _ M Hr1 HM1) as Hg.
  pose proof (register_getByModel_other _ _ _ _ M Hr2 HM2) as Hidx.
  apply getByModel_registered in Hg as (name & Hname & Hget).
  assert (name = n1) as ->.
  { simpl in Hname. rewrite index_models_elem in Hname by done. congruence. }
  unfold ProviderRegistry.getByModel. rewrite Hidx, Hname.
  rewrite (blank_false_nonempty _ Hb1).
  fold (ProviderRegistry.get n1 r2).
  rewrite (register_get_ne _ _ _ _ n1 Hr2) by done. exact Hget.
Qed.

(** C10.  After any sequence of [register], [unregister], [setDefault] and
    [clear] calls on a new registry, a provider returned by [getByModel] or
    by [getDefault] is the one currently registered under some name, and a
    default name that is set is a registered name. *)
Theorem lookups_return_registered_providers
    (ops : list (ProviderRegistry.Op P)) :
  (∀ M p,
      ProviderRegistry.getByModel M
        (ProviderRegistry.run ops ProviderRegistry.empty) = Some p →
      ∃ name,
        ProviderRegistry.has name
          (ProviderRegistry.run ops ProviderRegistry.empty) = true
        ∧ ProviderRegistry.get name
            (ProviderRegistry.run ops ProviderRegistry.empty) = Some p)
  ∧ (∀ p,
      ProviderRegistry.getDefault
        (ProviderRegistry.run ops ProviderRegistry.empty) = Some p →
      ∃ name,
        ProviderRegistry.has name
          (ProviderRegistry.run ops ProviderRegistry.empty) = true
        ∧ ProviderRegistry.get name
            (ProviderRegistry.run ops ProviderRegistry.empty) = Some p)
  ∧ (∀ name,
      ProviderRegistry.defaultProviderName
        (ProviderRegistry.run ops ProviderRegistry.empty) = Some name →
      ProviderRegistry.has name
        (ProviderRegistry.run ops ProviderRegistry.empty) = true).
Proof.
  set (r := ProviderRegistry.run ops ProviderRegistry.empty).
  split; [|split].
  - intros M p Hg. apply getByModel_registered in Hg as (name & _ & Hget).
    exists name. split; [|done]. apply JsMap_has_get. by exists p.
  - intros p Hg. apply getDefault_registered in Hg as (name & _ & Hget).
    exists name. split; [|done]. apply JsMap_has_get. by exists p.
  - apply run_default_registered. intros name Hd. discriminate Hd.
Qed.

End RegistryClaims.

(** The scenario of C4 on mock providers: model [m] is claimed by both. *)
Lemma register_getByModel_last_wins_witness :
  ProviderRegistry.blank "x" = false
  ∧ ProviderRegistry.blank "y" = false
  ∧ ∃ r1 r2,
      ProviderRegistry.register
        (Some (mkMockProvider "first" ["m"; "a"] true)) "x"
        ProviderRegistry.empty = Return r1
      ∧ ProviderRegistry.register
          (Some (mkMockProvider "second" ["m"] true)) "y" r1 = Return r2
      ∧ ProviderRegistry.getByModel "m" r2
        = Some (mkMockProvider "second" ["m"] true)
      ∧ ProviderRegistry.getByModel "a" r2
        = Some (mkMockProvider "first" ["m"; "a"] true).
Proof.
  split; [reflexivity|]. split; [reflexivity|].
  destruct (register_getByModel_last_wins ProviderRegistry.empty
              (mkMockProvider "first" ["m"; "a"] true)
              (mkMockProvider "second" ["m"] true) "x" "y"
              eq_refl eq_refl)
    as (r1 & r2 & H1 & H2 & _ & _ & _ & Hm & Ha).
  exists r1, r2. split; [exact H1|]. split; [exact H2|].
  split.
  - apply Hm. simpl. compute_done.
  - apply Ha; simpl; compute_done.
Defined.

(** Re-registering a name with another model list leaves the old index
    entries behind: model [a] still resolves through name [x], now to the
    replacing provider, which does not list it; once [x] is unregistered the
    entry dangles and the lookup yields nothing. *)
Example stale_model_index_entry :
  let p1 := mkMockProvider "first" ["a"; "b"] true in
  let p2 := mkMockProvider "second" ["b"] true in
  let r :=
    ProviderRegistry.run
      [ProviderRegistry.OpRegister (Some p1) "x";
       ProviderRegistry.OpRegister (Some p2) "x"] ProviderRegistry.empty in
  ProviderRegistry.modelToProvider r !! "a" = Some "x"
  ∧ ProviderRegistry.getByModel "a" r = Some p2
  ∧ ProviderRegistry.modelToProvider
      (ProviderRegistry.step r (ProviderRegistry.OpUnregister "x")) !! "a"
    = Some "x"
  ∧ ProviderRegistry.getByModel "a"
      (ProviderRegistry.step r (ProviderRegistry.OpUnregister "x")) = None.
Proof. vm_compute. done. Qed.

(** ** HTTP status normalization *)

Lemma handleHttpError_statusCode status :
  err_statusCode (QwenProvider.handleHttpError status) = Some status
  ∧ err_provider (QwenProvider.handleHttpError status) = "qwen".
Proof.
  unfold QwenProvider.handleHttpError.
  repeat (match goal with |- context [if ?b then _ else _] => destruct b end);
    done.
Qed.



Section HttpErrors.
Variable fetch : string → JsMap.t string → QwenProvider.DashScopeRequest
                 → Completion QwenProvider.Response.
Variable JSON_parse : string → Completion QwenProvider.DashScopeResponse.

(** The error of [handleHttpError] is what [sendMessage] and
    [streamResponse] throw on a response that is not [ok]. *)
Lemma sendMessage_http_error p prompt options response :
  QwenProvider.makeRequest fetch p
    (QwenProvider.formatRequest prompt options) false = Return response →
  QwenProvider.ok response = false →
  QwenProvider.sendMessage fetch p prompt options
  = Throw (LLMErr (QwenProvider.handleHttpError (QwenProvider.status response))).
Proof.
  intros Hreq Hok. unfold QwenProvider.sendMessage.
  rewrite Hreq. simpl. by rewrite Hok.
Qed.

Lemma sendMessage_throws_normalized p prompt options e :
  QwenProvider.sendMessage fetch p prompt options = Throw e →
  ∃ err, e = LLMErr err.
Proof.
  unfold QwenProvider.sendMessage, QwenProvider.normalized.
  destruct (_ ≫= _); [done|]. intros [= <-]. by eexists.
Qed.

End HttpErrors.

(** ** The configuration store *)

Section ConfigFacts.
Variable JSON_parse : string → Completion ConfigManager.Parsed.
Variable JSON_stringify : MultiProviderConfig → string.
Variable CONFIG_FILE : string.

Abbreviation new :=
  (ConfigManager.new JSON_parse JSON_stringify CONFIG_FILE).
Abbreviation setProviderKey :=
  (ConfigManager.setProviderKey JSON_stringify).




(** A file written by [saveConfig] is in the new shape: if parsing inverts
    serialization, loading it again returns the configuration that was saved
    and does not touch the file. *)
Lemma loadConfig_saved_config c fs :
  (∀ c', JSON_parse (JSON_stringify c')
         = Return (ConfigManager.ParsedObj
                     (ConfigManager.mkParsedObject None (Some (providers c'))
                        (defaultProvider c') (defaultModel c')))) →
  ConfigManager.file fs = ConfigManager.Contents (JSON_stringify c) →
  ConfigManager.loadConfig JSON_parse JSON_stringify fs = (c, fs).
Proof.
  intros Hrt Hfile.
  unfold ConfigManager.loadConfig, ConfigManager.loadConfig_try.
  rewrite Hfile, Hrt. simpl. by destruct c.
Qed.

Lemma loadConfig_throw fs e :
  ConfigManager.loadConfig_try JSON_parse JSON_stringify fs = Throw e →
  ConfigManager.loadConfig JSON_parse JSON_stringify fs
  = (ConfigManager.emptyConfig, fs).
Proof. unfold ConfigManager.loadConfig. by intros ->. Qed.

(** C8, as the code has it.  For a file whose text parses to an object with
    an [apiKey] field and no [providers] field:
    - when the key is not empty and the file can be written, the manager
      holds the migrated configuration (the key under [qwen], [qwen] as
      default provider, the default model if it was not empty) and the file
      holds its serialization;
    - when the key is not empty and the write fails, or when the key is the
      empty string, the manager holds the empty configuration and the file
      is left as it was.
    A file that cannot be read, or whose text is no JSON or no JSON object,
    gives the empty configuration and is left as it was. *)
Theorem loadConfig_legacy_or_corrupt
    (fs : ConfigManager.FileSystem) (path : option string) :
  (∀ text doc k,
      ConfigManager.file fs = ConfigManager.Contents text →
      JSON_parse text = Return (ConfigManager.ParsedObj doc) →
      ConfigManager.doc_apiKey doc = Some k →
      ConfigManager.doc_providers doc = None →
      k ≠ "" →
      ConfigManager.writeError fs = None →
      ∃ m migrated,
        migrated
        = mkMultiProviderConfig
            {[ "qwen" := ConfigManager.keyOnly k ]} (Some "qwen")
            (if Js.truthy (ConfigManager.doc_defaultModel doc)
             then ConfigManager.doc_defaultModel doc else None)
        ∧ new path fs
          = (m, ConfigManager.mkFileSystem
                  (ConfigManager.Contents (JSON_stringify migrated)) None)
        ∧ ConfigManager.config m = migrated
        ∧ ConfigManager.getProviderKey "qwen" m = Some k
        ∧ ConfigManager.getDefaultProvider m = Some "qwen")
  ∧ (∀ text doc k,
      ConfigManager.file fs = ConfigManager.Contents text →
      JSON_parse text = Return (ConfigManager.ParsedObj doc) →
      ConfigManager.doc_apiKey doc = Some k →
      ConfigManager.doc_providers doc = None →
      k = "" ∨ is_Some (ConfigManager.writeError fs) →
      ∃ m, new path fs = (m, fs)
           ∧ ConfigManager.config m = ConfigManager.emptyConfig
           ∧ ConfigManager.getProviderKey "qwen" m = None
           ∧ ConfigManager.getDefaultProvider m = None)
  ∧ ((∃ e, ConfigManager.file fs = ConfigManager.Unreadable e)
     ∨ (∃ text, ConfigManager.file fs = ConfigManager.Contents text
                ∧ ((∃ e, JSON_parse text = Throw e)
                   ∨ JSON_parse text = Return ConfigManager.ParsedPrimitive)) →
     ∃ m, new path fs = (m, fs)
          ∧ ConfigManager.config m = ConfigManager.emptyConfig).
Proof.
  split; [|split].
  - intros text doc k Hfile Hparse Hkey Hprov Hk Hw.
    unfold ConfigManager.new, ConfigManager.loadConfig,
      ConfigManager.loadConfig_try.
    rewrite Hfile, Hparse, Hkey, Hprov. simpl.
    unfold ConfigManager.migrateOldConfig, ConfigManager.saveConfig.
    rewrite Hkey, Hw. destruct k as [|c k]; [done|]. simpl.
    eexists _, _. split; [reflexivity|]. split; [reflexivity|].
    split; [reflexivity|]. split; [|reflexivity].
    unfold ConfigManager.getProviderKey; simpl.
    by rewrite lookup_singleton_eq.
  - intros text doc k Hfile Hparse Hkey Hprov Hcase.
    unfold ConfigManager.new, ConfigManager.loadConfig,
      ConfigManager.loadConfig_try.
    rewrite Hfile, Hparse, Hkey, Hprov. simpl.
    unfold ConfigManager.migrateOldConfig, ConfigManager.saveConfig.
    rewrite Hkey. destruct k as [|c k].
    + simpl. eexists. by repeat split.
    + destruct Hcase as [?|[msg Hmsg]]; [done|]. rewrite Hmsg. simpl.
      eexists. by repeat split.
  - intros Hcase.
    unfold ConfigManager.new, ConfigManager.loadConfig,
      ConfigManager.loadConfig_try.
    destruct Hcase as [[e Hf] | (text & Hf & [[e Hp] | Hp])];
      rewrite Hf; try rewrite Hp; simpl; eexists; by split.
Qed.

End ConfigFacts.


(** The legacy document of the migration test: after loading, the key of
    [qwen] is [sk-old], the default provider is [qwen], and the file holds
    the migrated configuration. *)
Lemma loadConfig_legacy_or_corrupt_witness :
  ∃ m,
    ConfigManager.new Sample.JSON_parse Sample.JSON_stringify
      Sample.CONFIG_FILE None
      (ConfigManager.mkFileSystem
         (ConfigManager.Contents Sample.legacyText) None)
    = (m, ConfigManager.mkFileSystem
            (ConfigManager.Contents
               (Sample.JSON_stringify
                  (mkMultiProviderConfig
                     {[ "qwen" := ConfigManager.keyOnly "sk-old" ]}
                     (Some "qwen") (Some "qwen-turbo"))))
            None)
    ∧ ConfigManager.getProviderKey "qwen" m = Some "sk-old"
    ∧ ConfigManager.getDefaultProvider m = Some "qwen".
Proof.
  destruct (proj1 (loadConfig_legacy_or_corrupt
                     Sample.JSON_parse Sample.JSON_stringify Sample.CONFIG_FILE
                     (ConfigManager.mkFileSystem
                        (ConfigManager.Contents Sample.legacyText) None)
                     None)
              Sample.legacyText
              (ConfigManager.mkParsedObject (Some "sk-old") None None
                                            (Some "qwen-turbo"))
              "sk-old" eq_refl eq_refl eq_refl eq_refl
              ltac:(discriminate) eq_refl)
    as (m & migrated & Hmig & Hnew & _ & Hkey & Hdef).
  exists m. rewrite Hmig in Hnew. by repeat split.
Defined.

(** C8 as stated fails on a legacy document whose [apiKey] is the empty
    string: it has an [apiKey] field and no [providers] field, yet after
    loading there is no key for [qwen], no default provider, and the file
    has not been rewritten. *)
Lemma loadConfig_empty_legacy_key_not_migrated :
  Sample.JSON_parse Sample.emptyKeyText
  = Return (ConfigManager.ParsedObj
              (ConfigManager.mkParsedObject (Some "") None None None))
  ∧ ∃ m,
      ConfigManager.new Sample.JSON_parse Sample.JSON_stringify
        Sample.CONFIG_FILE None
        (ConfigManager.mkFileSystem
           (ConfigManager.Contents Sample.emptyKeyText) None)
      = (m, ConfigManager.mkFileSystem
              (ConfigManager.Contents Sample.emptyKeyText) None)
      ∧ ConfigManager.getProviderKey "qwen" m = None
      ∧ ConfigManager.getProviderKey "qwen" m ≠ Some ""
      ∧ ConfigManager.getDefaultProvider m = None
      ∧ ConfigManager.getDefaultProvider m ≠ Some "qwen".
Proof.
  split; [reflexivity|]. eexists. split; [reflexivity|].
  by repeat split.
Qed.

(** ** The resolver *)

Section ResolverFacts.
Import Resolver.
Implicit Types (reg : Registry) (cfg : MultiProviderConfig).

Lemma MODEL_TO_PROVIDER_values k v :
  MODEL_TO_PROVIDER !! k = Some v →
  v = "qwen" ∨ v = "openai" ∨ v = "anthropic".
Proof.
  unfold MODEL_TO_PROVIDER. intros Hl.
  apply elem_of_list_to_map_2 in Hl.
  repeat (apply elem_of_cons in Hl as [[= -> ->] | Hl]; [tauto|]).
  by apply not_elem_of_nil in Hl.
Qed.

Lemma MODEL_TO_PROVIDER_nonempty k v :
  MODEL_TO_PROVIDER !! k = Some v → Js.nonempty v = true.
Proof.
  intros Hl. by destruct (MODEL_TO_PROVIDER_values k v Hl) as [-> | [-> | ->]].
Qed.


Lemma chooseProviderName_model_hint h n cfg reg :
  h ≠ "" → ProviderRegistry.has h reg = false →
  MODEL_TO_PROVIDER !! Js.toLowerCase h = Some n →
  chooseProviderName (Some h) cfg reg = Return n.
Proof.
  intros Hh Hhas Hm. destruct h as [|c r]; [done|].
  unfold chooseProviderName, resolveProviderName. rewrite Hhas, Hm.
  by destruct (MODEL_TO_PROVIDER_values _ _ Hm) as [-> | [-> | ->]].
Qed.




End ResolverFacts.


Section ResolverCredentials.
Import Resolver.
Implicit Types (reg : Registry) (cfg : MultiProviderConfig).

Lemma resolver_managed_empty : resolver_managed ProviderRegistry.empty.
Proof. intros name p Hg. discriminate Hg. Qed.

Lemma createProviderInstance_name name pc p :
  createProviderInstance name pc = Return p →
  getName p = Js.toLowerCase name.
Proof.
  unfold createProviderInstance.
  destruct (String.eqb_spec (Js.toLowerCase name) "qwen") as [->|_];
    [by intros [= <-]|].
  destruct (String.eqb_spec (Js.toLowerCase name) "openai") as [->|_];
    [by intros [= <-]|].
  destruct (String.eqb_spec (Js.toLowerCase name) "anthropic") as [->|_];
    [by intros [= <-]|done].
Qed.

Lemma provider_names (p : Provider) :
  getName p = "qwen" ∨ getName p = "openai" ∨ getName p = "anthropic".
Proof. destruct p; simpl; tauto. Qed.

Lemma instantiate_managed name cfg reg p reg' :
  resolver_managed reg →
  instantiate name cfg reg = Return (p, reg') →
  resolver_managed reg' ∧ ProviderRegistry.get name reg' = Some p.
Proof.
  intros Hm. unfold instantiate.
  destruct (providers cfg !! name) as [pc|]; [|done].
  destruct (negb (Js.nonempty (apiKey pc))); [done|].
  destruct (negb (ConfigManager.validateProviderKey name (apiKey pc)));
    [done|].
  destruct (ProviderRegistry.get name reg) as [p0|] eqn:Hget.
  - by intros [= <- <-].
  - destruct (createProviderInstance name pc) as [p1|] eqn:Hc; [|done].
    step_bind.
    destruct (ProviderRegistry.register (Some p1) name reg) as [r1|] eqn:Hr;
      [|done].
    intros [= <- <-]. split; [|exact (register_get _ _ _ _ Hr)].
    intros n q Hq. destruct (decide (name = n)) as [<-|Hne].
    + rewrite (register_get _ _ _ _ Hr) in Hq. injection Hq as <-.
      exact (createProviderInstance_name _ _ _ Hc).
    + rewrite (register_get_ne _ _ _ _ n Hr Hne) in Hq. by apply Hm.
Qed.

Lemma validateProviderKey_nonempty name key :
  ConfigManager.validateProviderKey name key = true → key ≠ "".
Proof. by intros Hv ->. Qed.

(** C2.  Whatever name [resolveProvider] has chosen, credentials that are
    absent or have an empty key make it throw the authentication error that
    names the provider and says how to set the key, and a key that fails the
    provider's format check makes it throw the authentication error for the
    key format.  With the hint [gpt-4o] on a registry that only the resolver
    has filled: without [openai] credentials the call throws the
    authentication error naming [openai]; with credentials whose key passes
    the format check it returns a provider whose name is [openai], which is
    then what the registry holds under that name. *)
Theorem resolveProvider_credentials
    (hint : option string) (config : option MultiProviderConfig)
    (manager : ConfigManager.t) (reg : Registry) :
  (∀ name,
      chooseProviderName hint (effectiveConfigOf config manager) reg
      = Return name →
      (providers (effectiveConfigOf config manager) !! name = None
       ∨ (∃ pc, providers (effectiveConfigOf config manager) !! name = Some pc
                ∧ apiKey pc = "") →
       resolveProvider hint config manager reg
       = Throw (LLMErr (AuthenticationError
           ("API key not configured for provider " +:+ Js.dquote +:+ name
            +:+ Js.dquote +:+ ". " +:+ "Please set it with: xyzulu config set "
            +:+ name +:+ ".apiKey <key>")
           name None)))
      ∧ (∀ pc, providers (effectiveConfigOf config manager) !! name = Some pc →
               apiKey pc ≠ "" →
               ConfigManager.validateProviderKey name (apiKey pc) = false →
               resolveProvider hint config manager reg
               = Throw (LLMErr (AuthenticationError
                   ("Invalid API key format for provider " +:+ Js.dquote
                    +:+ name +:+ Js.dquote)
                   name None))))
  ∧ (resolver_managed reg →
     (providers (effectiveConfigOf config manager) !! "openai" = None →
      resolveProvider (Some "gpt-4o") config manager reg
      = Throw (LLMErr (apiKeyNotConfigured "openai"))
      ∧ err_class (apiKeyNotConfigured "openai") = AuthenticationErrorClass
      ∧ err_provider (apiKeyNotConfigured "openai") = "openai")
     ∧ (∀ pc, providers (effectiveConfigOf config manager) !! "openai"
              = Some pc →
              ConfigManager.validateProviderKey "openai" (apiKey pc) = true →
              ∃ p reg',
                resolveProvider (Some "gpt-4o") config manager reg
                = Return (p, reg')
                ∧ getName p = "openai"
                ∧ ProviderRegistry.get "openai" reg' = Some p
                ∧ resolver_managed reg')).
Proof.
  set (cfg := effectiveConfigOf config manager).
  split.
  - intros name Hname. unfold resolveProvider. fold cfg. rewrite Hname. simpl.
    unfold instantiate. split.
    + intros [Hnone | (pc & Hpc & Hk)]; [by rewrite Hnone|].
      by rewrite Hpc, Hk.
    + intros pc Hpc Hk Hv. rewrite Hpc, Hv.
      by destruct (apiKey pc).
  - intros Hm.
    assert (ProviderRegistry.has "gpt-4o" reg = false) as Hhas.
    { destruct (ProviderRegistry.has "gpt-4o" reg) eqn:Hh; [|done].
      apply JsMap_has_get in Hh as [p Hp]. apply Hm in Hp.
      by destruct (provider_names p) as [Hn | [Hn | Hn]]; rewrite Hn in Hp. }
    assert (chooseProviderName (Some "gpt-4o") cfg reg = Return "openai")
      as Hchoose.
    { by apply chooseProviderName_model_hint. }
    unfold resolveProvider. fold cfg. rewrite Hchoose. simpl. split.
    + intros Hnone. unfold instantiate. by rewrite Hnone.
    + intros pc Hpc Hv.
      destruct (instantiate "openai" cfg reg) as [[p reg']|e] eqn:Hi.
      * destruct (instantiate_managed _ _ _ _ _ Hm Hi) as [Hm' Hg].
        exists p, reg'. split; [done|]. split; [|done].
        by apply Hm' in Hg.
      * exfalso. revert Hi. unfold instantiate. rewrite Hpc, Hv.
        pose proof (validateProviderKey_nonempty _ _ Hv) as Hk.
        destruct (apiKey pc) as [|c k]; [done|]. simpl.
        destruct (ProviderRegistry.get "openai" reg); [done|].
        by vm_compute.
Qed.

End ResolverCredentials.

(** The two cases of C2 for the hint [gpt-4o] on a new registry: with no
    credentials at all, and with the [openai] key of the resolver tests. *)
Lemma resolveProvider_credentials_witness :
  Resolver.resolveProvider (Some "gpt-4o")
    (Some (mkMultiProviderConfig ∅ None None))
    Sample.manager
    ProviderRegistry.empty
  = Throw (LLMErr (Resolver.apiKeyNotConfigured "openai"))
  ∧ ∃ p reg',
      Resolver.resolveProvider (Some "gpt-4o")
        (Some (mkMultiProviderConfig
                 {[ "openai" := ConfigManager.keyOnly "sk-openai-key" ]}
                 None None))
        Sample.manager
        ProviderRegistry.empty
      = Return (p, reg')
      ∧ getName p = "openai".
Proof.
  split.
  - apply (proj2 (resolveProvider_credentials (Some "gpt-4o")
                    (Some (mkMultiProviderConfig ∅ None None))
                    Sample.manager
                    ProviderRegistry.empty)
             resolver_managed_empty).
    reflexivity.
  - destruct (proj2 (proj2 (resolveProvider_credentials (Some "gpt-4o")
                (Some (mkMultiProviderConfig
                         {[ "openai" := ConfigManager.keyOnly "sk-openai-key" ]}
                         None None))
                Sample.manager
                ProviderRegistry.empty)
              resolver_managed_empty)
              (ConfigManager.keyOnly "sk-openai-key")
              (lookup_singleton_eq "openai" _) eq_refl)
      as (p & reg' & Hres & Hname & _).
    by exists p, reg'.
Defined.

(** The resolutions without a hint of the resolver tests, on a new
    registry: the configured default, the [qwen] fallback, and no provider
    at all. *)
Example resolveProvider_without_hint :
  (∃ q reg',
      Resolver.resolveProvider None
        (Some (mkMultiProviderConfig
                 {[ "qwen" := ConfigManager.keyOnly "sk-abc" ]}
                 (Some "qwen") None))
        Sample.manager
        ProviderRegistry.empty = Return (Qwen q, reg'))
  ∧ (∃ q reg',
      Resolver.resolveProvider None
        (Some (mkMultiProviderConfig
                 {[ "qwen" := ConfigManager.keyOnly "sk-abc" ]} None None))
        Sample.manager
        ProviderRegistry.empty = Return (Qwen q, reg'))
  ∧ Resolver.resolveProvider None
      (Some (mkMultiProviderConfig ∅ None None))
      Sample.manager
      ProviderRegistry.empty
    = Throw (LLMErr Resolver.noProviderConfigured).
Proof.
  split; [|split].
  - eexists _, _. vm_compute. reflexivity.
  - eexists _, _. vm_compute. reflexivity.
  - vm_compute. reflexivity.
Qed.

(** ** Code generation *)

Section CodeGeneration.
Variable fetch : string → JsMap.t string → QwenProvider.DashScopeRequest
                 → Completion QwenProvider.Response.

Lemma normalized_sendMessage p prompt options :
  QwenProvider.normalized (QwenProvider.sendMessage fetch p prompt options)
  = QwenProvider.sendMessage fetch p prompt options.
Proof.
  destruct (QwenProvider.sendMessage fetch p prompt options) as [r|e] eqn:Hs;
    [done|].
  by destruct (sendMessage_throws_normalized fetch p prompt options e Hs)
    as [err ->].
Qed.

(** When [sendMessage] throws, so does [generateCode], with the same
    normalized error. *)
Lemma generateCode_throws p prompt context e :
  QwenProvider.sendMessage fetch p
    (QwenProvider.enhancedPrompt prompt context)
    QwenProvider.codeGenerationOptions = Throw e →
  QwenProvider.generateCode fetch p prompt context = Throw e.
Proof.
  intros Hs. unfold QwenProvider.generateCode. rewrite Hs. step_bind.
  destruct (sendMessage_throws_normalized fetch p _ _ e Hs) as [err ->].
  reflexivity.
Qed.


End CodeGeneration.


(** Without a file path the same call proposes no change; with a file path
    and no existing code, or empty existing code, the change is a
    [create]. *)
Example generateCode_other_contexts :
  (changes <$> QwenProvider.generateCode Sample.fetch Sample.provider "p"
                 (mkCodeContext None (Some "ts") (Some "x") None None))
  = Return None
  ∧ (changes <$> QwenProvider.generateCode Sample.fetch Sample.provider "p"
                   (mkCodeContext (Some "a.ts") None None None None))
    = Return (Some [mkFileChange "a.ts" create "const x = 1;" None])
  ∧ (changes <$> QwenProvider.generateCode Sample.fetch Sample.provider "p"
                   (mkCodeContext (Some "a.ts") None (Some "") None None))
    = Return (Some [mkFileChange "a.ts" create "const x = 1;" None]).
Proof. repeat split; vm_compute; reflexivity. Qed.

(** ** Strings *)

(** The string operations on small inputs, as JavaScript evaluates them. *)
Example Js_string_operations :
  Js.trim ("  a b " +:+ Js.nl) = "a b"
  ∧ Js.trim (" " +:+ Js.nl) = ""
  ∧ Js.split Js.newline ("a" +:+ Js.nl +:+ Js.nl +:+ "b") = ["a"; ""; "b"]
  ∧ Js.split Js.newline ("a" +:+ Js.nl) = ["a"; ""]
  ∧ Js.split Js.newline "" = [""]
  ∧ Js.join ", " ["qwen"; "openai"] = "qwen, openai"
  ∧ Js.join ", " [] = ""
  ∧ Js.toLowerCase "GPT-4o" = "gpt-4o"
  ∧ Js.slice 6 "data: [DONE]" = "[DONE]"
  ∧ Js.startsWith "data: x" "data: " = true
  ∧ Js.includes "fetch failed" "fetch" = true
  ∧ Js.of_nat 501 = "501"
  ∧ Js.of_nat 0 = "0".
Proof. repeat split; vm_compute; reflexivity. Qed.

Section StringFacts.
Implicit Types (s t u : string) (c : ascii).

Lemma string_app_cons c s t : String c s +:+ t = String c (s +:+ t).
Proof. reflexivity. Qed.

Lemma string_app_nil_l s : EmptyString +:+ s = s.
Proof. reflexivity. Qed.

Lemma string_app_assoc s t u : (s +:+ t) +:+ u = s +:+ (t +:+ u).
Proof.
  induction s as [|c s IH]; [done|]. by rewrite !string_app_cons, IH.
Qed.

Lemma string_app_nil_r s : s +:+ EmptyString = s.
Proof.
  induction s as [|c s IH]; [done|]. by rewrite string_app_cons, IH.
Qed.

Lemma string_app_eq_nil s t :
  s +:+ t = EmptyString → s = EmptyString ∧ t = EmptyString.
Proof. by destruct s. Qed.

Lemma prefix_app p s : String.prefix p (p +:+ s) = true.
Proof.
  induction p as [|c p IH]; [by destruct s|].
  rewrite string_app_cons. simpl.
  destruct (ascii_dec c c); [exact IH|done].
Qed.

Lemma prefix_true p s : String.prefix p s = true → ∃ r, s = p +:+ r.
Proof.
  revert s. induction p as [|c p IH]; intros s; simpl.
  - intros _. by exists s.
  - destruct s as [|d s]; [done|]. simpl.
    destruct (ascii_dec c d) as [->|]; [|done].
    intros Hp. destruct (IH s Hp) as [r ->]. by exists r.
Qed.

Lemma prefix_iff p s : String.prefix p s = true ↔ ∃ r, s = p +:+ r.
Proof.
  split; [apply prefix_true|]. intros [r ->]. apply prefix_app.
Qed.

Lemma split_nonempty sep s : Js.split sep s ≠ [].
Proof.
  destruct s as [|c s]; simpl; [done|].
  destruct (Ascii.eqb c sep); [done|]. by destruct (Js.split sep s).
Qed.

Lemma or_default_empty (o : option string) :
  Js.or_default o EmptyString = default EmptyString o.
Proof. by destruct o as [[|??]|]. Qed.

Lemma or_default_Some s : Js.or_default (Some s) EmptyString = s.
Proof. by destruct s. Qed.

Lemma split_snoc sep s :
  Js.split sep s = removelast (Js.split sep s) ++ [Js.lastSegment sep s].
Proof.
  unfold Js.lastSegment. rewrite or_default_empty.
  pose proof (split_nonempty sep s) as Hne.
  destruct (Js.split sep s) as [|x l] using rev_ind; [done|].
  rewrite removelast_last, last_snoc. done.
Qed.

Lemma removelast_cons_nonempty {A} (x : A) (l : list A) :
  l ≠ [] → removelast (x :: l) = x :: removelast l.
Proof. by destruct l. Qed.

Lemma last_cons_nonempty {A} (x : A) (l : list A) :
  l ≠ [] → last (x :: l) = last l.
Proof. by destruct l. Qed.

(** Splitting a longer text: the complete lines of the first part stay, and
    its last segment is continued by the second part. *)
Lemma split_app sep s t :
  Js.split sep (s +:+ t)
  = removelast (Js.split sep s) ++ Js.split sep (Js.lastSegment sep s +:+ t).
Proof.
  unfold Js.lastSegment. induction s as [|c s IH]; [done|].
  pose proof (split_nonempty sep s) as Hne.
  rewrite string_app_cons. cbn [Js.split].
  destruct (Ascii.eqb c sep) eqn:Hc.
  - rewrite removelast_cons_nonempty, last_cons_nonempty by done.
    by rewrite IH.
  - rewrite IH. destruct (Js.split sep s) as [|h l]; [done|].
    destruct l as [|h' l].
    + cbn [removelast app last]. rewrite !or_default_Some.
      rewrite string_app_cons. cbn [Js.split]. by rewrite Hc.
    + rewrite !removelast_cons_nonempty, !last_cons_nonempty by done.
      done.
Qed.

Lemma split_lastSegment sep s :
  Js.split sep (Js.lastSegment sep s) = [Js.lastSegment sep s].
Proof.
  pose proof (split_app sep s EmptyString) as Happ.
  rewrite !string_app_nil_r in Happ.
  rewrite (split_snoc sep s) in Happ at 1.
  by apply app_inv_head in Happ.
Qed.

End StringFacts.

(** ** Streaming *)

Section StreamFacts.
Variable fetch : string → JsMap.t string → QwenProvider.DashScopeRequest
                 → Completion QwenProvider.Response.
Variable JSON_parse : string → Completion QwenProvider.DashScopeResponse.
Implicit Types (ds : list string) (lines : list string).

Lemma beforeDone_no_sentinel ds :
  "[DONE]" ∉ ds → StreamSpec.beforeDone ds = ds.
Proof.
  induction ds as [|d ds IH]; [done|]. intros Hn.
  apply not_elem_of_cons in Hn as [Hd Hn]. simpl.
  destruct (String.eqb_spec d "[DONE]"); [congruence|]. by rewrite IH.
Qed.

Lemma beforeDone_app_sentinel ds ds' :
  "[DONE]" ∈ ds →
  StreamSpec.beforeDone (ds ++ ds') = StreamSpec.beforeDone ds.
Proof.
  induction ds as [|d ds IH]; intros Hin; [by apply not_elem_of_nil in Hin|].
  simpl. destruct (String.eqb_spec d "[DONE]") as [->|Hd]; [done|].
  apply elem_of_cons in Hin as [?|Hin]; [congruence|]. by rewrite IH.
Qed.

Lemma beforeDone_app_no_sentinel ds ds' :
  "[DONE]" ∉ ds →
  StreamSpec.beforeDone (ds ++ ds') = ds ++ StreamSpec.beforeDone ds'.
Proof.
  induction ds as [|d ds IH]; [done|]. intros Hn.
  apply not_elem_of_cons in Hn as [Hd Hn]. simpl.
  destruct (String.eqb_spec d "[DONE]"); [congruence|]. by rewrite IH.
Qed.

Lemma payloads_app lines lines' :
  StreamSpec.payloads (lines ++ lines')
  = StreamSpec.payloads lines ++ StreamSpec.payloads lines'.
Proof. unfold StreamSpec.payloads. by rewrite filter_app, fmap_app. Qed.

(** The inner loop yields the well-formed payloads before the sentinel, in
    order, and stops exactly when the sentinel is among the payloads. *)
Lemma processLines_spec model lines :
  QwenProvider.processLines JSON_parse model lines
  = (omap (StreamSpec.wellFormed JSON_parse model)
          (StreamSpec.beforeDone (StreamSpec.payloads lines)),
     bool_decide ("[DONE]" ∈ StreamSpec.payloads lines)).
Proof.
  induction lines as [|line lines IH]; [done|].
  cbn [QwenProvider.processLines]. unfold StreamSpec.payloads in *.
  destruct (StreamSpec.isDataLine line) eqn:Hd.
  - assert (String.eqb (Js.trim line) "" || negb (Js.startsWith line "data: ")
            = false) as ->.
    { unfold StreamSpec.isDataLine in Hd.
      apply andb_true_iff in Hd as [H1 H2].
      apply negb_true_iff in H1. by rewrite H1, H2. }
    rewrite filter_cons_True by done. rewrite fmap_cons.
    cbn [StreamSpec.beforeDone].
    destruct (String.eqb_spec (Js.slice 6 line) "[DONE]") as [He|He].
    + rewrite He. rewrite bool_decide_eq_true_2; [done|].
      apply elem_of_cons. by left.
    + rewrite IH. cbn [omap list_omap].
      destruct (_ ≫= _) as [r|e] eqn:Hp.
      * assert (StreamSpec.wellFormed JSON_parse model (Js.slice 6 line)
                = Some r) as ->
          by (unfold StreamSpec.wellFormed; by rewrite Hp).
        f_equal. apply bool_decide_ext. rewrite elem_of_cons.
        intuition congruence.
      * assert (StreamSpec.wellFormed JSON_parse model (Js.slice 6 line)
                = None) as ->
          by (unfold StreamSpec.wellFormed; by rewrite Hp).
        f_equal. apply bool_decide_ext. rewrite elem_of_cons.
        intuition congruence.
  - assert (String.eqb (Js.trim line) "" || negb (Js.startsWith line "data: ")
            = true) as ->.
    { unfold StreamSpec.isDataLine in Hd.
      apply andb_false_iff in Hd as [H1|H2].
      - apply negb_false_iff in H1. by rewrite H1.
      - rewrite H2. by rewrite orb_true_r. }
    rewrite filter_cons_False; [exact IH|]. by rewrite Hd.
Qed.

Lemma completeLines_app s t :
  StreamSpec.completeLines (s +:+ t)
  = StreamSpec.completeLines s
    ++ StreamSpec.completeLines (Js.lastSegment Js.newline s +:+ t).
Proof.
  unfold StreamSpec.completeLines. rewrite split_app.
  apply removelast_app, split_nonempty.
Qed.

(** The read loop, started on a buffer that holds no complete line, yields
    what the specification says of the buffer followed by all chunks, and
    ends normally. *)
Lemma readLoop_spec model chunks buffer :
  Js.split Js.newline buffer = [buffer] →
  QwenProvider.readLoop JSON_parse model (Return <$> chunks) buffer
  = (omap (StreamSpec.wellFormed JSON_parse model)
          (StreamSpec.beforeDone
             (StreamSpec.payloads
                (StreamSpec.completeLines
                   (buffer +:+ StreamSpec.received chunks)))),
     Return tt).
Proof.
  revert buffer. induction chunks as [|chunk chunks IH]; intros buffer Hb.
  - simpl. rewrite string_app_nil_r. unfold StreamSpec.completeLines.
    by rewrite Hb.
  - rewrite fmap_cons. cbn [QwenProvider.readLoop StreamSpec.received foldr].
    fold (StreamSpec.received chunks).
    rewrite <- string_app_assoc, completeLines_app, payloads_app.
    fold (Js.lastSegment Js.newline (buffer +:+ chunk)).
    fold (StreamSpec.completeLines (buffer +:+ chunk)).
    rewrite processLines_spec.
    case_bool_decide as Hdone.
    + by rewrite beforeDone_app_sentinel.
    + rewrite IH by apply split_lastSegment.
      rewrite beforeDone_app_no_sentinel by done.
      rewrite omap_app. by rewrite beforeDone_no_sentinel.
Qed.

(** C7.  When the request is answered with a streamed body whose reads all
    succeed, [streamResponse] ends without raising and yields, in order, the
    normalized response of every well-formed data payload among the complete
    lines received before the end sentinel [[DONE]]: payloads that do not
    parse, or hold no first choice with a message, are skipped, and nothing
    is yielded from the sentinel on. *)
Theorem streamResponse_yields_wellformed_chunks
    (p : QwenProvider.t) (prompt : string) (options : GenerationOptions)
    (response : QwenProvider.Response) (chunks : list string) :
  QwenProvider.makeRequest fetch p
    (QwenProvider.formatRequest prompt (QwenProvider.withStream options))
    true = Return response →
  QwenProvider.ok response = true →
  QwenProvider.body response = Some (Return <$> chunks) →
  QwenProvider.streamResponse fetch JSON_parse p prompt options
  = (StreamSpec.expectedYields JSON_parse
       (Js.or_default (opt_model options) "qwen-turbo") chunks,
     Return tt).
Proof.
  intros Hreq Hok Hbody. unfold QwenProvider.streamResponse.
  rewrite Hreq, Hok, Hbody. cbn [negb].
  rewrite readLoop_spec by done. by rewrite string_app_nil_l.
Qed.

End StreamFacts.

(** A stream with a corrupt payload between valid ones, cut in the middle
    of a line: [A] and [B] are yielded in order, the corrupt payload raises
    nothing, and [C], after the sentinel, is not yielded. *)
Lemma streamResponse_yields_wellformed_chunks_witness :
  QwenProvider.streamResponse Sample.streamFetch Sample.parseChunk
    Sample.provider "hello" (mkGenerationOptions None None None None None None)
  = ([Sample.chunkResponse "a"; Sample.chunkResponse "b"], Return tt).
Proof.
  rewrite (streamResponse_yields_wellformed_chunks
             Sample.streamFetch Sample.parseChunk Sample.provider "hello"
             (mkGenerationOptions None None None None None None)
             (QwenProvider.mkResponse 200
                (Throw (JsError "SyntaxError" "Unexpected token"))
                (Some (Return <$> Sample.streamChunks)))
             Sample.streamChunks eq_refl eq_refl eq_refl).
  vm_compute. reflexivity.
Defined.

(** ** Code extraction *)

Section ExtractFacts.
Implicit Types (s b w rest : string).

Lemma untilFence_eq s :
  QwenProvider.untilFence s
  = if String.prefix Js.fence s then Some EmptyString
    else match s with
         | EmptyString => None
         | String c r => String c <$> QwenProvider.untilFence r
         end.
Proof. by destruct s. Qed.

Lemma firstMatch_eq s :
  QwenProvider.firstMatch s
  = match QwenProvider.matchAt s with
    | Some block => Some block
    | None =>
        match s with
        | EmptyString => None
        | String _ r => QwenProvider.firstMatch r
        end
    end.
Proof. by destruct s. Qed.

Lemma lazy_capture_nil rest : FenceSpec.lazy_capture EmptyString rest.
Proof.
  intros b1 b2 Hb Hne. symmetry in Hb.
  by apply string_app_eq_nil in Hb as [_ ?].
Qed.

Lemma lazy_capture_cons c b rest :
  String.prefix Js.fence (String c b +:+ Js.fence +:+ rest) = false →
  FenceSpec.lazy_capture b rest →
  FenceSpec.lazy_capture (String c b) rest.
Proof.
  intros Hp Hl b1 b2 Hb Hne. destruct b1 as [|d b1].
  - rewrite string_app_nil_l in Hb. by subst b2.
  - rewrite string_app_cons in Hb. injection Hb as -> ->.
    by apply (Hl b1 b2).
Qed.

Lemma lazy_capture_tail c b rest :
  FenceSpec.lazy_capture (String c b) rest →
  String.prefix Js.fence (String c b +:+ Js.fence +:+ rest) = false
  ∧ FenceSpec.lazy_capture b rest.
Proof.
  intros Hl. split.
  - by apply (Hl EmptyString (String c b)).
  - intros b1 b2 -> Hne. by apply (Hl (String c b1) b2).
Qed.

(** The lazy capture: [untilFence] returns [b] exactly when the text is [b]
    followed by a fence and no fence starts earlier. *)
Lemma untilFence_spec s b :
  QwenProvider.untilFence s = Some b
  ↔ ∃ rest, s = b +:+ Js.fence +:+ rest ∧ FenceSpec.lazy_capture b rest.
Proof.
  split.
  - revert b. induction s as [|c s IH]; intros b; rewrite untilFence_eq.
    + done.
    + destruct (String.prefix Js.fence (String c s)) eqn:Hp.
      * intros [= <-]. apply prefix_true in Hp as [rest Hrest].
        exists rest. split; [done|apply lazy_capture_nil].
      * destruct (QwenProvider.untilFence s) as [b'|] eqn:Hu; [|done].
        intros [= <-]. destruct (IH b' eq_refl) as (rest & -> & Hl).
        exists rest. split; [done|]. by apply lazy_capture_cons.
  - intros (rest & -> & Hl). induction b as [|c b IH].
    + rewrite untilFence_eq, string_app_nil_l. by rewrite prefix_app.
    + apply lazy_capture_tail in Hl as [Hp Hl].
      rewrite untilFence_eq, Hp, string_app_cons. by rewrite (IH Hl).
Qed.

Lemma skipWord_decompose s :
  ∃ w, s = w +:+ QwenProvider.skipWord s ∧ FenceSpec.all_word w = true.
Proof.
  induction s as [|c s (w & Hs & Hw)]; [by exists EmptyString|].
  simpl. destruct (Js.is_word c) eqn:Hc.
  - exists (String c w). rewrite string_app_cons, <- Hs. split; [done|].
    simpl. by rewrite Hc.
  - by exists EmptyString.
Qed.

Lemma skipWord_word_prefix w c r :
  FenceSpec.all_word w = true → Js.is_word c = false →
  QwenProvider.skipWord (w +:+ String c r) = String c r.
Proof.
  intros Hw Hc. induction w as [|d w IH].
  - rewrite string_app_nil_l. simpl. by rewrite Hc.
  - simpl in Hw. apply andb_true_iff in Hw as [Hd Hw].
    rewrite string_app_cons. simpl. rewrite Hd. by apply IH.
Qed.

(** The expression matched at the start of a text is a fenced block in the
    sense of the specification. *)
Lemma matchAt_spec s b :
  QwenProvider.matchAt s = Some b ↔ FenceSpec.fenced_at s b.
Proof.
  unfold QwenProvider.matchAt, FenceSpec.fenced_at. split.
  - destruct (String.prefix Js.fence s) eqn:Hp; [|done].
    apply prefix_true in Hp as [s1 ->].
    change (Js.slice 3 (Js.fence +:+ s1)) with s1.
    destruct (skipWord_decompose s1) as (w & Hs1 & Hw).
    destruct (QwenProvider.skipWord s1) as [|c r]; [done|].
    destruct (Ascii.eqb_spec c Js.newline) as [->|]; [|done].
    intros Hu. apply untilFence_spec in Hu as (rest & -> & Hl).
    exists w, rest. by rewrite Hs1.
  - intros (w & rest & -> & Hw & Hl). rewrite prefix_app.
    change (Js.slice 3 (Js.fence +:+ ?x)) with x.
    change (Js.nl +:+ ?x) with (String Js.newline x).
    rewrite skipWord_word_prefix by done.
    rewrite Ascii.eqb_refl. apply untilFence_spec. by exists rest.
Qed.

(** [firstMatch] finds the capture of the leftmost fenced block. *)
Lemma firstMatch_spec s b :
  QwenProvider.firstMatch s = Some b ↔ FenceSpec.first_fenced s b.
Proof.
  unfold FenceSpec.first_fenced. split.
  - revert b. induction s as [|c s IH]; intros b; rewrite firstMatch_eq.
    + destruct (QwenProvider.matchAt EmptyString) as [b0|] eqn:Hm; [|done].
      intros [= ->]. exists EmptyString, EmptyString.
      split; [done|]. split; [by apply matchAt_spec|].
      intros p1 p2 Hp Hne. symmetry in Hp.
      by apply string_app_eq_nil in Hp as [_ ?].
    + destruct (QwenProvider.matchAt (String c s)) as [b0|] eqn:Hm.
      * intros [= ->]. exists EmptyString, (String c s).
        split; [done|]. split; [by apply matchAt_spec|].
        intros p1 p2 Hp Hne. symmetry in Hp.
        by apply string_app_eq_nil in Hp as [_ ?].
      * intros Hf. destruct (IH b Hf) as (pre & suf & -> & Hfa & Hmin).
        exists (String c pre), suf. split; [done|]. split; [done|].
        intros p1 p2 Hp Hne b' Hb'. destruct p1 as [|d p1].
        -- rewrite string_app_nil_l in Hp. subst p2.
           apply matchAt_spec in Hb'. rewrite string_app_cons in Hb'.
           congruence.
        -- rewrite string_app_cons in Hp. injection Hp as -> ->.
           by apply (Hmin p1 p2 eq_refl Hne b').
  - intros (pre & suf & -> & Hfa & Hmin).
    induction pre as [|c pre IH].
    + rewrite string_app_nil_l, firstMatch_eq.
      apply matchAt_spec in Hfa. by rewrite Hfa.
    + rewrite string_app_cons, firstMatch_eq.
      destruct (QwenProvider.matchAt (String c (pre +:+ suf))) as [b0|] eqn:Hm.
      * exfalso. apply matchAt_spec in Hm.
        by apply (Hmin EmptyString (String c pre) eq_refl ltac:(done) b0).
      * apply IH. intros p1 p2 -> Hne b'.
        by apply (Hmin (String c p1) p2 eq_refl Hne b').
Qed.

Lemma firstMatch_complete pre suf b :
  FenceSpec.fenced_at suf b →
  is_Some (QwenProvider.firstMatch (pre +:+ suf)).
Proof.
  intros Hfa. induction pre as [|c pre IH].
  - rewrite string_app_nil_l, firstMatch_eq.
    apply matchAt_spec in Hfa. rewrite Hfa. by eexists.
  - rewrite string_app_cons, firstMatch_eq.
    destruct (QwenProvider.matchAt _); [by eexists|exact IH].
Qed.

Lemma firstMatch_None s :
  QwenProvider.firstMatch s = None ↔ FenceSpec.no_fenced s.
Proof.
  split.
  - intros Hn pre suf b -> Hfa.
    destruct (firstMatch_complete pre suf b Hfa) as [b' Hb']. congruence.
  - intros Hno. destruct (QwenProvider.firstMatch s) as [b|] eqn:Hf; [|done].
    apply firstMatch_spec in Hf as (pre & suf & -> & Hfa & _).
    by destruct (Hno pre suf b eq_refl).
Qed.

(** Without a line that starts with a fence the line scan collects
    nothing. *)
Lemma scanLines_no_fence_line inCode lines :
  inCode = false →
  (∀ line, line ∈ lines → Js.startsWith (Js.trim line) Js.fence = false) →
  QwenProvider.scanLines inCode lines = [].
Proof.
  intros -> Hl. induction lines as [|line lines IH]; [done|]. simpl.
  rewrite (Hl line) by (apply elem_of_cons; by left).
  apply IH. intros l Hin. apply Hl. apply elem_of_cons. by right.
Qed.

(** C6, as the code has it.  Every content either has a leftmost fenced
    block (a fence, optional word characters, a line feed, a lazy capture
    and the next fence) or has none.  If it has one, the result is its
    capture, trimmed.  If it has none and no language is given, the result
    is the full trimmed content.  If it has none and a language is given,
    the lines are scanned with a flag that every line starting with a
    fence toggles: the lines collected while the flag is on, if any, are
    joined and trimmed; if there are none, in particular when no line starts
    with a fence, the result is the full trimmed content. *)
Theorem extractCodeFromResponse_tiers
    (content : string) (language : option string) :
  ((∃ b, FenceSpec.first_fenced content b) ∨ FenceSpec.no_fenced content)
  ∧ (∀ b, FenceSpec.first_fenced content b →
          QwenProvider.extractCodeFromResponse content language = Js.trim b)
  ∧ (FenceSpec.no_fenced content →
     (Js.truthy language = false →
      QwenProvider.extractCodeFromResponse content language
      = Js.trim content)
     ∧ (Js.truthy language = true →
        QwenProvider.scanLines false (Js.split Js.newline content) ≠ [] →
        QwenProvider.extractCodeFromResponse content language
        = Js.trim (Js.join Js.nl
                     (QwenProvider.scanLines false
                        (Js.split Js.newline content))))
     ∧ (Js.truthy language = true →
        QwenProvider.scanLines false (Js.split Js.newline content) = [] →
        QwenProvider.extractCodeFromResponse content language
        = Js.trim content)
     ∧ ((∀ line, line ∈ Js.split Js.newline content →
                 Js.startsWith (Js.trim line) Js.fence = false) →
        QwenProvider.extractCodeFromResponse content language
        = Js.trim content)).
Proof.
  split; [|split].
  - destruct (QwenProvider.firstMatch content) as [b|] eqn:Hf.
    + left. exists b. by apply firstMatch_spec.
    + right. by apply firstMatch_None.
  - intros b Hb. apply firstMatch_spec in Hb.
    unfold QwenProvider.extractCodeFromResponse. by rewrite Hb.
  - intros Hno. apply firstMatch_None in Hno.
    unfold QwenProvider.extractCodeFromResponse. rewrite Hno.
    split; [by intros ->|]. split; [|split].
    + intros ->. by destruct (QwenProvider.scanLines _ _).
    + by intros -> ->.
    + intros Hl. destruct (Js.truthy language); [|done].
      by rewrite scanLines_no_fence_line.
Qed.

End ExtractFacts.

(** C6 as stated fails.  In [Sample.spacedFences] no fenced block of the
    expression exists, since a space follows every fence; with a language
    given the result is nevertheless not the full trimmed content: it is
    [foo] and [baz] joined, the lines of two different fence pairs, which is
    not the text between the first pair of fences either. *)
Lemma extractCodeFromResponse_joins_scanned_lines :
  FenceSpec.no_fenced Sample.spacedFences
  ∧ QwenProvider.extractCodeFromResponse Sample.spacedFences (Some "ts")
    = "foo" +:+ Js.nl +:+ "baz"
  ∧ QwenProvider.extractCodeFromResponse Sample.spacedFences (Some "ts")
    ≠ Js.trim Sample.spacedFences
  ∧ QwenProvider.extractCodeFromResponse Sample.spacedFences (Some "ts")
    ≠ "foo".
Proof.
  split; [by apply firstMatch_None|].
  split; [reflexivity|]. split; vm_compute; discriminate.
Qed.

(** Further runs of the extraction: a closed fenced block, an open fence
    with and without a language, and the same three fence lines without a
    language. *)
Example extractCodeFromResponse_runs :
  QwenProvider.extractCodeFromResponse Sample.fencedText None = "const x = 1;"
  ∧ QwenProvider.extractCodeFromResponse Sample.openFence (Some "ts") = "abc"
  ∧ QwenProvider.extractCodeFromResponse Sample.openFence None
    = Sample.openFence
  ∧ QwenProvider.extractCodeFromResponse Sample.spacedFences None
    = Sample.spacedFences.
Proof. repeat split; vm_compute; reflexivity. Qed.

(** * Further properties of the code *)

(** ** Insertion-ordered maps: keys *)

Section JsMapKeys.
Context {V : Type}.
Implicit Types (m : JsMap.t V) (k : string) (v : V).

Lemma JsMap_get_None_keys m k : JsMap.get k m = None ↔ k ∉ JsMap.keys m.
Proof.
  unfold JsMap.keys. induction m as [|[k' v'] m IH]; simpl.
  - split; [intros _; apply not_elem_of_nil|done].
  - rewrite not_elem_of_cons. destruct (String.eqb_spec k k') as [->|Hne].
    + split; [done|]. by intros [? _].
    + rewrite IH. tauto.
Qed.

Lemma JsMap_has_keys m k : JsMap.has k m = true ↔ k ∈ JsMap.keys m.
Proof.
  unfold JsMap.has. destruct (JsMap.get k m) as [v|] eqn:Hg.
  - split; [intros _|done].
    destruct (decide (k ∈ JsMap.keys m)) as [|Hn]; [done|].
    apply JsMap_get_None_keys in Hn. congruence.
  - split; [done|]. intros Hin. by apply JsMap_get_None_keys in Hg.
Qed.

Lemma JsMap_keys_set m k v :
  JsMap.keys (JsMap.set k v m)
  = if JsMap.has k m then JsMap.keys m else JsMap.keys m ++ [k].
Proof.
  unfold JsMap.keys, JsMap.has. induction m as [|[k' v'] m IH]; simpl; [done|].
  destruct (String.eqb_spec k k') as [->|Hne]; simpl; [done|].
  rewrite IH. by destruct (JsMap.get k m).
Qed.

Lemma filter_ne_notin (l : list string) k :
  k ∉ l → filter (fun n => n ≠ k) l = l.
Proof.
  induction l as [|x l IH]; [done|]. intros Hn.
  apply not_elem_of_cons in Hn as [Hx Hn].
  rewrite filter_cons_True by done. by rewrite IH.
Qed.

Lemma JsMap_keys_delete m k :
  NoDup (JsMap.keys m) →
  JsMap.keys (JsMap.delete k m) = filter (fun n => n ≠ k) (JsMap.keys m).
Proof.
  unfold JsMap.keys. induction m as [|[k' v'] m IH]; simpl; [done|].
  intros Hnd. apply NoDup_cons in Hnd as [Hk' Hnd].
  destruct (String.eqb_spec k k') as [->|Hne]; simpl.
  - rewrite filter_cons_False by (intros Hx; by apply Hx).
    by rewrite filter_ne_notin.
  - rewrite filter_cons_True by done. by rewrite IH.
Qed.

Lemma JsMap_NoDup_set m k v :
  NoDup (JsMap.keys m) → NoDup (JsMap.keys (JsMap.set k v m)).
Proof.
  intros Hnd. rewrite JsMap_keys_set.
  destruct (JsMap.has k m) eqn:Hh; [done|].
  apply NoDup_app. split; [done|]. split; [|apply NoDup_singleton].
  intros x Hx Hx'. apply list_elem_of_singleton in Hx' as ->.
  apply JsMap_has_keys in Hx. congruence.
Qed.

Lemma JsMap_NoDup_delete m k :
  NoDup (JsMap.keys m) → NoDup (JsMap.keys (JsMap.delete k m)).
Proof.
  intros Hnd. rewrite JsMap_keys_delete by done. by apply NoDup_filter.
Qed.

Lemma JsMap_get_delete_eq m k :
  NoDup (JsMap.keys m) → JsMap.get k (JsMap.delete k m) = None.
Proof.
  intros Hnd. apply JsMap_get_None_keys.
  rewrite JsMap_keys_delete by done.
  intros Hin. apply list_elem_of_filter in Hin as [Hne _]. by apply Hne.
Qed.

End JsMapKeys.

(** ** White space and blank names *)

Section TrimFacts.
Implicit Types (s : string) (c : ascii).

Lemma all_whitespace_nil : all_whitespace EmptyString.
Proof. constructor. Qed.

Lemma all_whitespace_cons c s :
  all_whitespace (String c s) ↔ Js.is_whitespace c = true ∧ all_whitespace s.
Proof.
  unfold all_whitespace. simpl. split.
  - intros Hf. by inversion Hf.
  - intros [? ?]. by constructor.
Qed.

Lemma trimStart_nil s : Js.trimStart s = EmptyString ↔ all_whitespace s.
Proof.
  induction s as [|c s IH]; simpl.
  - split; [intros _; apply all_whitespace_nil|done].
  - rewrite all_whitespace_cons. destruct (Js.is_whitespace c).
    + rewrite IH. tauto.
    + split; [done|]. by intros [? _].
Qed.

Lemma trimEnd_nil s : Js.trimEnd s = EmptyString ↔ all_whitespace s.
Proof.
  induction s as [|c s IH]; simpl.
  - split; [intros _; apply all_whitespace_nil|done].
  - rewrite all_whitespace_cons. destruct (Js.trimEnd s) as [|d t].
    + destruct (Js.is_whitespace c); [|split; [done|by intros [? _]]].
      split; [intros _; split; [done|by apply IH]|done].
    + split; [done|]. intros [_ Hs]. by apply IH in Hs.
Qed.

Lemma trimStart_head s c t :
  Js.trimStart s = String c t → Js.is_whitespace c = false.
Proof.
  induction s as [|d s IH]; simpl; [done|].
  destruct (Js.is_whitespace d) eqn:Hd; [exact IH|]. by intros [= <- _].
Qed.

Lemma trim_nil s : Js.trim s = EmptyString ↔ all_whitespace s.
Proof.
  unfold Js.trim. rewrite trimEnd_nil.
  destruct (Js.trimStart s) as [|c t] eqn:Ht.
  - apply trimStart_nil in Ht. split; [done|intros _; apply all_whitespace_nil].
  - split.
    + rewrite all_whitespace_cons. intros [Hc _].
      by rewrite (trimStart_head _ _ _ Ht) in Hc.
    + intros Hs. apply trimStart_nil in Hs. congruence.
Qed.

Lemma blank_all_whitespace name :
  ProviderRegistry.blank name = true ↔ all_whitespace name.
Proof.
  unfold ProviderRegistry.blank. rewrite orb_true_iff, Nat.eqb_eq.
  split.
  - intros [Hn | Hl].
    + destruct name; [apply all_whitespace_nil|done].
    + apply trim_nil. by destruct (Js.trim name).
  - intros Hs. apply trim_nil in Hs. rewrite Hs. by right.
Qed.

End TrimFacts.

(** ** More on the registry *)

Section RegistryMore.
Context {P : Type} `{LLMProvider P}.
Implicit Types (r : ProviderRegistry.t P) (p : P) (name : string).

Lemma unindex_models_lookup (idx : gmap string string) name
    (models : list string) M :
  foldl (fun i model =>
           if bool_decide (i !! model = Some name)
           then base.delete model i else i) idx models !! M
  = if bool_decide (M ∈ models ∧ idx !! M = Some name)
    then None else idx !! M.
Proof.
  revert idx. induction models as [|x l IH]; intros idx; cbn [foldl].
  - case_bool_decide as Hc; [|done]. destruct Hc as [Hc _].
    by apply not_elem_of_nil in Hc.
  - rewrite IH. clear IH.
    assert ((if bool_decide (idx !! x = Some name)
             then base.delete x idx else idx) !! M
            = if bool_decide (M = x ∧ idx !! M = Some name)
              then None else idx !! M) as ->.
    { case_bool_decide as Hx.
      - destruct (decide (M = x)) as [->|Hne].
        + rewrite lookup_delete_eq. by rewrite bool_decide_eq_true_2.
        + rewrite lookup_delete_ne by done.
          rewrite bool_decide_eq_false_2; [done|]. by intros [? _].
      - rewrite bool_decide_eq_false_2; [done|]. intros [-> ?]. done. }
    destruct (decide (idx !! M = Some name)) as [Hs|Hs].
    + destruct (decide (M = x)) as [->|Hne].
      * rewrite (bool_decide_eq_true_2 (x = x ∧ _)) by done.
        rewrite bool_decide_eq_false_2 by (by intros [_ ?]).
        rewrite bool_decide_eq_true_2; [done|].
        split; [apply elem_of_cons; by left|done].
      * rewrite (bool_decide_eq_false_2 (M = x ∧ _)) by (by intros [? _]).
        apply (f_equal (fun b : bool => if b then None else idx !! M)).
        apply bool_decide_ext. rewrite elem_of_cons. tauto.
    + rewrite (bool_decide_eq_false_2 (M = x ∧ _)) by (by intros [_ ?]).
      rewrite !bool_decide_eq_false_2; [done| |]; by intros [_ ?].
Qed.

Lemma registry_names_wf_empty :
  registry_names_wf (@ProviderRegistry.empty P).
Proof. split; [apply NoDup_nil_2|done]. Qed.

Lemma step_names_wf r op :
  registry_names_wf r → registry_names_wf (ProviderRegistry.step r op).
Proof.
  intros [Hnd Hbl]. destruct op as [[p|] name|name|name|]; simpl.
  - unfold ProviderRegistry.register.
    destruct (ProviderRegistry.blank name) eqn:Hb; [done|].
    split; simpl; [by apply JsMap_NoDup_set|].
    intros n Hn. apply JsMap_has_keys in Hn. rewrite JsMap_keys_set in Hn.
    destruct (JsMap.has name _) eqn:Hh.
    + apply Hbl. by apply JsMap_has_keys.
    + apply elem_of_app in Hn as [Hn|Hn].
      * apply Hbl. by apply JsMap_has_keys.
      * by apply list_elem_of_singleton in Hn as ->.
  - done.
  - unfold ProviderRegistry.unregister.
    destruct (JsMap.get name _); [|done]. split; simpl.
    + by apply JsMap_NoDup_delete.
    + intros n Hn. apply Hbl. apply JsMap_has_keys.
      apply JsMap_has_keys in Hn. rewrite JsMap_keys_delete in Hn by done.
      by apply list_elem_of_filter in Hn as [_ ?].
  - unfold ProviderRegistry.setDefault.
    by destruct (negb (ProviderRegistry.has name r)).
  - apply registry_names_wf_empty.
Qed.

Lemma run_names_wf ops r :
  registry_names_wf r → registry_names_wf (ProviderRegistry.run ops r).
Proof.
  revert r. induction ops as [|op ops IH]; intros r Hwf; [done|].
  simpl. apply IH. by apply step_names_wf.
Qed.

End RegistryMore.

Section RegistryExtras.
Context {P : Type} `{LLMProvider P}.
Implicit Types (r : ProviderRegistry.t P) (p : P) (name : string).

Lemma getDefault_set r name :
  ProviderRegistry.blank name = false →
  ProviderRegistry.defaultProviderName r = Some name →
  ProviderRegistry.getDefault r = ProviderRegistry.get name r.
Proof.
  intros Hb Hd. unfold ProviderRegistry.getDefault. rewrite Hd.
  by rewrite (blank_false_nonempty _ Hb).
Qed.

Lemma run_app (ops ops' : list (ProviderRegistry.Op P)) r :
  ProviderRegistry.run (ops ++ ops') r
  = ProviderRegistry.run ops' (ProviderRegistry.run ops r).
Proof. apply foldl_app. Qed.

(** X1.  In a registry built by its operations, [unregister(name)] returns
    whether [name] was registered; afterwards [name] is not registered, every
    other name holds what it held, and [list()] is the former list without
    [name], in the same order. *)
Theorem unregister_removes_name
    (ops : list (ProviderRegistry.Op P)) (name : string) :
  (ProviderRegistry.unregister name
     (ProviderRegistry.run ops ProviderRegistry.empty)).1
  = ProviderRegistry.has name (ProviderRegistry.run ops ProviderRegistry.empty)
  ∧ ProviderRegistry.get name
      (ProviderRegistry.unregister name
         (ProviderRegistry.run ops ProviderRegistry.empty)).2 = None
  ∧ (∀ n, n ≠ name →
       ProviderRegistry.get n
         (ProviderRegistry.unregister name
            (ProviderRegistry.run ops ProviderRegistry.empty)).2
       = ProviderRegistry.get n
           (ProviderRegistry.run ops ProviderRegistry.empty))
  ∧ ProviderRegistry.list
      (ProviderRegistry.unregister name
         (ProviderRegistry.run ops ProviderRegistry.empty)).2
    = filter (fun n => n ≠ name)
        (ProviderRegistry.list
           (ProviderRegistry.run ops ProviderRegistry.empty)).
Proof.
  pose proof (run_names_wf ops _ registry_names_wf_empty) as [Hnd _].
  set (r := ProviderRegistry.run ops ProviderRegistry.empty) in *.
  unfold ProviderRegistry.unregister, ProviderRegistry.has, JsMap.has,
    ProviderRegistry.get, ProviderRegistry.list.
  destruct (JsMap.get name (ProviderRegistry.reg_providers r)) as [p|] eqn:Hg;
    simpl.
  - split; [done|]. split; [by apply JsMap_get_delete_eq|].
    split; [intros n Hn; by apply JsMap_get_delete_ne|].
    by apply JsMap_keys_delete.
  - split; [done|]. split; [done|]. split; [done|].
    symmetry. apply filter_ne_notin. by apply JsMap_get_None_keys.
Qed.

(** X2.  [unregister(name)] of a registered provider removes from the model
    index exactly the entries of the models the provider lists now that
    point at [name]: an entry of such a model that points at another name
    (a collision the other provider won) stays, and so does every entry of
    a model the provider does not list, a stale one included. *)
Theorem unregister_model_index (r : ProviderRegistry.t P) (name : string)
    (p : P) (M : string) :
  ProviderRegistry.get name r = Some p →
  ProviderRegistry.modelToProvider (ProviderRegistry.unregister name r).2 !! M
  = if bool_decide (M ∈ getSupportedModels p
                    ∧ ProviderRegistry.modelToProvider r !! M = Some name)
    then None else ProviderRegistry.modelToProvider r !! M.
Proof.
  unfold ProviderRegistry.get, ProviderRegistry.unregister. intros ->.
  simpl. apply unindex_models_lookup.
Qed.

(** X3.  In a registry built by its operations no name is listed twice, the
    listed names are exactly the registered ones and none is blank; and
    registering under a name that is already registered leaves [list()] as
    it is, while a new name goes to its end. *)
Theorem list_keeps_registration_order
    (ops : list (ProviderRegistry.Op P)) (p : P) (name : string) :
  NoDup (ProviderRegistry.list
           (ProviderRegistry.run ops ProviderRegistry.empty))
  ∧ (∀ n, n ∈ ProviderRegistry.list
                (ProviderRegistry.run ops ProviderRegistry.empty)
          ↔ ProviderRegistry.has n
              (ProviderRegistry.run ops ProviderRegistry.empty) = true)
  ∧ (∀ n, n ∈ ProviderRegistry.list
                (ProviderRegistry.run ops ProviderRegistry.empty)
          → ¬ all_whitespace n)
  ∧ ProviderRegistry.list
      (ProviderRegistry.run
         (ops ++ [ProviderRegistry.OpRegister (Some p) name])
         ProviderRegistry.empty)
    = if ProviderRegistry.blank name
         || ProviderRegistry.has name
              (ProviderRegistry.run ops ProviderRegistry.empty)
      then ProviderRegistry.list
             (ProviderRegistry.run ops ProviderRegistry.empty)
      else ProviderRegistry.list
             (ProviderRegistry.run ops ProviderRegistry.empty) ++ [name].
Proof.
  pose proof (run_names_wf ops _ registry_names_wf_empty) as [Hnd Hbl].
  rewrite run_app.
  set (r := ProviderRegistry.run ops ProviderRegistry.empty) in *.
  split; [exact Hnd|]. split; [|split].
  - intros n. symmetry. apply JsMap_has_keys.
  - intros n Hn Hws. apply blank_all_whitespace in Hws.
    apply JsMap_has_keys in Hn. apply Hbl in Hn. congruence.
  - cbn [ProviderRegistry.run foldl ProviderRegistry.step].
    unfold ProviderRegistry.register.
    destruct (ProviderRegistry.blank name); [done|]. simpl.
    unfold ProviderRegistry.list, ProviderRegistry.has. simpl.
    apply JsMap_keys_set.
Qed.

(** X4.  In a registry built by its operations, [setDefault(name)] throws
    exactly when [name] is not registered.  Once it is set, [getDefault()]
    is the provider registered under [name]; the default follows the name:
    registering another provider under it makes that one the default,
    unregistering it leaves no default, unregistering another name leaves
    the default as it is. *)
Theorem default_follows_name
    (ops : list (ProviderRegistry.Op P)) (name : string) :
  (ProviderRegistry.has name
     (ProviderRegistry.run ops ProviderRegistry.empty) = false →
   ProviderRegistry.setDefault name
     (ProviderRegistry.run ops ProviderRegistry.empty)
   = Throw (Error ("Provider " +:+ Js.dquote +:+ name +:+ Js.dquote
                   +:+ " is not registered")))
  ∧ (ProviderRegistry.has name
       (ProviderRegistry.run ops ProviderRegistry.empty) = true →
     ∃ r',
       ProviderRegistry.setDefault name
         (ProviderRegistry.run ops ProviderRegistry.empty) = Return r'
       ∧ is_Some (ProviderRegistry.getDefault r')
       ∧ ProviderRegistry.getDefault r'
         = ProviderRegistry.get name
             (ProviderRegistry.run ops ProviderRegistry.empty)
       ∧ (∀ p', ∃ r'',
             ProviderRegistry.register (Some p') name r' = Return r''
             ∧ ProviderRegistry.getDefault r'' = Some p')
       ∧ ProviderRegistry.getDefault
           (ProviderRegistry.unregister name r').2 = None
       ∧ (∀ n, n ≠ name →
             ProviderRegistry.getDefault (ProviderRegistry.unregister n r').2
             = ProviderRegistry.getDefault r')).
Proof.
  pose proof (run_names_wf ops _ registry_names_wf_empty) as [Hnd Hbl].
  set (r := ProviderRegistry.run ops ProviderRegistry.empty) in *.
  unfold ProviderRegistry.setDefault. split; [by intros ->|].
  intros Hhas. rewrite Hhas. cbn [negb]. eexists. split; [reflexivity|].
  pose proof (Hbl name Hhas) as Hb.
  set (r' := ProviderRegistry.mk _ _ _).
  assert (ProviderRegistry.getDefault r' = ProviderRegistry.get name r) as Hgd.
  { by rewrite (getDefault_set r' name Hb eq_refl). }
  split; [rewrite Hgd; by apply JsMap_has_get|]. split; [exact Hgd|].
  split; [|split].
  - intros p'. rewrite (register_return r' p' name Hb).
    eexists. split; [reflexivity|].
    rewrite (getDefault_set _ name Hb) by reflexivity.
    apply JsMap_get_set_eq.
  - unfold ProviderRegistry.unregister. simpl.
    apply JsMap_has_get in Hhas as [p Hp]. rewrite Hp. simpl.
    unfold ProviderRegistry.getDefault. simpl.
    by rewrite bool_decide_eq_true_2.
  - intros n Hn. unfold ProviderRegistry.unregister. simpl.
    destruct (JsMap.get n (ProviderRegistry.reg_providers r)) as [q|] eqn:Hq;
      [|done].
    simpl. unfold ProviderRegistry.getDefault. simpl.
    rewrite bool_decide_eq_false_2 by congruence.
    rewrite (blank_false_nonempty _ Hb). by apply JsMap_get_delete_ne.
Qed.

(** X5.  [register] throws exactly when the provider is absent or the name
    consists of white space only (the empty name included); for every other
    name it returns, whatever the registry holds, and the name then holds
    the provider. *)
Theorem register_refuses_blank_names
    (r : ProviderRegistry.t P) (p : P) (name : string) :
  ProviderRegistry.register None name r
  = Throw (Error "Provider cannot be null or undefined")
  ∧ (all_whitespace name →
     ProviderRegistry.register (Some p) name r
     = Throw (Error "Provider name cannot be empty"))
  ∧ (¬ all_whitespace name →
     ∃ r', ProviderRegistry.register (Some p) name r = Return r'
           ∧ ProviderRegistry.get name r' = Some p).
Proof.
  split; [done|]. unfold ProviderRegistry.register. split.
  - intros Hws. apply blank_all_whitespace in Hws. by rewrite Hws.
  - intros Hws. destruct (ProviderRegistry.blank name) eqn:Hb.
    + by apply blank_all_whitespace in Hb.
    + eexists. split; [reflexivity|]. apply JsMap_get_set_eq.
Qed.

End RegistryExtras.

(** The stale entry of X2: [x] first lists [a] and [b], then is registered
    again listing only [b]; unregistering [x] removes the entry of [b] and
    leaves the one of [a]. *)
Lemma unregister_model_index_witness :
  ProviderRegistry.modelToProvider
    (ProviderRegistry.unregister "x" Sample.reRegistered).2 !! "b" = None
  ∧ ProviderRegistry.modelToProvider
      (ProviderRegistry.unregister "x" Sample.reRegistered).2 !! "a"
    = Some "x".
Proof.
  split.
  - rewrite (unregister_model_index Sample.reRegistered "x"
               (mkMockProvider "second" ["b"] true) "b" eq_refl).
    reflexivity.
  - rewrite (unregister_model_index Sample.reRegistered "x"
               (mkMockProvider "second" ["b"] true) "a" eq_refl).
    reflexivity.
Defined.

(** ** More on the configuration store *)

Section ConfigExtras.
Variable JSON_parse : string → Completion ConfigManager.Parsed.
Variable JSON_stringify : MultiProviderConfig → string.
Variable CONFIG_FILE : string.
Implicit Types (m : ConfigManager.t) (fs : ConfigManager.FileSystem).







End ConfigExtras.



(** ** More on the resolver *)

Section ResolverExtras.
Import Resolver.
Implicit Types (reg : Registry) (cfg : MultiProviderConfig).

Lemma createProviderInstance_cases name pc p :
  createProviderInstance name pc = Return p →
  (Js.toLowerCase name = "qwen" ∧ p = Qwen (QwenProvider.new pc))
  ∨ (Js.toLowerCase name = "openai" ∧ p = OpenAI (OpenAIProvider.new pc))
  ∨ (Js.toLowerCase name = "anthropic"
     ∧ p = Anthropic (AnthropicProvider.new pc)).
Proof.
  unfold createProviderInstance.
  destruct (String.eqb_spec (Js.toLowerCase name) "qwen") as [Hn|_];
    [intros [= <-]; by left|].
  destruct (String.eqb_spec (Js.toLowerCase name) "openai") as [Hn|_];
    [intros [= <-]; right; by left|].
  destruct (String.eqb_spec (Js.toLowerCase name) "anthropic") as [Hn|_];
    [intros [= <-]; right; by right|done].
Qed.

Lemma validateProviderKey_agrees name pc p pc' :
  createProviderInstance name pc = Return p →
  validateConfig p pc'
  = ConfigManager.validateProviderKey name (apiKey pc').
Proof.
  intros Hc.
  destruct (createProviderInstance_cases _ _ _ Hc)
    as [[Hn ->] | [[Hn ->] | [Hn ->]]];
    unfold ConfigManager.validateProviderKey; rewrite Hn; reflexivity.
Qed.

(** X10.  For every provider the resolver can create, the format check the
    configuration manager applies to a key under the provider's name is the
    provider's own [validateConfig] on credentials with that key; and under
    no name, known or not, does a key of white space only pass. *)
Theorem validateProviderKey_is_validateConfig
    (name : string) (pc pc' : ProviderConfig) (p : Provider) (key : string) :
  createProviderInstance name pc = Return p →
  validateConfig p pc'
  = ConfigManager.validateProviderKey name (apiKey pc')
  ∧ isAvailable p = ConfigManager.validateProviderKey name (apiKey pc)
  ∧ (all_whitespace key →
     ∀ other, ConfigManager.validateProviderKey other key = false).
Proof.
  intros Hc. split; [by apply (validateProviderKey_agrees name pc)|]. split.
  - rewrite <- (validateProviderKey_agrees name pc p pc Hc).
    by destruct (createProviderInstance_cases _ _ _ Hc)
      as [[_ ->] | [[_ ->] | [_ ->]]].
  - intros Hws other. unfold ConfigManager.validateProviderKey.
    apply trim_nil in Hws. rewrite Hws. simpl. by rewrite orb_true_r.
Qed.

Lemma validateProviderKey_nonempty_bool name key :
  ConfigManager.validateProviderKey name key = true → Js.nonempty key = true.
Proof. by destruct key. Qed.

Lemma instantiate_inv name cfg reg p reg' :
  instantiate name cfg reg = Return (p, reg') →
  ∃ pc, providers cfg !! name = Some pc
        ∧ ConfigManager.validateProviderKey name (apiKey pc) = true
        ∧ ((ProviderRegistry.get name reg = Some p ∧ reg' = reg)
           ∨ (ProviderRegistry.get name reg = None
              ∧ createProviderInstance name pc = Return p
              ∧ ProviderRegistry.register (Some p) name reg = Return reg')).
Proof.
  unfold instantiate.
  destruct (providers cfg !! name) as [pc|]; [|done].
  destruct (negb (Js.nonempty (apiKey pc))); [done|].
  destruct (ConfigManager.validateProviderKey name (apiKey pc)) eqn:Hv;
    [|done].
  cbn [negb]. intros Hi. exists pc. split; [done|]. split; [done|].
  destruct (ProviderRegistry.get name reg) as [p0|] eqn:Hget.
  - left. by injection Hi as <- <-.
  - right. split; [done|].
    destruct (createProviderInstance name pc) as [p1|] eqn:Hc; [|done].
    revert Hi. step_bind.
    destruct (ProviderRegistry.register (Some p1) name reg) as [r1|] eqn:Hr;
      [|done].
    by intros [= <- <-].
Qed.

Lemma instantiate_again name cfg reg p reg' :
  instantiate name cfg reg = Return (p, reg') →
  instantiate name cfg reg' = Return (p, reg').
Proof.
  intros Hi. pose proof Hi as Hi'.
  apply instantiate_inv in Hi' as (pc & Hpc & Hv & Hcase).
  assert (ProviderRegistry.get name reg' = Some p) as Hget.
  { destruct Hcase as [[Hg ->] | (_ & _ & Hr)]; [done|].
    exact (register_get _ _ _ _ Hr). }
  unfold instantiate. rewrite Hpc, Hv, Hget.
  by rewrite (validateProviderKey_nonempty_bool name (apiKey pc) Hv).
Qed.

Lemma chooseProviderName_again hint cfg reg reg' name :
  (∀ h, hint = Some h → ProviderRegistry.has h reg' = ProviderRegistry.has h reg) →
  chooseProviderName hint cfg reg = Return name →
  chooseProviderName hint cfg reg' = Return name.
Proof.
  intros Hhas. destruct hint as [[|c h]|]; try done.
  unfold chooseProviderName, resolveProviderName.
  rewrite (Hhas _ eq_refl).
  destruct (ProviderRegistry.has (String c h) reg); [done|].
  destruct (MODEL_TO_PROVIDER !! Js.toLowerCase (String c h)) as [n|] eqn:Hm;
    [|done].
  by destruct (MODEL_TO_PROVIDER_values _ _ Hm) as [-> | [-> | ->]].
Qed.

Lemma table_hint_is_no_provider_name h n :
  MODEL_TO_PROVIDER !! Js.toLowerCase h = Some n → h ≠ n.
Proof.
  intros Hm ->.
  by destruct (MODEL_TO_PROVIDER_values _ _ Hm) as [-> | [-> | ->]].
Qed.

(** X11.  When [resolveProvider] has chosen a name and returns: if the name
    was registered it returns that very provider and leaves the registry
    alone, whatever the credentials in the configuration now are; if not,
    the provider is the one built from the configured credentials, it
    reports itself available, and the registry differs only in that the
    name now holds it and its models are indexed to it. *)
Theorem instantiate_reuses_or_registers
    (name : string) (cfg : MultiProviderConfig) (reg reg' : Registry)
    (p : Provider) :
  instantiate name cfg reg = Return (p, reg') →
  (∀ q, ProviderRegistry.get name reg = Some q → p = q ∧ reg' = reg)
  ∧ (ProviderRegistry.get name reg = None →
     (∃ pc, providers cfg !! name = Some pc
            ∧ createProviderInstance name pc = Return p)
     ∧ isAvailable p = true
     ∧ ProviderRegistry.get name reg' = Some p
     ∧ (∀ n, n ≠ name →
             ProviderRegistry.get n reg' = ProviderRegistry.get n reg)
     ∧ (∀ M, M ∈ getSupportedModels p →
             ProviderRegistry.getByModel M reg' = Some p)
     ∧ ProviderRegistry.defaultProviderName reg'
       = ProviderRegistry.defaultProviderName reg).
Proof.
  intros Hi. apply instantiate_inv in Hi as (pc & Hpc & Hv & Hcase). split.
  - intros q Hq. destruct Hcase as [[Hg ->] | (Hg & _)]; [|congruence].
    split; [congruence|done].
  - intros Hnone. destruct Hcase as [[Hg _] | (_ & Hc & Hr)]; [congruence|].
    split; [by exists pc|]. split.
    { destruct (createProviderInstance_cases _ _ _ Hc)
        as [[Hn ->] | [[Hn ->] | [Hn ->]]];
        rewrite <- Hv; unfold ConfigManager.validateProviderKey;
        rewrite Hn; reflexivity. }
    split; [exact (register_get _ _ _ _ Hr)|].
    split; [intros n Hn; apply (register_get_ne _ _ _ _ n Hr); congruence|].
    split; [intros M HM; exact (register_getByModel _ _ _ _ M Hr HM)|].
    revert Hr. unfold ProviderRegistry.register.
    destruct (ProviderRegistry.blank name); [done|]. by intros [= <-].
Qed.

(** X12.  Resolving twice is resolving once: when [resolveProvider]
    returns a provider and a registry, the same call on that registry
    returns the same provider and leaves the registry as it is. *)
Theorem resolveProvider_is_idempotent
    (hint : option string) (config : option MultiProviderConfig)
    (manager : ConfigManager.t) (reg reg' : Registry) (p : Provider) :
  resolveProvider hint config manager reg = Return (p, reg') →
  resolveProvider hint config manager reg' = Return (p, reg').
Proof.
  unfold resolveProvider. set (cfg := effectiveConfigOf config manager).
  destruct (chooseProviderName hint cfg reg) as [name|] eqn:Hc; [|done].
  step_bind. intros Hi.
  assert (chooseProviderName hint cfg reg' = Return name) as ->.
  { apply (chooseProviderName_again hint cfg reg); [|done].
    intros h ->. pose proof Hi as Hi'.
    apply instantiate_inv in Hi' as (pc & _ & _ & Hcase).
    destruct Hcase as [[_ ->] | (Hg & _ & Hr)]; [done|].
    destruct (decide (name = h)) as [->|Hne].
    - exfalso. destruct h as [|c h]; [done|]. revert Hc.
      unfold chooseProviderName, resolveProviderName.
      assert (ProviderRegistry.has (String c h) reg = false) as ->.
      { unfold ProviderRegistry.has, JsMap.has.
        unfold ProviderRegistry.get in Hg. by rewrite Hg. }
      destruct (MODEL_TO_PROVIDER !! Js.toLowerCase (String c h))
        as [n|] eqn:Hm; [|done].
      pose proof (table_hint_is_no_provider_name _ _ Hm) as Hne.
      destruct (MODEL_TO_PROVIDER_values _ _ Hm) as [-> | [-> | ->]];
        step_bind; simpl; intros Heq; apply Hne; congruence.
    - unfold ProviderRegistry.has, JsMap.has.
      fold (ProviderRegistry.get h reg'). fold (ProviderRegistry.get h reg).
      by rewrite (register_get_ne _ _ _ _ h Hr Hne). }
  step_bind. exact (instantiate_again _ _ _ _ _ Hi).
Qed.

End ResolverExtras.

(** The agreement of X10 for the [openai] provider and the key of the
    resolver tests. *)
Lemma validateProviderKey_is_validateConfig_witness :
  validateConfig
    (OpenAI (OpenAIProvider.new (ConfigManager.keyOnly "sk-openai-key")))
    (ConfigManager.keyOnly "bad")
  = ConfigManager.validateProviderKey "OpenAI" "bad"
  ∧ isAvailable
      (OpenAI (OpenAIProvider.new (ConfigManager.keyOnly "sk-openai-key")))
    = true.
Proof.
  destruct (validateProviderKey_is_validateConfig "OpenAI"
              (ConfigManager.keyOnly "sk-openai-key")
              (ConfigManager.keyOnly "bad")
              (OpenAI (OpenAIProvider.new
                         (ConfigManager.keyOnly "sk-openai-key")))
              " " eq_refl) as (Hv & Ha & _).
  split; [exact Hv|]. rewrite Ha. reflexivity.
Defined.

(** The first resolution of the default provider on a new registry creates
    and registers the [qwen] provider, which reports itself available. *)
Lemma instantiate_reuses_or_registers_witness :
  ∃ p reg',
    Resolver.instantiate "qwen" Sample.qwenDefault ProviderRegistry.empty
    = Return (p, reg')
    ∧ isAvailable p = true
    ∧ ProviderRegistry.get "qwen" reg' = Some p
    ∧ ProviderRegistry.getByModel "qwen-max" reg' = Some p.
Proof.
  destruct (Resolver.instantiate "qwen" Sample.qwenDefault
              ProviderRegistry.empty) as [[p reg']|e] eqn:Hi;
    [|by vm_compute in Hi].
  exists p, reg'. split; [done|].
  destruct (proj2 (instantiate_reuses_or_registers "qwen" Sample.qwenDefault
                     ProviderRegistry.empty reg' p Hi) eq_refl)
    as ((pc & Hpc & Hc) & Ha & Hg & _ & Hm & _).
  split; [exact Ha|]. split; [exact Hg|]. apply Hm.
  vm_compute in Hpc. injection Hpc as <-. vm_compute in Hc.
  injection Hc as <-. simpl. compute_done.
Defined.

(** Resolving the model hint of the resolver tests twice. *)
Lemma resolveProvider_is_idempotent_witness :
  ∃ p reg',
    Resolver.resolveProvider (Some "qwen-turbo") (Some Sample.qwenDefault)
      Sample.manager ProviderRegistry.empty = Return (p, reg')
    ∧ Resolver.resolveProvider (Some "qwen-turbo") (Some Sample.qwenDefault)
        Sample.manager reg' = Return (p, reg').
Proof.
  destruct (Resolver.resolveProvider (Some "qwen-turbo")
              (Some Sample.qwenDefault) Sample.manager
              ProviderRegistry.empty) as [[p reg']|e] eqn:Hr;
    [|by vm_compute in Hr].
  exists p, reg'. split; [done|].
  exact (resolveProvider_is_idempotent _ _ _ _ _ _ Hr).
Defined.

(** ** Registration at startup *)

Section StartupExtras.
Import Resolver.
Variable Object_entries
  : gmap string ProviderConfig → list (string * ProviderConfig).
Hypothesis Object_entries_spec :
  ∀ ps name pc, (name, pc) ∈ Object_entries ps ↔ ps !! name = Some pc.

Lemma lower_char_whitespace c :
  Js.is_whitespace c = true → Js.lower_char c = c.
Proof. destruct c as [[] [] [] [] [] [] [] []]; by vm_compute. Qed.

Lemma toLowerCase_all_whitespace s :
  all_whitespace s → Js.toLowerCase s = s.
Proof.
  induction s as [|c s IH]; [done|]. rewrite all_whitespace_cons.
  intros [Hc Hs]. simpl. by rewrite lower_char_whitespace, IH.
Qed.

Lemma createProviderInstance_known name pc :
  (knownProvider name → ∃ p, createProviderInstance name pc = Return p)
  ∧ (¬ knownProvider name →
     createProviderInstance name pc
     = Throw (Error ("Unknown provider: " +:+ name))).
Proof.
  unfold knownProvider, createProviderInstance.
  destruct (String.eqb_spec (Js.toLowerCase name) "qwen") as [->|H1].
  { split; [by eexists|]. intros Hn. exfalso. apply Hn. compute_done. }
  destruct (String.eqb_spec (Js.toLowerCase name) "openai") as [->|H2].
  { split; [by eexists|]. intros Hn. exfalso. apply Hn. compute_done. }
  destruct (String.eqb_spec (Js.toLowerCase name) "anthropic") as [->|H3].
  { split; [by eexists|]. intros Hn. exfalso. apply Hn. compute_done. }
  split; [|done]. rewrite !elem_of_cons, elem_of_nil. intuition.
Qed.

Lemma created_name_not_blank name pc p :
  createProviderInstance name pc = Return p →
  ProviderRegistry.blank name = false.
Proof.
  intros Hc. destruct (ProviderRegistry.blank name) eqn:Hb; [|done].
  apply blank_all_whitespace in Hb.
  pose proof (toLowerCase_all_whitespace _ Hb) as Hl.
  destruct (createProviderInstance_cases _ _ _ Hc)
    as [[Hn _] | [[Hn _] | [Hn _]]];
    rewrite Hl in Hn; subst name; by apply all_whitespace_cons in Hb as [? _].
Qed.

Lemma unknown_provider_not_marked name :
  notYetImplemented (Error ("Unknown provider: " +:+ name))
  = Js.includes name "not yet implemented".
Proof. reflexivity. Qed.

Lemma registerEntries_cons n0 pc0 rest reg :
  registerEntries ((n0, pc0) :: rest) reg
  = if Js.nonempty (apiKey pc0) then
      match createProviderInstance n0 pc0 with
      | Return p0 =>
          registerEntries rest
            (ProviderRegistry.mk
               (JsMap.set n0 p0 (ProviderRegistry.reg_providers reg))
               (foldl (fun i model => <[model := n0]> i)
                      (ProviderRegistry.modelToProvider reg)
                      (getSupportedModels p0))
               (ProviderRegistry.defaultProviderName reg))
      | Throw e =>
          if notYetImplemented e then registerEntries rest reg
          else (reg, Throw e)
      end
    else registerEntries rest reg.
Proof.
  cbn [registerEntries]. destruct (Js.nonempty (apiKey pc0)); [|done].
  destruct (createProviderInstance n0 pc0) as [p0|e0] eqn:Hc; step_bind;
    [|done].
  by rewrite (register_return _ _ _ (created_name_not_blank _ _ _ Hc)).
Qed.

Lemma registerEntries_untouched entries reg reg' c n :
  registerEntries entries reg = (reg', c) →
  (∀ pc, (n, pc) ∈ entries → apiKey pc ≠ "" → ¬ knownProvider n) →
  ProviderRegistry.get n reg' = ProviderRegistry.get n reg.
Proof.
  revert reg. induction entries as [|[n0 pc0] rest IH]; intros reg.
  { by intros [= <- _]. }
  rewrite registerEntries_cons. intros Hr Hn.
  assert (Hn' : ∀ pc, (n, pc) ∈ rest → apiKey pc ≠ "" → ¬ knownProvider n).
  { intros pc Hin. apply Hn, elem_of_cons. by right. }
  destruct (Js.nonempty (apiKey pc0)) eqn:Hk; [|by apply IH].
  destruct (createProviderInstance n0 pc0) as [p0|e0] eqn:Hc.
  - rewrite (IH _ Hr Hn'). unfold ProviderRegistry.get; simpl.
    apply JsMap_get_set_ne. intros Heq. subst n0.
    apply (Hn pc0); [apply elem_of_cons; by left|by destruct (apiKey pc0)|].
    destruct (decide (knownProvider n)) as [Hkn|Hkn]; [done|].
    rewrite (proj2 (createProviderInstance_known n pc0) Hkn) in Hc. done.
  - destruct (notYetImplemented e0); [by apply IH|].
    by injection Hr as <- _.
Qed.

Lemma registerEntries_registered entries reg reg' n pc p :
  (∀ pc1 pc2, (n, pc1) ∈ entries → (n, pc2) ∈ entries → pc1 = pc2) →
  registerEntries entries reg = (reg', Return tt) →
  (n, pc) ∈ entries →
  apiKey pc ≠ "" →
  createProviderInstance n pc = Return p →
  ProviderRegistry.get n reg' = Some p.
Proof.
  revert reg. induction entries as [|[n0 pc0] rest IH]; intros reg Hfun.
  { intros _ Hin. by apply elem_of_nil in Hin. }
  rewrite registerEntries_cons. intros Hr Hin Hk Hc.
  assert (Hfun' : ∀ pc1 pc2, (n, pc1) ∈ rest → (n, pc2) ∈ rest → pc1 = pc2).
  { intros pc1 pc2 H1 H2. apply Hfun; apply elem_of_cons; by right. }
  destruct (decide (n ∈ rest.*1)) as [Hrest|Hrest].
  - apply list_elem_of_fmap in Hrest as [[n' pc'] [Heq Hin']].
    simpl in Heq. subst n'.
    assert (pc' = pc) as ->.
    { apply Hfun; [apply elem_of_cons; by right|done]. }
    destruct (Js.nonempty (apiKey pc0)); [|by eapply IH].
    destruct (createProviderInstance n0 pc0) as [p0|e0] eqn:Hc0;
      [by eapply IH|].
    destruct (notYetImplemented e0); [by eapply IH|done].
  - apply elem_of_cons in Hin as [Heq | Hin].
    2:{ exfalso. apply Hrest. apply list_elem_of_fmap. by exists (n, pc). }
    injection Heq as Hn0 Hpc0. subst n0 pc0.
    assert (Js.nonempty (apiKey pc) = true) as Hne.
    { by destruct (apiKey pc). }
    rewrite Hne, Hc in Hr.
    rewrite (registerEntries_untouched _ _ _ _ _ Hr).
    { unfold ProviderRegistry.get; simpl. apply JsMap_get_set_eq. }
    intros pc' Hin'. exfalso. apply Hrest, list_elem_of_fmap.
    by exists (n, pc').
Qed.

Lemma registerEntries_throws entries reg reg' e :
  registerEntries entries reg = (reg', Throw e) →
  ∃ n pc, (n, pc) ∈ entries ∧ apiKey pc ≠ ""
          ∧ createProviderInstance n pc = Throw e
          ∧ notYetImplemented e = false.
Proof.
  revert reg. induction entries as [|[n0 pc0] rest IH]; intros reg.
  { done. }
  rewrite registerEntries_cons. intros Hr.
  assert (Hrest : ∀ r, registerEntries rest r = (reg', Throw e) →
            ∃ n pc, (n, pc) ∈ (n0, pc0) :: rest ∧ apiKey pc ≠ ""
                    ∧ createProviderInstance n pc = Throw e
                    ∧ notYetImplemented e = false).
  { intros r Hr'. destruct (IH _ Hr') as (n & pc & Hin & H').
    exists n, pc. split; [apply elem_of_cons; by right|done]. }
  destruct (Js.nonempty (apiKey pc0)) eqn:Hk; [|by eapply Hrest].
  destruct (createProviderInstance n0 pc0) as [p0|e0] eqn:Hc0;
    [by eapply Hrest|].
  destruct (notYetImplemented e0) eqn:Hm; [by eapply Hrest|].
  injection Hr as <- <-. exists n0, pc0.
  split; [apply elem_of_cons; by left|]. split; [|done].
  by destruct (apiKey pc0).
Qed.

Lemma registerEntries_returns entries reg :
  (∀ n pc, (n, pc) ∈ entries → apiKey pc ≠ "" → knownProvider n) →
  ∃ reg', registerEntries entries reg = (reg', Return tt).
Proof.
  intros Hknown.
  destruct (registerEntries entries reg) as [reg' [[]|e]] eqn:Hr;
    [by eexists|].
  destruct (registerEntries_throws _ _ _ _ Hr) as (n & pc & Hin & Hk & Hc & _).
  destruct (proj1 (createProviderInstance_known n pc) (Hknown _ _ Hin Hk))
    as [p Hp].
  congruence.
Qed.

Lemma registerEntries_stops entries reg n pc e :
  (n, pc) ∈ entries →
  apiKey pc ≠ "" →
  createProviderInstance n pc = Throw e →
  notYetImplemented e = false →
  ∃ reg' e', registerEntries entries reg = (reg', Throw e').
Proof.
  revert reg. induction entries as [|[n0 pc0] rest IH]; intros reg Hin Hk Hc Hm.
  { by apply elem_of_nil in Hin. }
  rewrite registerEntries_cons.
  apply elem_of_cons in Hin as [Heq | Hin].
  - injection Heq as Hn0 Hpc0. subst n0 pc0.
    assert (Js.nonempty (apiKey pc) = true) as -> by by destruct (apiKey pc).
    rewrite Hc, Hm. by eexists _, _.
  - destruct (Js.nonempty (apiKey pc0)); [|by apply IH].
    destruct (createProviderInstance n0 pc0) as [p0|e0]; [by apply IH|].
    destruct (notYetImplemented e0); [by apply IH|]. by eexists _, _.
Qed.

Lemma registerEntries_default entries reg reg' c :
  registerEntries entries reg = (reg', c) →
  ProviderRegistry.defaultProviderName reg'
  = ProviderRegistry.defaultProviderName reg.
Proof.
  revert reg. induction entries as [|[n0 pc0] rest IH]; intros reg.
  { by intros [= <- _]. }
  rewrite registerEntries_cons.
  destruct (Js.nonempty (apiKey pc0)); [|by apply IH].
  destruct (createProviderInstance n0 pc0) as [p0|e0].
  - intros Hr. by rewrite (IH _ Hr).
  - destruct (notYetImplemented e0); [by apply IH|]. by intros [= <- _].
Qed.

Lemma setDefaultIn_has name (reg : Registry) :
  ProviderRegistry.has name reg = true →
  setDefaultIn name reg
  = (ProviderRegistry.mk (ProviderRegistry.reg_providers reg)
                         (ProviderRegistry.modelToProvider reg) (Some name),
     Return tt).
Proof.
  intros Hh. unfold setDefaultIn, ProviderRegistry.setDefault. by rewrite Hh.
Qed.

(** The default that [registerConfiguredProviders] selects on the registry
    [reg'] its loop has produced. *)
Lemma registerConfiguredProviders_cases m reg :
  ∃ reg1 c,
    registerEntries (Object_entries (providers (ConfigManager.config m))) reg
    = (reg1, c)
    ∧ ((∃ e, c = Throw e
             ∧ registerConfiguredProviders Object_entries m reg
               = (reg1, Throw e))
       ∨ (c = Return tt
          ∧ ∃ d, registerConfiguredProviders Object_entries m reg
                 = (ProviderRegistry.mk
                      (ProviderRegistry.reg_providers reg1)
                      (ProviderRegistry.modelToProvider reg1) d,
                    Return tt)
                 ∧ d = (if Js.truthy (defaultProvider (ConfigManager.config m))
                           && ProviderRegistry.has
                                (default "" (defaultProvider
                                               (ConfigManager.config m)))
                                reg1
                        then defaultProvider (ConfigManager.config m)
                        else if ProviderRegistry.has "qwen" reg1
                             then Some "qwen"
                             else ProviderRegistry.defaultProviderName reg1))).
Proof.
  unfold registerConfiguredProviders, ConfigManager.getAllProviders.
  destruct (registerEntries _ reg) as [reg1 [[]|e]] eqn:Hr;
    exists reg1; eexists; (split; [done|]); [right|left; by eexists].
  split; [done|].
  destruct (defaultProvider (ConfigManager.config m)) as [[|a d]|]; simpl.
  - destruct (ProviderRegistry.has "qwen" reg1) eqn:Hq.
    + rewrite setDefaultIn_has by done. by eexists.
    + eexists; split; [|done]. by destruct reg1.
  - destruct (ProviderRegistry.has (String a d) reg1) eqn:Hd.
    + rewrite setDefaultIn_has by done. by eexists.
    + destruct (ProviderRegistry.has "qwen" reg1) eqn:Hq.
      * rewrite setDefaultIn_has by done. by eexists.
      * eexists; split; [|done]. by destruct reg1.
  - destruct (ProviderRegistry.has "qwen" reg1) eqn:Hq.
    + rewrite setDefaultIn_has by done. by eexists.
    + eexists; split; [|done]. by destruct reg1.
Qed.

Lemma entries_functional ps n pc1 pc2 :
  (n, pc1) ∈ Object_entries ps → (n, pc2) ∈ Object_entries ps → pc1 = pc2.
Proof. rewrite !Object_entries_spec. congruence. Qed.

Lemma startup_get_keyed m reg reg' name pc p :
  registerConfiguredProviders Object_entries m reg = (reg', Return tt) →
  keyed (ConfigManager.config m) name pc →
  createProviderInstance name pc = Return p →
  ProviderRegistry.get name reg' = Some p.
Proof.
  intros Hs [Hpc Hk] Hc.
  destruct (registerConfiguredProviders_cases m reg)
    as (reg1 & c & Hr & [(e & -> & He) | (-> & d & Hd & _)]); [congruence|].
  rewrite Hd in Hs. injection Hs as <-.
  apply (registerEntries_registered _ _ _ _ pc p (entries_functional _ _) Hr);
    [by apply Object_entries_spec|done..].
Qed.

Lemma startup_get_other m reg reg' c name :
  registerConfiguredProviders Object_entries m reg = (reg', c) →
  (∀ pc, keyed (ConfigManager.config m) name pc → ¬ knownProvider name) →
  ProviderRegistry.get name reg' = ProviderRegistry.get name reg.
Proof.
  intros Hs Hn.
  assert (∀ reg1 c1,
            registerEntries
              (Object_entries (providers (ConfigManager.config m))) reg
            = (reg1, c1) →
            ProviderRegistry.get name reg1 = ProviderRegistry.get name reg)
    as Hun.
  { intros reg1 c1 Hr. apply (registerEntries_untouched _ _ _ _ _ Hr).
    intros pc Hin Hk. apply (Hn pc). split; [|done].
    by apply Object_entries_spec. }
  destruct (registerConfiguredProviders_cases m reg)
    as (reg1 & c1 & Hr & [(e & -> & He) | (-> & d & Hd & _)]).
  - rewrite He in Hs. injection Hs as <- _. by eapply Hun.
  - rewrite Hd in Hs. injection Hs as <- _.
    unfold ProviderRegistry.get; simpl. by eapply Hun.
Qed.

(** X13.  When [registerConfiguredProviders] returns, every name that has a
    non-empty key and a provider class holds the provider built from its
    credentials, whatever was registered under it before; a name without a
    non-empty key, or without a class, holds what it held.  The default is
    the configured default provider if that is registered, else [qwen] if
    that is registered, else the former default. *)
Theorem startup_registers_configured_providers
    (m : ConfigManager.t) (reg reg' : Registry) :
  registerConfiguredProviders Object_entries m reg = (reg', Return tt) →
  (∀ name pc p,
      keyed (ConfigManager.config m) name pc →
      createProviderInstance name pc = Return p →
      ProviderRegistry.get name reg' = Some p)
  ∧ (∀ name,
        (∀ pc, keyed (ConfigManager.config m) name pc → ¬ knownProvider name) →
        ProviderRegistry.get name reg' = ProviderRegistry.get name reg)
  ∧ ProviderRegistry.defaultProviderName reg'
    = if Js.truthy (defaultProvider (ConfigManager.config m))
         && ProviderRegistry.has
              (default "" (defaultProvider (ConfigManager.config m))) reg'
      then defaultProvider (ConfigManager.config m)
      else if ProviderRegistry.has "qwen" reg' then Some "qwen"
           else ProviderRegistry.defaultProviderName reg.
Proof.
  intros Hs. split; [|split].
  - intros name pc p. by apply (startup_get_keyed m reg).
  - intros name. by apply (startup_get_other m reg reg' (Return tt)).
  - destruct (registerConfiguredProviders_cases m reg)
      as (reg1 & c & Hr & [(e & -> & He) | (-> & d & Hd & ->)]);
      [congruence|].
    rewrite Hd in Hs. injection Hs as <-. simpl.
    by rewrite (registerEntries_default _ _ _ _ Hr).
Qed.

(** X14.  [registerConfiguredProviders] throws only [Unknown provider: n],
    for a name [n] that has a non-empty key and no provider class.  It
    returns when every name with a non-empty key has a class, and throws
    when one has none, unless that name contains the words
    [not yet implemented], in which case the entry is passed over. *)
Theorem startup_fails_on_unknown_provider
    (m : ConfigManager.t) (reg : Registry) :
  (∀ reg' e,
      registerConfiguredProviders Object_entries m reg = (reg', Throw e) →
      ∃ name pc,
        keyed (ConfigManager.config m) name pc
        ∧ ¬ knownProvider name
        ∧ Js.includes name "not yet implemented" = false
        ∧ e = Error ("Unknown provider: " +:+ name))
  ∧ ((∀ name pc, keyed (ConfigManager.config m) name pc →
                 knownProvider name) →
     ∃ reg', registerConfiguredProviders Object_entries m reg
             = (reg', Return tt))
  ∧ (∀ name pc,
        keyed (ConfigManager.config m) name pc →
        ¬ knownProvider name →
        Js.includes name "not yet implemented" = false →
        ∃ reg' e, registerConfiguredProviders Object_entries m reg
                  = (reg', Throw e)).
Proof.
  destruct (registerConfiguredProviders_cases m reg)
    as (reg1 & c & Hr & Hcases).
  split; [|split].
  - intros reg' e Hs.
    destruct Hcases as [(e' & -> & He) | (-> & d & Hd & _)]; [|congruence].
    rewrite He in Hs. injection Hs as <- <-.
    destruct (registerEntries_throws _ _ _ _ Hr)
      as (n & pc & Hin & Hk & Hc & Hm).
    exists n, pc. split; [split; [by apply Object_entries_spec|done]|].
    destruct (decide (knownProvider n)) as [Hkn|Hkn].
    { destruct (proj1 (createProviderInstance_known n pc) Hkn) as [p Hp].
      congruence. }
    rewrite (proj2 (createProviderInstance_known n pc) Hkn) in Hc.
    injection Hc as <-. by rewrite unknown_provider_not_marked in Hm.
  - intros Hknown.
    destruct (registerEntries_returns
                (Object_entries (providers (ConfigManager.config m))) reg)
      as [reg2 Hr2].
    { intros n pc Hin Hk. apply (Hknown n pc). split; [|done].
      by apply Object_entries_spec. }
    destruct Hcases as [(e' & -> & He) | (-> & d & Hd & _)]; [congruence|].
    by eexists.
  - intros name pc [Hpc Hk] Hkn Hm.
    destruct (registerEntries_stops
                (Object_entries (providers (ConfigManager.config m))) reg
                name pc (Error ("Unknown provider: " +:+ name)))
      as (reg2 & e2 & Hr2); [by apply Object_entries_spec|done| |done|].
    { apply createProviderInstance_known, Hkn. }
    destruct Hcases as [(e' & -> & He) | (-> & d & Hd & _)]; [|congruence].
    by eexists _, _.
Qed.

(** X15.  In a process that has registered the configured providers at
    startup, a resolution on the same configuration never changes the
    registry: the provider it returns is the one registered at startup, built
    from the configured credentials of its name, and it reports itself
    available. *)
Theorem resolution_after_startup_reuses
    (hint : option string) (m : ConfigManager.t) (reg' reg'' : Registry)
    (p : Provider) :
  registerConfiguredProviders Object_entries m ProviderRegistry.empty
  = (reg', Return tt) →
  resolveProvider hint None m reg' = Return (p, reg'') →
  reg'' = reg'
  ∧ isAvailable p = true
  ∧ ∃ name pc,
      keyed (ConfigManager.config m) name pc
      ∧ createProviderInstance name pc = Return p
      ∧ ProviderRegistry.get name reg' = Some p.
Proof.
  intros Hs. unfold resolveProvider, effectiveConfigOf.
  unfold ConfigManager.getAllProviders.
  destruct (chooseProviderName hint (ConfigManager.config m) reg')
    as [name|] eqn:Hc; [|done].
  step_bind. intros Hi.
  apply instantiate_inv in Hi as (pc & Hpc & Hv & Hcase).
  assert (Hkeyed : keyed (ConfigManager.config m) name pc).
  { split; [done|]. intros Hk.
    pose proof (validateProviderKey_nonempty_bool _ _ Hv) as Hne.
    by rewrite Hk in Hne. }
  assert (Hreg : ∀ q, createProviderInstance name pc = Return q →
                      ProviderRegistry.get name reg' = Some q).
  { intros q. by apply (startup_get_keyed m ProviderRegistry.empty). }
  assert (Hcreated : createProviderInstance name pc = Return p
                     ∧ reg'' = reg').
  { destruct Hcase as [[Hg ->] | (Hg & Hcr & _)].
    - split; [|done].
      destruct (decide (knownProvider name)) as [Hkn|Hkn].
      + destruct (proj1 (createProviderInstance_known name pc) Hkn)
          as [q Hq].
        rewrite (Hreg _ Hq) in Hg. congruence.
      + rewrite (startup_get_other m ProviderRegistry.empty reg' _ name Hs)
          in Hg; [done|]. by intros _ _.
    - rewrite (Hreg _ Hcr) in Hg. done. }
  destruct Hcreated as [Hcr ->]. split; [done|]. split.
  - destruct (createProviderInstance_cases _ _ _ Hcr)
      as [[Hn ->] | [[Hn ->] | [Hn ->]]];
      rewrite <- Hv; unfold ConfigManager.validateProviderKey;
      rewrite Hn; reflexivity.
  - exists name, pc. split; [done|]. split; [done|]. by apply Hreg.
Qed.

End StartupExtras.

Lemma Sample_Object_entries_spec ps name pc :
  (name, pc) ∈ Sample.Object_entries ps ↔ ps !! name = Some pc.
Proof. apply elem_of_map_to_list. Qed.

Lemma Sample_qwenManager_keyed name pc :
  keyed (ConfigManager.config Sample.qwenManager) name pc →
  name = "qwen" ∧ pc = ConfigManager.keyOnly "sk-qwen-key".
Proof.
  intros [Hpc _]. simpl in Hpc.
  apply lookup_singleton_Some in Hpc as [<- <-]. done.
Qed.

(** Startup on the configuration of the resolver tests registers the [qwen]
    provider and makes it the default. *)
Lemma startup_registers_configured_providers_witness :
  ∃ reg',
    Resolver.registerConfiguredProviders Sample.Object_entries
      Sample.qwenManager ProviderRegistry.empty = (reg', Return tt)
    ∧ ProviderRegistry.get "qwen" reg'
      = Some (Qwen (QwenProvider.new (ConfigManager.keyOnly "sk-qwen-key")))
    ∧ ProviderRegistry.get "openai" reg' = None.
Proof.
  destruct (Resolver.registerConfiguredProviders Sample.Object_entries
              Sample.qwenManager ProviderRegistry.empty)
    as [reg' [[]|e]] eqn:Hs; [|by vm_compute in Hs].
  exists reg'. split; [done|].
  destruct (startup_registers_configured_providers Sample.Object_entries
              Sample_Object_entries_spec Sample.qwenManager
              ProviderRegistry.empty reg' Hs) as (Hk & Ho & _).
  split.
  - apply (Hk "qwen" (ConfigManager.keyOnly "sk-qwen-key")); [|done].
    split; [apply lookup_singleton_eq|done].
  - rewrite (Ho "openai"); [done|].
    intros pc Hpc. by apply Sample_qwenManager_keyed in Hpc as [? _].
Defined.

(** Startup on the configuration of the resolver tests returns. *)
Lemma startup_fails_on_unknown_provider_witness :
  ∃ reg',
    Resolver.registerConfiguredProviders Sample.Object_entries
      Sample.qwenManager ProviderRegistry.empty = (reg', Return tt).
Proof.
  apply (startup_fails_on_unknown_provider Sample.Object_entries
           Sample_Object_entries_spec Sample.qwenManager
           ProviderRegistry.empty).
  intros name pc Hpc. apply Sample_qwenManager_keyed in Hpc as [-> _].
  unfold knownProvider. compute_done.
Defined.

(** Startup and a resolution without a hint on the configuration of the
    resolver tests. *)
Lemma resolution_after_startup_reuses_witness :
  ∃ reg' p,
    Resolver.registerConfiguredProviders Sample.Object_entries
      Sample.qwenManager ProviderRegistry.empty = (reg', Return tt)
    ∧ Resolver.resolveProvider None None Sample.qwenManager reg'
      = Return (p, reg')
    ∧ isAvailable p = true.
Proof.
  pose (r := Resolver.registerConfiguredProviders Sample.Object_entries
               Sample.qwenManager ProviderRegistry.empty).
  assert (Hs : Resolver.registerConfiguredProviders Sample.Object_entries
                 Sample.qwenManager ProviderRegistry.empty
               = (r.1, Return tt)).
  { vm_compute. reflexivity. }
  destruct (Resolver.resolveProvider None None Sample.qwenManager r.1)
    as [[p reg'']|e] eqn:Hr.
  2:{ vm_compute in Hr. discriminate Hr. }
  destruct (resolution_after_startup_reuses Sample.Object_entries
              Sample_Object_entries_spec None Sample.qwenManager r.1 reg'' p
              Hs Hr) as (Heq & Ha & _).
  exists r.1, p. split; [exact Hs|]. split; [|exact Ha].
  rewrite <- Heq at 2. exact Hr.
Defined.

(** ** The command line *)

Section CLIExtras.
Import CLI.
Implicit Types (o : CLIOptions) (argv rest : list string).

Lemma parseLoop_positional w rest o :
  positional w →
  parseLoop (w :: rest) o
  = parseLoop rest
      (if negb (Js.truthy (command o))
       then mkCLIOptions (model o) (provider o) (Some w) (args o) (help o)
       else mkCLIOptions (model o) (provider o) (command o) (args o ++ [w])
                         (help o)).
Proof.
  intros [Hd Hw]. cbn [parseLoop]. unfold Js.startsWith in Hd.
  rewrite !not_elem_of_cons in Hw. destruct Hw as (Hm & Hp & Hh & _).
  destruct (String.eqb_spec w "--model") as [->|_]; [done|].
  destruct (String.eqb_spec w "-m") as [->|_]; [done|].
  destruct (String.eqb_spec w "--provider") as [->|_]; [done|].
  destruct (String.eqb_spec w "-p") as [->|_]; [done|].
  destruct (String.eqb_spec w "--help") as [->|_]; [done|].
  destruct (String.eqb_spec w "-h") as [->|_]; [done|].
  cbn [orb]. unfold Js.startsWith. rewrite Hd.
  by destruct (negb (Js.truthy (command o))).
Qed.

Lemma parseLoop_words rest o c :
  Forall positional rest →
  command o = Some c → c ≠ "" →
  parseLoop rest o
  = Return (mkCLIOptions (model o) (provider o) (command o)
                         (args o ++ rest) (help o)).
Proof.
  intros Hall. revert o. induction Hall as [|w rest Hw _ IH]; intros o Hc Hne.
  { rewrite app_nil_r. by destruct o. }
  rewrite (parseLoop_positional _ _ _ Hw), Hc.
  destruct c as [|a c]; [done|]. cbn [Js.truthy negb].
  rewrite (IH (mkCLIOptions (model o) (provider o) (Some (String a c))
                            (args o ++ [w]) (help o)) eq_refl Hne).
  cbn [model provider command args help]. by rewrite <- app_assoc.
Qed.

(** X16.  On arguments none of which is a flag or starts with two dashes,
    [parseArgs] returns with no model, provider or help: the first word, if
    it is not empty, is the command and the others are its arguments in
    their order; an empty first word is dropped when a word follows it. *)
Theorem parseArgs_positional_words (w : string) (rest : list string) :
  Forall positional (w :: rest) →
  (w ≠ "" →
   parseArgs (Some (w :: rest))
   = Return (mkCLIOptions None None (Some w) rest None))
  ∧ (w = "" → rest ≠ [] →
     parseArgs (Some (w :: rest)) = parseArgs (Some rest))
  ∧ parseArgs (Some [w]) = Return (mkCLIOptions None None (Some w) [] None).
Proof.
  intros Hall. apply Forall_cons_1 in Hall as [Hw Hrest].
  unfold parseArgs. rewrite !(parseLoop_positional _ _ _ Hw).
  cbn [command Js.truthy negb model provider args help]. split; [|split].
  - intros Hne.
    by rewrite (parseLoop_words rest
                  (mkCLIOptions None None (Some w) [] None) w Hrest eq_refl
                  Hne).
  - intros -> Hne. destruct Hrest as [|v rest Hv Hrest]; [done|].
    by rewrite !(parseLoop_positional _ _ _ Hv).
  - done.
Qed.

(** The branches of the loop on its first argument. *)
Lemma parseLoop_cons arg rest o :
  (arg ∈ ["--model"; "-m"]
   ∧ match rest with
     | v :: rest' =>
         parseLoop (arg :: rest) o
         = parseLoop rest' (mkCLIOptions (Some v) (provider o) (command o)
                                         (args o) (help o))
     | [] =>
         parseLoop (arg :: rest) o
         = Throw (Error "--model requires a value (e.g., --model gpt-4o)")
     end)
  ∨ (arg ∈ ["--provider"; "-p"]
     ∧ match rest with
       | v :: rest' =>
           parseLoop (arg :: rest) o
           = parseLoop rest' (mkCLIOptions (model o) (Some v) (command o)
                                           (args o) (help o))
       | [] =>
           parseLoop (arg :: rest) o
           = Throw (Error
                      "--provider requires a value (e.g., --provider openai)")
       end)
  ∨ (arg ∈ ["--help"; "-h"]
     ∧ parseLoop (arg :: rest) o
       = parseLoop rest (mkCLIOptions (model o) (provider o) (command o)
                                      (args o) (Some true)))
  ∨ (Js.startsWith arg "--" = true
     ∧ (arg ∉ ["--model"; "--provider"; "--help"])
     ∧ parseLoop (arg :: rest) o
       = Throw (Error ("Unknown option: " +:+ arg
                       +:+ ". Use --help for usage information.")))
  ∨ (positional arg
     ∧ parseLoop (arg :: rest) o
       = parseLoop rest
           (if negb (Js.truthy (command o))
            then mkCLIOptions (model o) (provider o) (Some arg) (args o)
                              (help o)
            else mkCLIOptions (model o) (provider o) (command o)
                              (args o ++ [arg]) (help o))).
Proof.
  destruct (String.eqb_spec arg "--model") as [->|H1].
  { left. split; [compute_done|]. by destruct rest. }
  destruct (String.eqb_spec arg "-m") as [->|H2].
  { left. split; [compute_done|]. by destruct rest. }
  destruct (String.eqb_spec arg "--provider") as [->|H3].
  { right; left. split; [compute_done|]. by destruct rest. }
  destruct (String.eqb_spec arg "-p") as [->|H4].
  { right; left. split; [compute_done|]. by destruct rest. }
  destruct (String.eqb_spec arg "--help") as [->|H5].
  { right; right; left. split; [compute_done|]. done. }
  destruct (String.eqb_spec arg "-h") as [->|H6].
  { right; right; left. split; [compute_done|]. done. }
  destruct (Js.startsWith arg "--") eqn:Hd.
  - right; right; right; left. split; [done|]. split.
    { rewrite !not_elem_of_cons. repeat split; try done.
      apply not_elem_of_nil. }
    cbn [parseLoop].
    destruct (String.eqb_spec arg "--model"); [done|].
    destruct (String.eqb_spec arg "-m"); [done|].
    destruct (String.eqb_spec arg "--provider"); [done|].
    destruct (String.eqb_spec arg "-p"); [done|].
    destruct (String.eqb_spec arg "--help"); [done|].
    destruct (String.eqb_spec arg "-h"); [done|].
    cbn [orb]. by rewrite Hd.
  - right; right; right; right.
    assert (positional arg) as Hp.
    { split; [done|]. rewrite !not_elem_of_cons. repeat split; try done.
      apply not_elem_of_nil. }
    split; [done|]. by apply parseLoop_positional.
Qed.

(** Induction on the arguments two at a time, as the loop consumes them. *)
Lemma pair_induction (Q : list string → Prop) :
  Q [] →
  (∀ a, Q [a]) →
  (∀ a b rest, Q rest → Q (b :: rest) → Q (a :: b :: rest)) →
  ∀ rest, Q rest.
Proof.
  intros Hnil Hone Hstep rest.
  assert (Q rest ∧ ∀ a, Q (a :: rest)) as [? _]; [|done].
  induction rest as [|b rest [IH1 IH2]]; [by split|].
  split; [apply IH2|]. intros a. by apply Hstep.
Qed.

Lemma valueFlagged_here flags flag v rest :
  flag ∈ flags → valueFlagged flags (flag :: v :: rest) v.
Proof. intros Hf. by exists [], rest, flag. Qed.

Lemma valueFlagged_skip flags ws argv v :
  valueFlagged flags argv v → valueFlagged flags (ws ++ argv) v.
Proof.
  intros (pre & post & flag & Hf & ->).
  exists (ws ++ pre), post, flag. split; [done|]. by rewrite <- app_assoc.
Qed.

(** What a run of the loop from [o] leaves in the options. *)
Lemma parseLoop_provenance rest :
  ∀ o o', parseLoop rest o = Return o' →
    (model o' = model o
     ∨ ∃ v, model o' = Some v ∧ valueFlagged ["--model"; "-m"] rest v)
    ∧ (provider o' = provider o
       ∨ ∃ v, provider o' = Some v
              ∧ valueFlagged ["--provider"; "-p"] rest v)
    ∧ (command o' = command o
       ∨ ∃ c, command o' = Some c ∧ c ∈ rest ∧ positional c)
    ∧ (∀ a, a ∈ args o' → a ∈ args o ∨ (a ∈ rest ∧ positional a))
    ∧ (help o' = help o
       ∨ (help o' = Some true ∧ ("--help" ∈ rest ∨ "-h" ∈ rest))).
Proof.
  assert (Hlift : ∀ ws rest o1 o o',
    (∀ w, w ∈ ws → w ∈ ws ++ rest) →
    ((model o' = model o1
      ∨ ∃ v, model o' = Some v ∧ valueFlagged ["--model"; "-m"] rest v)
     ∧ (provider o' = provider o1
        ∨ ∃ v, provider o' = Some v
               ∧ valueFlagged ["--provider"; "-p"] rest v)
     ∧ (command o' = command o1
        ∨ ∃ c, command o' = Some c ∧ c ∈ rest ∧ positional c)
     ∧ (∀ a, a ∈ args o' → a ∈ args o1 ∨ (a ∈ rest ∧ positional a))
     ∧ (help o' = help o1
        ∨ (help o' = Some true ∧ ("--help" ∈ rest ∨ "-h" ∈ rest)))) →
    (model o1 = model o
     ∨ ∃ v, model o1 = Some v ∧ valueFlagged ["--model"; "-m"] (ws ++ rest) v) →
    (provider o1 = provider o
     ∨ ∃ v, provider o1 = Some v
            ∧ valueFlagged ["--provider"; "-p"] (ws ++ rest) v) →
    (command o1 = command o
     ∨ ∃ c, command o1 = Some c ∧ c ∈ ws ++ rest ∧ positional c) →
    (∀ a, a ∈ args o1 → a ∈ args o ∨ (a ∈ ws ++ rest ∧ positional a)) →
    (help o1 = help o
     ∨ (help o1 = Some true ∧ ("--help" ∈ ws ++ rest ∨ "-h" ∈ ws ++ rest))) →
    (model o' = model o
     ∨ ∃ v, model o' = Some v
            ∧ valueFlagged ["--model"; "-m"] (ws ++ rest) v)
    ∧ (provider o' = provider o
       ∨ ∃ v, provider o' = Some v
              ∧ valueFlagged ["--provider"; "-p"] (ws ++ rest) v)
    ∧ (command o' = command o
       ∨ ∃ c, command o' = Some c ∧ c ∈ ws ++ rest ∧ positional c)
    ∧ (∀ a, a ∈ args o' → a ∈ args o ∨ (a ∈ ws ++ rest ∧ positional a))
    ∧ (help o' = help o
       ∨ (help o' = Some true
          ∧ ("--help" ∈ ws ++ rest ∨ "-h" ∈ ws ++ rest)))).
  { intros ws rest0 o1 o o' _ (Hm & Hp & Hc & Ha & Hh) Hm1 Hp1 Hc1 Ha1 Hh1.
    split; [|split; [|split; [|split]]].
    - destruct Hm as [-> | (v & -> & Hv)]; [done|].
      right. exists v. split; [done|]. by apply valueFlagged_skip.
    - destruct Hp as [-> | (v & -> & Hv)]; [done|].
      right. exists v. split; [done|]. by apply valueFlagged_skip.
    - destruct Hc as [-> | (c & -> & Hin & Hpos)]; [done|].
      right. exists c. rewrite elem_of_app. auto.
    - intros a Hin. destruct (Ha a Hin) as [Hin1 | [Hin1 Hpos]].
      + by apply Ha1.
      + right. rewrite elem_of_app. auto.
    - destruct Hh as [-> | (-> & Hin)]; [done|].
      right. split; [done|]. rewrite !elem_of_app. tauto. }
  induction rest as [| |a b rest IH1 IH2] using pair_induction.
  - intros o o' [= <-]. tauto.
  - intros o o' Hr.
    destruct (parseLoop_cons a [] o)
      as [[_ He] | [[_ He] | [[Hf He] | [(_ & _ & He) | [Hpos He]]]]];
      rewrite He in Hr; try done; cbn [parseLoop] in Hr; injection Hr as <-.
    + cbn [model provider command args help].
      split; [by left|]. split; [by left|]. split; [by left|].
      split; [by left|]. right. split; [done|].
      apply elem_of_cons in Hf as [-> | Hf]; [left; by left|].
      apply list_elem_of_singleton in Hf as ->. right; by left.
    + destruct (negb (Js.truthy (command o)));
        cbn [model provider command args help].
      * split; [by left|]. split; [by left|].
        split; [right; exists a; split; [done|]; split; [by left|done]|].
        split; [by left|]. by left.
      * split; [by left|]. split; [by left|]. split; [by left|].
        split; [|by left]. intros x Hx. apply elem_of_app in Hx as [Hx|Hx];
          [by left|]. apply list_elem_of_singleton in Hx as ->.
        right. split; [by left|done].
  - intros o o' Hr.
    destruct (parseLoop_cons a (b :: rest) o)
      as [[Hf He] | [[Hf He] | [[Hf He] | [(_ & _ & He) | [Hpos He]]]]];
      rewrite He in Hr; try done.
    + apply (Hlift [a; b] rest _ o o' (fun w H => proj2 (elem_of_app _ _ _)
                                                   (or_introl H))
               (IH1 _ _ Hr)); cbn [model provider command args help];
        [|by left|by left|by left|by left].
      right. exists b. split; [done|]. by apply valueFlagged_here.
    + apply (Hlift [a; b] rest _ o o' (fun w H => proj2 (elem_of_app _ _ _)
                                                   (or_introl H))
               (IH1 _ _ Hr)); cbn [model provider command args help];
        [by left| |by left|by left|by left].
      right. exists b. split; [done|]. by apply valueFlagged_here.
    + apply (Hlift [a] (b :: rest) _ o o'
               (fun w H => proj2 (elem_of_app _ _ _) (or_introl H))
               (IH2 _ _ Hr)); cbn [model provider command args help];
        [by left|by left|by left|by left|].
      right. split; [done|].
      apply elem_of_cons in Hf as [-> | Hf]; [left; by left|].
      apply list_elem_of_singleton in Hf as ->. right; by left.
    + apply (Hlift [a] (b :: rest) _ o o'
               (fun w H => proj2 (elem_of_app _ _ _) (or_introl H))
               (IH2 _ _ Hr));
        destruct (negb (Js.truthy (command o)));
        cbn [model provider command args help]; try by left.
      * right. exists a. split; [done|]. split; [by left|done].
      * intros x Hx. apply elem_of_app in Hx as [Hx|Hx]; [by left|].
        apply list_elem_of_singleton in Hx as ->. right. split; [by left|done].
Qed.

(** X17.  [parseArgs] invents nothing: when it returns, the model is a
    value that follows [--model] or [-m] in the arguments, the provider one
    that follows [--provider] or [-p], the command and its arguments are
    words of the arguments that are no flags, and [help] is set only when
    [--help] or [-h] occurs. *)
Theorem parseArgs_values_come_from_argv
    (argv : list string) (o : CLIOptions) :
  parseArgs (Some argv) = Return o →
  (∀ v, model o = Some v → valueFlagged ["--model"; "-m"] argv v)
  ∧ (∀ v, provider o = Some v → valueFlagged ["--provider"; "-p"] argv v)
  ∧ (∀ c, command o = Some c → c ∈ argv ∧ positional c)
  ∧ (∀ a, a ∈ args o → a ∈ argv ∧ positional a)
  ∧ (∀ b, help o = Some b → b = true ∧ ("--help" ∈ argv ∨ "-h" ∈ argv)).
Proof.
  unfold parseArgs. intros Hr.
  destruct (parseLoop_provenance _ _ _ Hr) as (Hm & Hp & Hc & Ha & Hh).
  cbn [model provider command args help] in *.
  split; [|split; [|split; [|split]]].
  - intros v Hv. destruct Hm as [Hm | (v' & Hm & Hf)]; congruence.
  - intros v Hv. destruct Hp as [Hp | (v' & Hp & Hf)]; congruence.
  - intros c Hv. destruct Hc as [Hc | (c' & Hc & Hin & Hpos)]; [congruence|].
    assert (c' = c) as -> by congruence. done.
  - intros a Hin. destruct (Ha a Hin) as [Hnil | ?]; [|done].
    by apply elem_of_nil in Hnil.
  - intros b Hb. destruct Hh as [Hh | [Hh Hin]]; [congruence|].
    split; [congruence|done].
Qed.

Lemma parseLoop_failures rest :
  ∀ o e, parseLoop rest o = Throw e →
    (e = Error "--model requires a value (e.g., --model gpt-4o)"
     ∧ (last rest = Some "--model" ∨ last rest = Some "-m"))
    ∨ (e = Error "--provider requires a value (e.g., --provider openai)"
       ∧ (last rest = Some "--provider" ∨ last rest = Some "-p"))
    ∨ (∃ w, w ∈ rest ∧ Js.startsWith w "--" = true
            ∧ (w ∉ ["--model"; "--provider"; "--help"])
            ∧ e = Error ("Unknown option: " +:+ w
                         +:+ ". Use --help for usage information.")).
Proof.
  assert (Hlift : ∀ ws (b : string) rest e,
    ((e = Error "--model requires a value (e.g., --model gpt-4o)"
      ∧ (last (b :: rest) = Some "--model" ∨ last (b :: rest) = Some "-m"))
     ∨ (e = Error "--provider requires a value (e.g., --provider openai)"
        ∧ (last (b :: rest) = Some "--provider"
           ∨ last (b :: rest) = Some "-p"))
     ∨ (∃ w, w ∈ b :: rest ∧ Js.startsWith w "--" = true
             ∧ (w ∉ ["--model"; "--provider"; "--help"])
             ∧ e = Error ("Unknown option: " +:+ w
                          +:+ ". Use --help for usage information."))) →
    (e = Error "--model requires a value (e.g., --model gpt-4o)"
     ∧ (last (ws ++ b :: rest) = Some "--model"
        ∨ last (ws ++ b :: rest) = Some "-m"))
    ∨ (e = Error "--provider requires a value (e.g., --provider openai)"
       ∧ (last (ws ++ b :: rest) = Some "--provider"
          ∨ last (ws ++ b :: rest) = Some "-p"))
    ∨ (∃ w, w ∈ ws ++ b :: rest ∧ Js.startsWith w "--" = true
            ∧ (w ∉ ["--model"; "--provider"; "--help"])
            ∧ e = Error ("Unknown option: " +:+ w
                         +:+ ". Use --help for usage information."))).
  { intros ws b rest0 e.
    assert (last (ws ++ b :: rest0) = last (b :: rest0)) as ->.
    { rewrite last_app. by destruct (last (b :: rest0)) eqn:Hl;
        [|apply last_None in Hl]. }
    intros [H | [H | (w & Hin & H)]]; [by left|right; by left|].
    right; right. exists w. rewrite elem_of_app. auto. }
  induction rest as [| |a b rest IH1 IH2] using pair_induction.
  - done.
  - intros o e Hr.
    destruct (parseLoop_cons a [] o)
      as [[Hf He] | [[Hf He] | [[Hf He] | [(Hd & Hn & He) | [Hpos He]]]]];
      rewrite He in Hr; try done.
    + injection Hr as <-. left. split; [done|]. simpl.
      apply elem_of_cons in Hf as [-> | Hf]; [by left|].
      apply list_elem_of_singleton in Hf as ->. by right.
    + injection Hr as <-. right; left. split; [done|]. simpl.
      apply elem_of_cons in Hf as [-> | Hf]; [by left|].
      apply list_elem_of_singleton in Hf as ->. by right.
    + injection Hr as <-. right; right. exists a.
      split; [by left|done].
  - intros o e Hr.
    destruct (parseLoop_cons a (b :: rest) o)
      as [[Hf He] | [[Hf He] | [[Hf He] | [(Hd & Hn & He) | [Hpos He]]]]];
      rewrite He in Hr.
    + destruct rest as [|c rest].
      { done. }
      apply (Hlift [a; b] c rest). by eapply IH1.
    + destruct rest as [|c rest].
      { done. }
      apply (Hlift [a; b] c rest). by eapply IH1.
    + apply (Hlift [a] b rest). by eapply IH2.
    + injection Hr as <-. right; right. exists a.
      split; [by left|done].
    + apply (Hlift [a] b rest). by eapply IH2.
Qed.

Lemma parseLoop_returns rest :
  ∀ o,
    (∀ w, w ∈ rest → Js.startsWith w "--" = true →
          w ∈ ["--model"; "--provider"; "--help"]) →
    last rest ∉ [Some "--model"; Some "-m"; Some "--provider"; Some "-p"] →
    ∃ o', parseLoop rest o = Return o'.
Proof.
  intros o Hknown Hlast.
  destruct (parseLoop rest o) as [o'|e] eqn:Hr; [by eexists|].
  exfalso. rewrite !not_elem_of_cons in Hlast.
  destruct (parseLoop_failures _ _ _ Hr)
    as [[_ [Hl | Hl]] | [[_ [Hl | Hl]] | (w & Hin & Hd & Hn & _)]];
    [tauto..|].
  by apply Hn, Hknown.
Qed.

(** X18.  [parseArgs] throws in three ways only: [--model] or [-m] is the
    last argument, [--provider] or [-p] is, or an argument starts with two
    dashes and is none of the three long flags.  It returns whenever the
    arguments that start with two dashes are among the three long flags and
    the last argument is no flag that takes a value. *)
Theorem parseArgs_failures (argv : list string) :
  (∀ e, parseArgs (Some argv) = Throw e →
     (e = Error "--model requires a value (e.g., --model gpt-4o)"
      ∧ (last argv = Some "--model" ∨ last argv = Some "-m"))
     ∨ (e = Error "--provider requires a value (e.g., --provider openai)"
        ∧ (last argv = Some "--provider" ∨ last argv = Some "-p"))
     ∨ (∃ w, w ∈ argv ∧ Js.startsWith w "--" = true
             ∧ (w ∉ ["--model"; "--provider"; "--help"])
             ∧ e = Error ("Unknown option: " +:+ w
                          +:+ ". Use --help for usage information.")))
  ∧ ((∀ w, w ∈ argv → Js.startsWith w "--" = true →
           w ∈ ["--model"; "--provider"; "--help"]) →
     last argv ∉ [Some "--model"; Some "-m"; Some "--provider"; Some "-p"] →
     ∃ o, parseArgs (Some argv) = Return o)
  ∧ parseArgs None = Return (mkCLIOptions None None None [] None).
Proof.
  split; [|split].
  - intros e. apply parseLoop_failures.
  - apply parseLoop_returns.
  - done.
Qed.

End CLIExtras.

(** [parseArgs] on a command with its prompt. *)
Lemma parseArgs_positional_words_witness :
  CLI.parseArgs (Some ["generate"; "Create a function"])
  = Return (CLI.mkCLIOptions None None (Some "generate")
                             ["Create a function"] None).
Proof.
  apply (parseArgs_positional_words "generate" ["Create a function"]);
    [|done].
  repeat (apply Forall_cons; split; [split; [reflexivity|compute_done]|]).
  apply Forall_nil_2.
Defined.

(** The model of [--model gpt-4o generate x] follows the flag. *)
Lemma parseArgs_values_come_from_argv_witness :
  valueFlagged ["--model"; "-m"] ["--model"; "gpt-4o"; "generate"; "x"]
               "gpt-4o".
Proof.
  apply (parseArgs_values_come_from_argv
           ["--model"; "gpt-4o"; "generate"; "x"]
           (CLI.mkCLIOptions (Some "gpt-4o") None (Some "generate") ["x"] None)
           eq_refl).
  reflexivity.
Defined.

Section ValidationExtras.
Import CLI Resolver.

Lemma CLI_table_in_resolver_table m n :
  modelToProvider !! m = Some n → MODEL_TO_PROVIDER !! m = Some n.
Proof.
  unfold modelToProvider. intros Hl. apply elem_of_list_to_map_2 in Hl.
  repeat (apply elem_of_cons in Hl as [[= -> ->] | Hl]; [reflexivity|]).
  by apply not_elem_of_nil in Hl.
Qed.

Lemma resolver_table_beyond_CLI_table m n :
  MODEL_TO_PROVIDER !! m = Some n → modelToProvider !! m = None →
  m ∈ ["qwen-max-longcontext"; "gpt-3.5-turbo"; "claude-3-haiku";
       "claude-3-5-sonnet"].
Proof.
  unfold MODEL_TO_PROVIDER. intros Hl Hn. apply elem_of_list_to_map_2 in Hl.
  repeat (apply elem_of_cons in Hl as [[= -> ->] | Hl];
          [first [by vm_compute in Hn | compute_done]|]).
  by apply not_elem_of_nil in Hl.
Qed.

(** X19.  The table of [validateProviderModel] is part of the resolver's.
    For a model of that table given together with a provider, the check
    passes exactly when the table's provider is the lower-cased provider
    flag, and the resolution that [main] then asks for chooses that
    provider.  For the four models that only the resolver's table has, the
    check passes with any provider flag, and the resolution follows the
    model, not the flag. *)
Theorem validateProviderModel_and_resolution
    (o : CLIOptions) (model provider : string)
    (cfg : MultiProviderConfig) (reg : Registry) :
  (∀ m n, modelToProvider !! m = Some n → MODEL_TO_PROVIDER !! m = Some n)
  ∧ (CLI.model o = Some model → CLI.provider o = Some provider →
     provider ≠ "" →
     ∀ n, modelToProvider !! Js.toLowerCase model = Some n →
       valid (validateProviderModel (CLI.model o) (CLI.provider o))
       = bool_decide (n = Js.toLowerCase provider)
       ∧ (ProviderRegistry.has model reg = false →
          chooseProviderName (Main.modelOrProvider o) cfg reg = Return n))
  ∧ (CLI.model o = Some model → CLI.provider o = Some provider →
     ∀ n, MODEL_TO_PROVIDER !! Js.toLowerCase model = Some n →
       modelToProvider !! Js.toLowerCase model = None →
       Js.toLowerCase model
       ∈ ["qwen-max-longcontext"; "gpt-3.5-turbo"; "claude-3-haiku";
          "claude-3-5-sonnet"]
       ∧ validateProviderModel (CLI.model o) (CLI.provider o)
         = mkValidation true None
       ∧ (ProviderRegistry.has model reg = false →
          chooseProviderName (Main.modelOrProvider o) cfg reg = Return n)).
Proof.
  split; [apply CLI_table_in_resolver_table|].
  assert (Hhint : ∀ n, CLI.model o = Some model →
            MODEL_TO_PROVIDER !! Js.toLowerCase model = Some n →
            ProviderRegistry.has model reg = false →
            chooseProviderName (Main.modelOrProvider o) cfg reg = Return n).
  { intros n Hm Ht Hh. unfold Main.modelOrProvider. rewrite Hm.
    destruct model as [|c r]; [done|]. cbn [Js.truthy].
    by apply chooseProviderName_model_hint. }
  split.
  - intros Hm Hp Hne n Ht. split.
    + rewrite Hm, Hp. unfold validateProviderModel.
      destruct model as [|c r]; [done|]. destruct provider as [|d p]; [done|].
      rewrite Ht.
      rewrite (MODEL_TO_PROVIDER_nonempty _ _
                 (CLI_table_in_resolver_table _ _ Ht)).
      cbn [andb]. case_bool_decide as Hd.
      * subst n. by rewrite String.eqb_refl.
      * apply String.eqb_neq in Hd. by rewrite Hd.
    + apply Hhint; [done|]. by apply CLI_table_in_resolver_table.
  - intros Hm Hp n Ht Hc. split; [by eapply resolver_table_beyond_CLI_table|].
    split; [|by apply Hhint].
    rewrite Hm, Hp. unfold validateProviderModel.
    destruct model as [|c r]; [done|]. destruct provider as [|d p]; [done|].
    by rewrite Hc.
Qed.

End ValidationExtras.

(** ** The [config] command *)

Section StringFacts.
Implicit Types (s t p : string).

Lemma length_app s t :
  String.length (s +:+ t) = (String.length s + String.length t)%nat.
Proof.
  induction s as [|c s IH]; [done|].
  rewrite string_app_cons. simpl. by rewrite IH.
Qed.

Lemma substringTo_all n s :
  (String.length s ≤ n)%nat → Js.substringTo n s = s.
Proof.
  revert n. induction s as [|c s IH]; intros [|n] Hl; simpl in *;
    [done|done|lia|].
  rewrite IH; [done|lia].
Qed.

Lemma length_substringTo n s :
  String.length (Js.substringTo n s) = (n `min` String.length s)%nat.
Proof.
  revert n. induction s as [|c s IH]; intros [|n]; simpl; [done..|].
  by rewrite IH.
Qed.

Lemma length_slice n s :
  String.length (Js.slice n s) = (String.length s - n)%nat.
Proof.
  revert n. induction s as [|c s IH]; intros [|n]; simpl; [done..|].
  by rewrite IH.
Qed.

Lemma includes_dot_cons c s :
  Js.includes (String c s) "." = Ascii.eqb c "." || Js.includes s ".".
Proof.
  cbn [Js.includes String.prefix].
  destruct (Ascii.eqb_spec c "."%char) as [->|Hc].
  - destruct (ascii_dec "." "."); [|done]. by destruct s.
  - destruct (ascii_dec "." c) as [<-|_]; [done|]. done.
Qed.

Lemma split_dot_key p t :
  Js.includes p "." = false →
  Js.split "." (p +:+ "." +:+ t) = p :: Js.split "." t.
Proof.
  induction p as [|c p IH]; [done|].
  rewrite includes_dot_cons, orb_false_iff. intros [Hc Hp].
  rewrite string_app_cons. cbn [Js.split]. rewrite Hc.
  by rewrite (IH Hp).
Qed.

Lemma includes_dot_key p t : Js.includes (p +:+ "." +:+ t) "." = true.
Proof.
  induction p as [|c p IH].
  - rewrite string_app_nil_l. change ("." +:+ t) with (String "."%char t).
    by rewrite includes_dot_cons.
  - rewrite string_app_cons, includes_dot_cons, IH. apply orb_true_r.
Qed.

End StringFacts.

(** A key of the form [p.apiKey] or [p.apiKey.more], for a [p] without a
    dot. *)
Lemma apiKey_forms p key :
  Js.includes p "." = false →
  (key = p +:+ ".apiKey" ∨ ∃ more, key = p +:+ ".apiKey." +:+ more) →
  Js.includes key "." = true
  ∧ ∃ rest, Js.split "." key = p :: "apiKey" :: rest.
Proof.
  intros Hp [-> | [more ->]].
  - change (p +:+ ".apiKey") with (p +:+ "." +:+ "apiKey").
    split; [apply includes_dot_key|].
    exists []. by rewrite (split_dot_key p "apiKey" Hp).
  - change (p +:+ ".apiKey." +:+ more)
      with (p +:+ "." +:+ ("apiKey." +:+ more)).
    split; [apply includes_dot_key|].
    exists (Js.split "." more).
    by rewrite (split_dot_key p ("apiKey." +:+ more) Hp).
Qed.

(** X20.  [config get <p>.apiKey] prints the key of [p] between its first
    eight and its last four characters, and [(not set)] when [p] has no
    key or an empty one.  What it prints is at most fifteen characters long
    and does not hide a short key: a key of at most eight characters is
    printed in full at the start, one of at most four twice. *)
Theorem config_get_masks_long_keys_only
    (p key k : string) (m : ConfigManager.t) :
  Js.includes p "." = false →
  (key = p +:+ ".apiKey" ∨ ∃ more, key = p +:+ ".apiKey." +:+ more) →
  (ConfigManager.getProviderKey p m = Some k → k ≠ "" →
   Main.handleConfigGet key m = ([Main.Log (Main.masked k)], Main.Returns))
  ∧ (ConfigManager.getProviderKey p m = None
     ∨ ConfigManager.getProviderKey p m = Some "" →
     Main.handleConfigGet key m = ([Main.Log "(not set)"], Main.Returns))
  ∧ String.length (Main.masked k)
    = ((8 `min` String.length k) + 3 + (4 `min` String.length k))%nat
  ∧ ((String.length k ≤ 8)%nat →
     Main.masked k
     = k +:+ "..." +:+ Js.slice (String.length k - 4) k)
  ∧ ((String.length k ≤ 4)%nat → Main.masked k = k +:+ "..." +:+ k).
Proof.
  intros Hp Hkey.
  destruct (apiKey_forms p key Hp Hkey) as (Hinc & rest & Hsplit).
  split; [|split; [|split; [|split]]].
  - intros Hk Hne. unfold Main.handleConfigGet. rewrite Hinc, Hsplit, Hk.
    by destruct k.
  - intros Hk. unfold Main.handleConfigGet. rewrite Hinc, Hsplit.
    by destruct Hk as [-> | ->].
  - unfold Main.masked.
    rewrite !length_app, length_substringTo, length_slice.
    change (String.length "...") with 3%nat. lia.
  - intros Hl. unfold Main.masked. by rewrite substringTo_all.
  - intros Hl. unfold Main.masked. rewrite substringTo_all by lia.
    by replace (String.length k - 4)%nat with 0%nat by lia.
Qed.

Section ConfigCommandExtras.
Variable JSON_stringify : MultiProviderConfig → string.
Implicit Types (m : ConfigManager.t) (fs : ConfigManager.FileSystem).








End ConfigCommandExtras.

(** [config get qwen.apiKey] on the configuration of the resolver tests:
    the eleven characters of the key are all shown. *)
Lemma config_get_masks_long_keys_only_witness :
  Main.handleConfigGet "qwen.apiKey" Sample.qwenManager
  = ([Main.Log "sk-qwen-...-key"], Main.Returns).
Proof.
  assert (Hk : ConfigManager.getProviderKey "qwen" Sample.qwenManager
               = Some "sk-qwen-key") by (vm_compute; reflexivity).
  destruct (config_get_masks_long_keys_only "qwen" "qwen.apiKey" "sk-qwen-key"
              Sample.qwenManager eq_refl (or_introl eq_refl)) as (H & _).
  exact (H Hk ltac:(discriminate)).
Defined.




Section ResolutionOutcome.
Import Resolver.

(** X23.  Once [resolveProvider] has chosen a name, it returns exactly when
    the name has credentials whose key passes the format check and the name
    is registered or has a provider class.  A name with a good key, no
    registration and no class makes it throw [Unknown provider]. *)
Theorem resolveProvider_returns_iff
    (hint : option string) (config : option MultiProviderConfig)
    (manager : ConfigManager.t) (reg : Registry) (name : string) :
  chooseProviderName hint (effectiveConfigOf config manager) reg
  = Return name →
  ((∃ p reg', resolveProvider hint config manager reg = Return (p, reg'))
   ↔ ∃ pc, providers (effectiveConfigOf config manager) !! name = Some pc
           ∧ ConfigManager.validateProviderKey name (apiKey pc) = true
           ∧ (ProviderRegistry.has name reg = true ∨ knownProvider name))
  ∧ (∀ pc, providers (effectiveConfigOf config manager) !! name = Some pc →
           ConfigManager.validateProviderKey name (apiKey pc) = true →
           ProviderRegistry.has name reg = false →
           ¬ knownProvider name →
           resolveProvider hint config manager reg
           = Throw (Error ("Unknown provider: " +:+ name))).
Proof.
  intros Hc. unfold resolveProvider. rewrite Hc. step_bind.
  set (cfg := effectiveConfigOf config manager).
  assert (Hhas : ProviderRegistry.has name reg
                 = bool_decide (is_Some (ProviderRegistry.get name reg))).
  { unfold ProviderRegistry.has, JsMap.has, ProviderRegistry.get.
    destruct (JsMap.get name _); [by rewrite bool_decide_eq_true_2|].
    rewrite bool_decide_eq_false_2; [done|]. by intros [? ?]. }
  split.
  - split.
    + intros (p & reg' & Hi).
      apply instantiate_inv in Hi as (pc & Hpc & Hv & Hcase).
      exists pc. split; [done|]. split; [done|].
      destruct Hcase as [[Hg _] | (_ & Hcr & _)].
      * left. rewrite Hhas, Hg. by apply bool_decide_eq_true_2.
      * right. destruct (decide (knownProvider name)) as [?|Hkn]; [done|].
        by rewrite (proj2 (createProviderInstance_known name pc) Hkn) in Hcr.
    + intros (pc & Hpc & Hv & Hreg). unfold instantiate. rewrite Hpc, Hv.
      rewrite (validateProviderKey_nonempty_bool _ _ Hv). cbn [negb].
      destruct (ProviderRegistry.get name reg) as [q|] eqn:Hg;
        [by eexists _, _|].
      destruct Hreg as [Hh | Hkn].
      { rewrite Hhas in Hh. apply bool_decide_eq_true_1 in Hh as [? ?].
        done. }
      destruct (proj1 (createProviderInstance_known name pc) Hkn) as [q Hq].
      rewrite Hq. step_bind.
      rewrite (register_return _ _ _ (created_name_not_blank _ _ _ Hq)).
      by eexists _, _.
  - intros pc Hpc Hv Hh Hkn. unfold instantiate. rewrite Hpc, Hv.
    rewrite (validateProviderKey_nonempty_bool _ _ Hv). cbn [negb].
    rewrite Hhas in Hh. apply bool_decide_eq_false_1 in Hh.
    destruct (ProviderRegistry.get name reg) as [q|];
      [exfalso; apply Hh; by eexists|].
    by rewrite (proj2 (createProviderInstance_known name pc) Hkn).
Qed.

End ResolutionOutcome.

(** The resolution of the default provider of the resolver tests returns. *)
Lemma resolveProvider_returns_iff_witness :
  ∃ p reg',
    Resolver.resolveProvider None (Some Sample.qwenDefault) Sample.manager
      ProviderRegistry.empty = Return (p, reg').
Proof.
  apply (proj1 (resolveProvider_returns_iff None (Some Sample.qwenDefault)
                  Sample.manager ProviderRegistry.empty "qwen" eq_refl)).
  exists (ConfigManager.keyOnly "sk-qwen-key").
  split; [apply lookup_singleton_eq|]. split; [reflexivity|].
  right. unfold knownProvider. compute_done.
Defined.

(** ** More on [QwenProvider] *)

Section QwenExtras.
Variable fetch : string → JsMap.t string → QwenProvider.DashScopeRequest
                 → Completion QwenProvider.Response.
Variable JSON_parse : string → Completion QwenProvider.DashScopeResponse.
Implicit Types (p : QwenProvider.t) (options : GenerationOptions).

Lemma lastSegment_app sep s t :
  Js.lastSegment sep (s +:+ t)
  = Js.lastSegment sep (Js.lastSegment sep s +:+ t).
Proof.
  set (u := Js.lastSegment sep s +:+ t).
  unfold Js.lastSegment at 1 2. rewrite split_app, last_app. fold u.
  destruct (last (Js.split sep u)) eqn:Hl; [done|].
  apply last_None in Hl. by apply split_nonempty in Hl.
Qed.

Lemma lastSegment_whole sep s :
  Js.split sep s = [s] → Js.lastSegment sep s = s.
Proof.
  intros Hs. unfold Js.lastSegment. rewrite Hs. simpl. apply or_default_Some.
Qed.

(** The read loop on reads that succeed, followed by any others: it stops
    at the end sentinel without another read, and otherwise goes on with
    the unfinished line as buffer. *)
Lemma readLoop_app model chunks reads buffer :
  Js.split Js.newline buffer = [buffer] →
  QwenProvider.readLoop JSON_parse model ((Return <$> chunks) ++ reads) buffer
  = if bool_decide
         ("[DONE]" ∈ StreamSpec.payloads
                       (StreamSpec.completeLines
                          (buffer +:+ StreamSpec.received chunks)))
    then (omap (StreamSpec.wellFormed JSON_parse model)
               (StreamSpec.beforeDone
                  (StreamSpec.payloads
                     (StreamSpec.completeLines
                        (buffer +:+ StreamSpec.received chunks)))),
          Return tt)
    else
      ((omap (StreamSpec.wellFormed JSON_parse model)
             (StreamSpec.payloads
                (StreamSpec.completeLines
                   (buffer +:+ StreamSpec.received chunks)))
        ++ (QwenProvider.readLoop JSON_parse model reads
              (Js.lastSegment Js.newline
                 (buffer +:+ StreamSpec.received chunks))).1),
       (QwenProvider.readLoop JSON_parse model reads
          (Js.lastSegment Js.newline
             (buffer +:+ StreamSpec.received chunks))).2).
Proof.
  revert buffer. induction chunks as [|chunk chunks IH]; intros buffer Hb.
  - simpl. rewrite string_app_nil_r. unfold StreamSpec.completeLines.
    rewrite Hb. simpl. rewrite (lastSegment_whole _ _ Hb).
    by destruct (QwenProvider.readLoop JSON_parse model reads buffer).
  - rewrite fmap_cons, <- app_comm_cons.
    cbn [QwenProvider.readLoop StreamSpec.received foldr].
    fold (StreamSpec.received chunks).
    rewrite <- string_app_assoc, completeLines_app, payloads_app.
    rewrite (lastSegment_app _ (buffer +:+ chunk)).
    fold (Js.lastSegment Js.newline (buffer +:+ chunk)).
    fold (StreamSpec.completeLines (buffer +:+ chunk)).
    rewrite (processLines_spec fetch).
    case_bool_decide as Hdone.
    + rewrite bool_decide_eq_true_2 by (apply elem_of_app; by left).
      by rewrite beforeDone_app_sentinel.
    + rewrite IH by apply split_lastSegment.
      rewrite (beforeDone_no_sentinel _ Hdone).
      case_bool_decide as Hdone'.
      * rewrite bool_decide_eq_true_2 by (apply elem_of_app; by right).
        rewrite beforeDone_app_no_sentinel by done. by rewrite omap_app.
      * rewrite bool_decide_eq_false_2
          by (rewrite elem_of_app; intros [?|?]; done).
        rewrite omap_app. by rewrite <- app_assoc.
Qed.

Lemma formatRequest_withStream prompt options :
  QwenProvider.formatRequest prompt (QwenProvider.withStream options)
  = QwenProvider.formatRequest prompt options.
Proof. done. Qed.

(** X24.  A stream stops at the end sentinel or at the first read that
    fails.  When the reads before any failure carry the sentinel among
    their complete data lines, [streamResponse] ends normally without
    another read, whatever follows; when they do not and the next read
    fails, it has yielded the well-formed payloads received so far and then
    throws the failure as a provider error.  The request it sends has the
    body [sendMessage] would send: the [stream] option leaves no trace in
    it. *)
Theorem streamResponse_stops_at_sentinel_or_failure
    (p : QwenProvider.t) (prompt : string) (options : GenerationOptions)
    (response : QwenProvider.Response) (chunks : list string)
    (reads : list (Completion string)) :
  QwenProvider.makeRequest fetch p
    (QwenProvider.formatRequest prompt options) true = Return response →
  QwenProvider.ok response = true →
  QwenProvider.body response = Some ((Return <$> chunks) ++ reads) →
  ("[DONE]" ∈ StreamSpec.payloads
                (StreamSpec.completeLines (StreamSpec.received chunks)) →
   QwenProvider.streamResponse fetch JSON_parse p prompt options
   = (StreamSpec.expectedYields JSON_parse
        (Js.or_default (opt_model options) "qwen-turbo") chunks,
      Return tt))
  ∧ ("[DONE]" ∉ StreamSpec.payloads
                  (StreamSpec.completeLines (StreamSpec.received chunks)) →
     ∀ error rest, reads = Throw error :: rest →
       QwenProvider.streamResponse fetch JSON_parse p prompt options
       = (StreamSpec.expectedYields JSON_parse
            (Js.or_default (opt_model options) "qwen-turbo") chunks,
          Throw (LLMErr (QwenProvider.handleError error)))).
Proof.
  intros Hreq Hok Hbody. unfold QwenProvider.streamResponse.
  rewrite formatRequest_withStream, Hreq, Hok, Hbody. cbn [negb].
  rewrite readLoop_app by done. rewrite !string_app_nil_l.
  unfold StreamSpec.expectedYields. split.
  - intros Hdone. by rewrite bool_decide_eq_true_2.
  - intros Hdone error rest ->. rewrite bool_decide_eq_false_2 by done.
    cbn [QwenProvider.readLoop fst snd]. rewrite app_nil_r.
    by rewrite beforeDone_no_sentinel.
Qed.

Lemma sendMessage_unfold p prompt options :
  QwenProvider.sendMessage fetch p prompt options
  = QwenProvider.normalized
      (match fetch (QwenProvider.baseUrl_ p) (QwenProvider.authenticate p)
               (QwenProvider.formatRequest prompt options) with
       | Return response =>
           if negb (QwenProvider.ok response)
           then Throw (LLMErr (QwenProvider.handleHttpError
                                 (QwenProvider.status response)))
           else
             match QwenProvider.json response with
             | Return data =>
                 QwenProvider.parseResponse data
                   (Js.or_default (opt_model options) "qwen-turbo")
             | Throw error => Throw error
             end
       | Throw (JsError name msg) =>
           if String.eqb name "AbortError"
           then Throw (LLMErr (NetworkError "Request timeout" "qwen" None))
           else Throw (JsError name msg)
       | Throw error => Throw error
       end).
Proof.
  unfold QwenProvider.sendMessage, QwenProvider.makeRequest.
  destruct (fetch _ _ _) as [response|[name msg| |err]]; step_bind; try done.
  by destruct (String.eqb name "AbortError").
Qed.


Lemma parseResponse_returns data m r :
  QwenProvider.parseResponse data m = Return r →
  provider r = "qwen" ∧ model r = m.
Proof.
  unfold QwenProvider.parseResponse.
  destruct (match QwenProvider.output data with
            | Some o => match QwenProvider.choices o with
                        | Some cs => cs
                        | None => []
                        end
            | None => []
            end) as [|[[msg|] fr] cs]; [done| |done].
  by intros [= <-].
Qed.

Lemma sendMessage_returns p prompt options r :
  QwenProvider.sendMessage fetch p prompt options = Return r →
  provider r = "qwen"
  ∧ model r = Js.or_default (opt_model options) "qwen-turbo".
Proof.
  rewrite sendMessage_unfold.
  destruct (fetch _ _ _) as [response|[name msg| |err]]; simpl; [| |done..].
  - destruct (QwenProvider.ok response); simpl; [|done].
    destruct (QwenProvider.json response) as [data|]; [|done].
    destruct (QwenProvider.parseResponse data _) as [r'|] eqn:Hp; [|done].
    simpl. intros [= <-]. by eapply parseResponse_returns.
  - by destruct (String.eqb name "AbortError").
Qed.


Lemma enhancedPrompt_suffix prompt context :
  ∃ pre, QwenProvider.enhancedPrompt prompt context = pre +:+ prompt.
Proof.
  unfold QwenProvider.enhancedPrompt.
  assert (H1 : ∃ pre,
    match filePath context with
    | Some (String c r) =>
        "File: " +:+ String c r +:+ Js.nl +:+ Js.nl +:+ prompt
    | _ => prompt
    end = pre +:+ prompt).
  { destruct (filePath context) as [[|c r]|];
      [by exists ""| |by exists ""].
    exists ("File: " +:+ String c r +:+ Js.nl +:+ Js.nl).
    by rewrite !string_app_assoc. }
  destruct H1 as [pre1 ->].
  assert (H2 : ∃ pre,
    match language context with
    | Some (String c r) =>
        "Language: " +:+ String c r +:+ Js.nl +:+ Js.nl +:+ pre1 +:+ prompt
    | _ => pre1 +:+ prompt
    end = pre +:+ prompt).
  { destruct (language context) as [[|c r]|];
      [by exists pre1| |by exists pre1].
    exists ("Language: " +:+ String c r +:+ Js.nl +:+ Js.nl +:+ pre1).
    by rewrite !string_app_assoc. }
  destruct H2 as [pre2 ->].
  assert (H3 : ∃ pre,
    match existingCode context with
    | Some (String c r) =>
        "Existing code:" +:+ Js.nl +:+ Js.fence
        +:+ Js.or_default (language context) "" +:+ Js.nl
        +:+ String c r +:+ Js.nl +:+ Js.fence +:+ Js.nl +:+ Js.nl
        +:+ pre2 +:+ prompt
    | _ => pre2 +:+ prompt
    end = pre +:+ prompt).
  { destruct (existingCode context) as [[|c r]|];
      [by exists pre2| |by exists pre2].
    exists ("Existing code:" +:+ Js.nl +:+ Js.fence
            +:+ Js.or_default (language context) "" +:+ Js.nl
            +:+ String c r +:+ Js.nl +:+ Js.fence +:+ Js.nl +:+ Js.nl
            +:+ pre2).
    by rewrite !string_app_assoc. }
  destruct H3 as [pre3 ->].
  destruct (requirements context) as [[|c r]|];
    [by exists pre3| |by exists pre3].
  exists ("Requirements: " +:+ String c r +:+ Js.nl +:+ Js.nl +:+ pre3).
  by rewrite !string_app_assoc.
Qed.

Lemma generateCode_unfold p prompt context :
  QwenProvider.generateCode fetch p prompt context
  = match QwenProvider.sendMessage fetch p
            (QwenProvider.enhancedPrompt prompt context)
            QwenProvider.codeGenerationOptions with
    | Return resp =>
        Return (mkCodeGenerationResult
                  (QwenProvider.extractCodeFromResponse (content resp)
                     (language context))
                  None
                  (match filePath context with
                   | Some (String c r) =>
                       Some [mkFileChange (String c r)
                               (if Js.truthy (existingCode context)
                                then modify else create)
                               (QwenProvider.extractCodeFromResponse
                                  (content resp) (language context))
                               None]
                   | _ => None
                   end)
                  resp)
    | Throw e => Throw e
    end.
Proof.
  unfold QwenProvider.generateCode.
  destruct (QwenProvider.sendMessage _ _ _ _) as [resp|e] eqn:Hs;
    step_bind; [done|].
  destruct (sendMessage_throws_normalized fetch _ _ _ _ Hs) as [err ->].
  done.
Qed.

(** X26.  [generateCode] fails exactly when its one [sendMessage] call
    fails, and with the same error.  That call always asks for the model
    [qwen-turbo] at temperature 0.2 and nothing else, whatever the context,
    with a prompt that ends with the caller's prompt and is the caller's
    prompt when the context gives no file, language, code or requirements.
    A result names the provider [qwen] and the model [qwen-turbo] and has
    no explanation. *)
Theorem generateCode_fails_as_sendMessage
    (p : QwenProvider.t) (prompt : string) (context : CodeContext) :
  (∀ e, QwenProvider.generateCode fetch p prompt context = Throw e
        ↔ QwenProvider.sendMessage fetch p
            (QwenProvider.enhancedPrompt prompt context)
            QwenProvider.codeGenerationOptions = Throw e)
  ∧ QwenProvider.formatRequest (QwenProvider.enhancedPrompt prompt context)
      QwenProvider.codeGenerationOptions
    = QwenProvider.mkDashScopeRequest "qwen-turbo"
        [QwenProvider.mkRequestMessage "user"
           (QwenProvider.enhancedPrompt prompt context)]
        (Some (QwenProvider.mkRequestParameters (Some (mkDecimal 2 (-1)))
                                                None None None))
  ∧ (∃ pre, QwenProvider.enhancedPrompt prompt context = pre +:+ prompt)
  ∧ (Js.truthy (filePath context) = false →
     Js.truthy (language context) = false →
     Js.truthy (existingCode context) = false →
     Js.truthy (requirements context) = false →
     QwenProvider.enhancedPrompt prompt context = prompt)
  ∧ (∀ r, QwenProvider.generateCode fetch p prompt context = Return r →
          provider (response r) = "qwen"
          ∧ model (response r) = "qwen-turbo"
          ∧ explanation r = None).
Proof.
  split; [|split; [done|split; [apply enhancedPrompt_suffix|split]]].
  - intros e. rewrite generateCode_unfold.
    destruct (QwenProvider.sendMessage _ _ _ _);
      [split; intros; done|split; intros [= ->]; done].
  - unfold QwenProvider.enhancedPrompt.
    destruct (filePath context) as [[|??]|]; try done;
      destruct (language context) as [[|??]|]; try done;
      destruct (existingCode context) as [[|??]|]; try done;
      destruct (requirements context) as [[|??]|]; done.
  - intros r. rewrite generateCode_unfold.
    destruct (QwenProvider.sendMessage _ _ _ _) as [resp|] eqn:Hs; [|done].
    intros [= <-]. simpl.
    destruct (sendMessage_returns _ _ _ _ Hs) as [-> ->]. done.
Qed.

Lemma trimEnd_head c r :
  Js.is_whitespace c = false →
  ∃ t, Js.trimEnd (String c r) = String c t.
Proof.
  intros Hc. simpl. destruct (Js.trimEnd r); rewrite ?Hc; by eexists.
Qed.

Lemma trimEnd_cons c r d t :
  Js.trimEnd r = String d t → Js.trimEnd (String c r) = String c (String d t).
Proof. intros Hr. cbn [Js.trimEnd]. by rewrite Hr. Qed.

Lemma trimEnd_idem s : Js.trimEnd (Js.trimEnd s) = Js.trimEnd s.
Proof.
  induction s as [|c s IH]; [done|].
  destruct (Js.trimEnd s) as [|d t] eqn:Ht.
  - cbn [Js.trimEnd]. rewrite Ht.
    destruct (Js.is_whitespace c) eqn:Hc; [done|]. cbn [Js.trimEnd].
    by rewrite Hc.
  - rewrite (trimEnd_cons c s d t Ht). by apply trimEnd_cons.
Qed.

Lemma trim_trimStart s : Js.trimStart (Js.trim s) = Js.trim s.
Proof.
  unfold Js.trim. destruct (Js.trimStart s) as [|c r] eqn:Hs; [done|].
  pose proof (trimStart_head _ _ _ Hs) as Hc.
  destruct (trimEnd_head c r Hc) as [t ->]. simpl. by rewrite Hc.
Qed.

Lemma trim_trimEnd s : Js.trimEnd (Js.trim s) = Js.trim s.
Proof. unfold Js.trim. apply trimEnd_idem. Qed.

Lemma trim_idem s : Js.trim (Js.trim s) = Js.trim s.
Proof.
  unfold Js.trim at 1. by rewrite trim_trimStart, trim_trimEnd.
Qed.

Lemma extractCodeFromResponse_trim content language :
  ∃ s, QwenProvider.extractCodeFromResponse content language = Js.trim s.
Proof.
  unfold QwenProvider.extractCodeFromResponse.
  destruct (QwenProvider.firstMatch content); [by eexists|].
  destruct (if Js.truthy language
            then QwenProvider.scanLines false (Js.split Js.newline content)
            else []); by eexists.
Qed.

(** X27.  What [extractCodeFromResponse] returns is trimmed on every path:
    it neither starts nor ends with white space, and trimming it again
    changes nothing.  So is the code of every [generateCode] result, and
    the content of the file change it proposes is that code. *)
Theorem extracted_code_is_trimmed
    (p : QwenProvider.t) (prompt text : string)
    (lang : option string) (context : CodeContext) :
  Js.trimStart (QwenProvider.extractCodeFromResponse text lang)
  = QwenProvider.extractCodeFromResponse text lang
  ∧ Js.trimEnd (QwenProvider.extractCodeFromResponse text lang)
    = QwenProvider.extractCodeFromResponse text lang
  ∧ (∀ c r, QwenProvider.extractCodeFromResponse text lang = String c r →
            Js.is_whitespace c = false)
  ∧ (∀ r, QwenProvider.generateCode fetch p prompt context = Return r →
          Js.trim (code r) = code r
          ∧ ∀ ch, changes r = Some ch →
                  ∃ f, ch = [f] ∧ fc_content f = code r
                       ∧ Some (path f) = filePath context).
Proof.
  destruct (extractCodeFromResponse_trim text lang) as [s ->].
  split; [apply trim_trimStart|]. split; [apply trim_trimEnd|]. split.
  - intros c r Hs. apply (trimStart_head (Js.trim s) c r).
    by rewrite trim_trimStart.
  - intros r. rewrite generateCode_unfold.
    destruct (QwenProvider.sendMessage _ _ _ _) as [resp|]; [|done].
    intros [= <-]. simpl. split.
    + destruct (extractCodeFromResponse_trim (content resp)
                  (language context)) as [s' ->].
      apply trim_idem.
    + destruct (filePath context) as [[|c f]|]; [done| |done].
      intros ch [= <-]. by eexists.
Qed.

End QwenExtras.

(** A stream whose second read fails: the payload of the first read is
    yielded, then the failure is thrown as a network error. *)
Lemma streamResponse_stops_at_sentinel_or_failure_witness :
  QwenProvider.streamResponse Sample.brokenStreamFetch Sample.parseChunk
    Sample.provider "hello" (mkGenerationOptions None None None None None None)
  = ([Sample.chunkResponse "a"],
     Throw (LLMErr (NetworkError "Network error: network error" "qwen" None))).
Proof.
  destruct (streamResponse_stops_at_sentinel_or_failure
              Sample.brokenStreamFetch Sample.parseChunk Sample.provider
              "hello" (mkGenerationOptions None None None None None None)
              (QwenProvider.mkResponse 200
                 (Throw (JsError "SyntaxError" "Unexpected token"))
                 (Some ((Return <$> ["data: A" +:+ Js.nl])
                        ++ [Throw (JsError "TypeError" "network error")])))
              ["data: A" +:+ Js.nl]
              [Throw (JsError "TypeError" "network error")]
              eq_refl eq_refl eq_refl) as [_ H].
  rewrite (H ltac:(compute_done) (JsError "TypeError" "network error") []
             eq_refl).
  reflexivity.
Defined.

(** ** Lookup by model in the resolver *)

Section ModelLookup.
Import Resolver.

Lemma models_in_table (p : Provider) M :
  M ∈ getSupportedModels p → MODEL_TO_PROVIDER !! M = Some (getName p).
Proof.
  destruct p; simpl; intros Hin;
    repeat (apply elem_of_cons in Hin as [-> | Hin]; [reflexivity|]);
    by apply not_elem_of_nil in Hin.
Qed.

Lemma table_keys_lower M n :
  MODEL_TO_PROVIDER !! M = Some n →
  Js.toLowerCase M = M ∧ Js.toLowerCase n = n.
Proof.
  unfold MODEL_TO_PROVIDER. intros Hl. apply elem_of_list_to_map_2 in Hl.
  repeat (apply elem_of_cons in Hl as [[= -> ->] | Hl]; [by split|]).
  by apply not_elem_of_nil in Hl.
Qed.

Lemma index_consistent_empty : index_consistent ProviderRegistry.empty.
Proof. intros M n Hl. simpl in Hl. by rewrite lookup_empty in Hl. Qed.

Lemma index_consistent_register (reg reg' : Registry) p name :
  index_consistent reg →
  getName p = Js.toLowerCase name →
  ProviderRegistry.register (Some p) name reg = Return reg' →
  index_consistent reg'.
Proof.
  intros Hic Hn Hr M n.
  destruct (decide (M ∈ getSupportedModels p)) as [Hin|Hin].
  - pose proof (register_getByModel _ _ _ _ M Hr Hin) as Hg.
    apply getByModel_registered in Hg as (n' & Hidx & _).
    revert Hr Hidx. unfold ProviderRegistry.register.
    destruct (ProviderRegistry.blank name); [done|]. intros [= <-]. simpl.
    rewrite index_models_elem by done. intros _ [= <-].
    rewrite <- Hn. by apply models_in_table.
  - rewrite (register_getByModel_other _ _ _ _ M Hr Hin). apply Hic.
Qed.

Lemma index_consistent_instantiate name cfg (reg reg' : Registry) p :
  index_consistent reg →
  instantiate name cfg reg = Return (p, reg') →
  index_consistent reg'.
Proof.
  intros Hic Hi. apply instantiate_inv in Hi as (pc & _ & _ & Hcase).
  destruct Hcase as [[_ ->] | (_ & Hc & Hr)]; [done|].
  apply (index_consistent_register reg reg' p name Hic); [|done].
  by eapply createProviderInstance_name.
Qed.

(** X28.  In a registry that only the resolver has filled,
    [getProviderByModel] agrees with the table: a provider it returns is
    registered and its name is the table's provider for the lower-cased
    model; it returns one whenever the table's provider is registered under
    its own name, and none for a model the table does not have.  A
    resolution keeps the registry in that state. *)
Theorem getProviderByModel_agrees_with_table
    (modelId : string) (reg : Registry) :
  resolver_managed reg →
  index_consistent reg →
  (∀ p, getProviderByModel modelId reg = Some p →
        MODEL_TO_PROVIDER !! Js.toLowerCase modelId = Some (getName p)
        ∧ ∃ name, ProviderRegistry.get name reg = Some p)
  ∧ (∀ n q, MODEL_TO_PROVIDER !! Js.toLowerCase modelId = Some n →
            ProviderRegistry.get n reg = Some q →
            is_Some (getProviderByModel modelId reg))
  ∧ (MODEL_TO_PROVIDER !! Js.toLowerCase modelId = None →
     getProviderByModel modelId reg = None)
  ∧ (∀ hint config manager p reg',
        resolveProvider hint config manager reg = Return (p, reg') →
        resolver_managed reg' ∧ index_consistent reg').
Proof.
  intros Hm Hic. unfold getProviderByModel. split; [|split; [|split]].
  - intros p.
    destruct (MODEL_TO_PROVIDER !! Js.toLowerCase modelId) as [n|] eqn:Ht;
      [|done].
    rewrite (MODEL_TO_PROVIDER_nonempty _ _ Ht). cbn [negb].
    destruct (ProviderRegistry.getByModel modelId reg) as [q|] eqn:Hg.
    + intros [= <-].
      apply getByModel_registered in Hg as (name & Hidx & Hget).
      split; [|by exists name].
      pose proof (Hic _ _ Hidx) as Htab.
      destruct (table_keys_lower _ _ Htab) as [Hlow _].
      rewrite Hlow in Ht. rewrite (Hm _ _ Hget). congruence.
    + intros Hget. split; [|by exists n].
      rewrite (Hm _ _ Hget).
      by destruct (table_keys_lower _ _ Ht) as [_ ->].
  - intros n q Ht Hget. rewrite Ht, (MODEL_TO_PROVIDER_nonempty _ _ Ht).
    cbn [negb]. rewrite Hget.
    by destruct (ProviderRegistry.getByModel modelId reg).
  - by intros ->.
  - intros hint config manager p reg'. unfold resolveProvider.
    destruct (chooseProviderName _ _ reg) as [name|]; [|done]. step_bind.
    intros Hi. split.
    + by destruct (instantiate_managed _ _ _ _ _ Hm Hi).
    + by eapply index_consistent_instantiate.
Qed.

End ModelLookup.

(** On a new registry no model has a provider yet, and a resolution leaves
    a registry the resolver manages. *)
Lemma getProviderByModel_agrees_with_table_witness :
  Resolver.getProviderByModel "mistral-7b" ProviderRegistry.empty = None
  ∧ ∀ p reg',
      Resolver.resolveProvider (Some "qwen-max") (Some Sample.qwenDefault)
        Sample.manager ProviderRegistry.empty = Return (p, reg') →
      Resolver.resolver_managed reg' ∧ index_consistent reg'.
Proof.
  destruct (getProviderByModel_agrees_with_table "mistral-7b"
              ProviderRegistry.empty resolver_managed_empty
              index_consistent_empty) as (_ & _ & Hnone & Hinv).
  split; [by apply Hnone|]. intros p reg'. apply Hinv.
Defined.

(** ** The entry point *)

Section MainExtras.
Import Resolver.
Variable fetch : string → JsMap.t string → QwenProvider.DashScopeRequest
                 → Completion QwenProvider.Response.
Variable JSON_stringify : MultiProviderConfig → string.
Variable Object_entries
  : gmap string ProviderConfig → list (string * ProviderConfig).
Hypothesis Object_entries_spec :
  ∀ ps name pc, (name, pc) ∈ Object_entries ps ↔ ps !! name = Some pc.

Lemma registerEntries_nothing entries (reg : Registry) :
  (∀ n pc, (n, pc) ∈ entries → apiKey pc = "") →
  registerEntries entries reg = (reg, Return tt).
Proof.
  induction entries as [|[n pc] rest IH]; intros Hk; [done|].
  rewrite registerEntries_cons.
  rewrite (Hk n pc) by (apply elem_of_cons; by left). simpl.
  apply IH. intros n' pc' Hin. apply (Hk n' pc'), elem_of_cons. by right.
Qed.

Lemma startup_without_keys m :
  (∀ name pc, ¬ keyed (ConfigManager.config m) name pc) →
  registerConfiguredProviders Object_entries m ProviderRegistry.empty
  = (ProviderRegistry.empty, Return tt).
Proof.
  intros Hk. unfold registerConfiguredProviders, ConfigManager.getAllProviders.
  rewrite registerEntries_nothing.
  - by destruct (defaultProvider (ConfigManager.config m)) as [[|??]|].
  - intros n pc Hin. apply Object_entries_spec in Hin.
    destruct (apiKey pc) as [|c k] eqn:Hkey; [done|].
    exfalso. apply (Hk n pc). split; [done|]. by rewrite Hkey.
Qed.

Lemma resolveProvider_needs_key hint m (reg : Registry) :
  (∀ name pc, ¬ keyed (ConfigManager.config m) name pc) →
  ∃ e, resolveProvider hint None m reg = Throw e.
Proof.
  intros Hk. unfold resolveProvider, effectiveConfigOf,
    ConfigManager.getAllProviders.
  destruct (chooseProviderName hint (ConfigManager.config m) reg)
    as [name|e]; [|by eexists].
  step_bind. unfold instantiate.
  destruct (providers (ConfigManager.config m) !! name) as [pc|] eqn:Hpc;
    [|by eexists].
  destruct (apiKey pc) as [|c k] eqn:Hkey; [by eexists|].
  exfalso. apply (Hk name pc). split; [done|]. by rewrite Hkey.
Qed.

(** X29.  [main] resolves a provider before it looks at the command.  So
    in a process whose configuration holds no key, no command runs, [config]
    included: whatever the arguments, [main] ends the process with the
    manager, the file and the registry untouched, with code 0 after printing
    the help text when help was asked for, and with code 1 otherwise. *)
Theorem main_without_keys_runs_no_command
    (nodeArgs : list string) (m : ConfigManager.t)
    (fs : ConfigManager.FileSystem) :
  (∀ name pc, ¬ keyed (ConfigManager.config m) name pc) →
  ∃ lines code,
    Main.main fetch JSON_stringify Object_entries nodeArgs m fs
      ProviderRegistry.empty
    = (Main.mkOutcome m fs lines (Main.Exits code), ProviderRegistry.empty)
    ∧ (code = 0%nat ∧ lines = [Main.Log CLI.getHelpText]
       ∧ ("--help" ∈ nodeArgs ∨ "-h" ∈ nodeArgs)
       ∨ code = 1%nat ∧ ∃ text, lines = [Main.ErrorLine text]).
Proof.
  intros Hk. unfold Main.main.
  destruct (CLI.parseArgs (Some nodeArgs)) as [options|e] eqn:Hp.
  2:{ eexists _, _. split; [reflexivity|]. right. split; [done|].
      by eexists. }
  destruct (CLI.help options) as [[|]|] eqn:Hh.
  { eexists _, _. split; [reflexivity|]. left. split; [done|]. split; [done|].
    destruct (parseLoop_provenance _ _ _ Hp) as (_ & _ & _ & _ & Hhelp).
    rewrite Hh in Hhelp. by destruct Hhelp as [? | [_ ?]]. }
  all: destruct (CLI.valid _);
    [|eexists _, _; split; [reflexivity|]; right; split; [done|];
      by eexists].
  all: cbn [negb]; rewrite (startup_without_keys m Hk).
  all: destruct (resolveProvider_needs_key (Main.modelOrProvider options) m
                   ProviderRegistry.empty Hk) as [e ->].
  all: eexists _, _; split; [reflexivity|]; right; split; [done|];
    by eexists.
Qed.

Lemma table_key_not_known k n :
  MODEL_TO_PROVIDER !! k = Some n → k ∉ ["qwen"; "openai"; "anthropic"].
Proof.
  unfold MODEL_TO_PROVIDER. intros Hl. apply elem_of_list_to_map_2 in Hl.
  repeat (apply elem_of_cons in Hl as [[= -> ->] | Hl]; [compute_done|]).
  by apply not_elem_of_nil in Hl.
Qed.

Lemma parseArgs_model_flag flag mdl command rest :
  flag ∈ ["--model"; "-m"] →
  Forall positional (command :: rest) → command ≠ "" →
  CLI.parseArgs (Some (flag :: mdl :: command :: rest))
  = Return (CLI.mkCLIOptions (Some mdl) None (Some command) rest None).
Proof.
  intros Hf Hall Hne. apply Forall_cons_1 in Hall as [Hc Hrest].
  unfold CLI.parseArgs.
  assert (CLI.parseLoop (flag :: mdl :: command :: rest)
            (CLI.mkCLIOptions None None None [] None)
          = CLI.parseLoop (command :: rest)
              (CLI.mkCLIOptions (Some mdl) None None [] None)) as ->.
  { apply elem_of_cons in Hf as [-> | Hf]; [done|].
    by apply list_elem_of_singleton in Hf as ->. }
  rewrite (parseLoop_positional _ _ _ Hc).
  cbn [CLI.command CLI.model CLI.provider CLI.args CLI.help Js.truthy negb].
  by rewrite (parseLoop_words rest
                (CLI.mkCLIOptions (Some mdl) None (Some command) [] None)
                command Hrest eq_refl Hne).
Qed.

(** [main] on a model flag, a command and its words: the model occurs only
    as the provider name [n] that the table gives for it. *)
Lemma main_model_flag flag mdl n command rest m fs :
  flag ∈ ["--model"; "-m"] →
  MODEL_TO_PROVIDER !! Js.toLowerCase mdl = Some n →
  Forall positional (command :: rest) → command ≠ "" →
  Main.main fetch JSON_stringify Object_entries
    (flag :: mdl :: command :: rest) m fs ProviderRegistry.empty
  = match registerConfiguredProviders Object_entries m ProviderRegistry.empty
    with
    | (registry1, Throw error) => (Main.caught error m fs [], registry1)
    | (registry1, Return _) =>
        match instantiate n (ConfigManager.config m) registry1 with
        | Throw error => (Main.caught error m fs [], registry1)
        | Return (provider, registry2) =>
            match Main.ending
                    (Main.executeCommand fetch JSON_stringify command rest
                       provider m fs) with
            | Main.Throws error =>
                (Main.caught error
                   (Main.manager
                      (Main.executeCommand fetch JSON_stringify command rest
                         provider m fs))
                   (Main.files
                      (Main.executeCommand fetch JSON_stringify command rest
                         provider m fs))
                   (Main.console
                      (Main.executeCommand fetch JSON_stringify command rest
                         provider m fs)),
                 registry2)
            | _ =>
                (Main.executeCommand fetch JSON_stringify command rest
                   provider m fs, registry2)
            end
        end
    end.
Proof.
  intros Hf Ht Hall Hne. unfold Main.main.
  rewrite (parseArgs_model_flag _ _ _ _ Hf Hall Hne).
  cbn [CLI.help CLI.model CLI.provider CLI.command CLI.args].
  assert (mdl ≠ "") as Hm by (by intros ->).
  assert (CLI.validateProviderModel (Some mdl) None
          = CLI.mkValidation true None) as -> by by destruct mdl.
  cbn [CLI.valid negb].
  destruct (registerConfiguredProviders Object_entries m
              ProviderRegistry.empty) as [reg1 [[]|e]] eqn:Hs; [|done].
  assert (Main.modelOrProvider
            (CLI.mkCLIOptions (Some mdl) None (Some command) rest None)
          = Some mdl) as ->.
  { unfold Main.modelOrProvider. by destruct mdl. }
  assert (ProviderRegistry.has mdl reg1 = false) as Hhas.
  { unfold ProviderRegistry.has, JsMap.has.
    fold (ProviderRegistry.get mdl reg1).
    rewrite (startup_get_other Object_entries Object_entries_spec m
               ProviderRegistry.empty reg1 _ mdl Hs); [done|].
    intros _ _ Hkn. by apply (table_key_not_known _ _ Ht). }
  unfold resolveProvider, effectiveConfigOf, ConfigManager.getAllProviders.
  rewrite (chooseProviderName_model_hint mdl n _ _ Hm Hhas Ht). step_bind.
  destruct (instantiate n (ConfigManager.config m) reg1) as [[p reg2]|e];
    [|done].
  destruct command as [|c r]; [done|]. done.
Qed.

(** X30.  The model flag only selects the provider.  Two runs of [main]
    that differ in the model given with [--model] or [-m] end alike, with
    the same lines printed and the same registry, whenever the table gives
    both models the same provider.  When that provider is [qwen] and
    [generate] is answered, the answer names the configured default model,
    or [qwen-turbo] when there is none, not the model of the flag. *)
Theorem main_model_flag_only_selects_provider
    (flag1 flag2 model1 model2 n command : string) (rest : list string)
    (m : ConfigManager.t) (fs : ConfigManager.FileSystem) :
  flag1 ∈ ["--model"; "-m"] → flag2 ∈ ["--model"; "-m"] →
  MODEL_TO_PROVIDER !! Js.toLowerCase model1 = Some n →
  MODEL_TO_PROVIDER !! Js.toLowerCase model2 = Some n →
  Forall positional (command :: rest) → command ≠ "" →
  Main.main fetch JSON_stringify Object_entries
    (flag1 :: model1 :: command :: rest) m fs ProviderRegistry.empty
  = Main.main fetch JSON_stringify Object_entries
      (flag2 :: model2 :: command :: rest) m fs ProviderRegistry.empty
  ∧ (∀ reg1 q reg2 resp,
        registerConfiguredProviders Object_entries m ProviderRegistry.empty
        = (reg1, Return tt) →
        instantiate n (ConfigManager.config m) reg1
        = Return (Qwen q, reg2) →
        command = "generate" → rest ≠ [] →
        QwenProvider.sendMessage fetch q (Js.join " " rest)
          (mkGenerationOptions (ConfigManager.getDefaultModel m)
                               None None None None None)
        = Return resp →
        model resp
        = Js.or_default (ConfigManager.getDefaultModel m) "qwen-turbo"
        ∧ Main.main fetch JSON_stringify Object_entries
            (flag1 :: model1 :: command :: rest) m fs ProviderRegistry.empty
          = (Main.mkOutcome m fs
               ([Main.Log "Using provider: qwen";
                 Main.Log ("Generating response for: " +:+ Js.dquote
                           +:+ Js.join " " rest +:+ Js.dquote +:+ Js.nl);
                 Main.Log (content resp)]
                ++ match tokensUsed resp with
                   | Some t => [Main.Log (Main.tokensLine t)]
                   | None => []
                   end)
               Main.Returns,
             reg2)).
Proof.
  intros Hf1 Hf2 Ht1 Ht2 Hall Hne.
  rewrite (main_model_flag flag1 model1 n command rest m fs Hf1 Ht1 Hall Hne).
  rewrite (main_model_flag flag2 model2 n command rest m fs Hf2 Ht2 Hall Hne).
  split; [done|].
  intros reg1 q reg2 resp -> -> -> Hrest Hsend. split.
  - by destruct (sendMessage_returns fetch _ _ _ _ Hsend) as [_ ->].
  - unfold Main.executeCommand. cbn [String.eqb Ascii.eqb Bool.eqb andb orb].
    unfold Main.handleGenerateCommand. destruct rest as [|w rest]; [done|].
    unfold Main.sendMessage. rewrite Hsend. done.
Qed.

End MainExtras.

(** On a new installation [config set] stores nothing: [main] ends before
    it looks at the command. *)
Lemma main_without_keys_runs_no_command_witness :
  ∃ lines code,
    Main.main Sample.fetch Sample.JSON_stringify Sample.Object_entries
      ["config"; "set"; "qwen.apiKey"; "sk-qwen-key"] Sample.manager
      Sample.noFile ProviderRegistry.empty
    = (Main.mkOutcome Sample.manager Sample.noFile lines (Main.Exits code),
       ProviderRegistry.empty)
    ∧ (code = 0%nat ∧ lines = [Main.Log CLI.getHelpText]
       ∧ ("--help" ∈ ["config"; "set"; "qwen.apiKey"; "sk-qwen-key"]
          ∨ "-h" ∈ ["config"; "set"; "qwen.apiKey"; "sk-qwen-key"])
       ∨ code = 1%nat ∧ ∃ text, lines = [Main.ErrorLine text]).
Proof.
  apply (main_without_keys_runs_no_command Sample.fetch Sample.JSON_stringify
           Sample.Object_entries Sample_Object_entries_spec).
  intros name pc [Hpc _]. simpl in Hpc. by rewrite lookup_empty in Hpc.
Defined.

(** [--model qwen-max generate hi] and [-m qwen-turbo generate hi] are the
    same run. *)
Lemma main_model_flag_only_selects_provider_witness :
  Main.main Sample.fetch Sample.JSON_stringify Sample.Object_entries
    ["--model"; "qwen-max"; "generate"; "hi"] Sample.qwenManager
    Sample.noFile ProviderRegistry.empty
  = Main.main Sample.fetch Sample.JSON_stringify Sample.Object_entries
      ["-m"; "qwen-turbo"; "generate"; "hi"] Sample.qwenManager
      Sample.noFile ProviderRegistry.empty.
Proof.
  apply (main_model_flag_only_selects_provider Sample.fetch
           Sample.JSON_stringify Sample.Object_entries
           Sample_Object_entries_spec "--model" "-m" "qwen-max" "qwen-turbo"
           "qwen" "generate" ["hi"] Sample.qwenManager Sample.noFile).
  - compute_done.
  - compute_done.
  - reflexivity.
  - reflexivity.
  - repeat (apply Forall_cons; split; [split; [reflexivity|compute_done]|]).
    apply Forall_nil_2.
  - discriminate.
Defined.
